(** * Chimera ingestion pipeline: a shallow embedding of the Go sources

    The development follows the package structure of the backend:
    - [Strings], [Strconv], [Fmt]: the parts of the Go standard library the
      pipeline calls, written out where they are small enough to be exact;
    - [processing]: configuration ([IngestionConfig.Validate]), the transform
      and validation registries, [processRow] and [Process];
    - [repository]: the SQL statements of the staging loader and of the
      triage correction, over an explicit model of the tables;
    - [api]: the triage handler [updateIngestionError].

    Go strings are byte strings; [string] (a list of 8-bit [ascii]) is used for
    them.  A Go [(T, error)] pair that is either [(v, nil)] or [(zero, err)]
    is a [result T]. *)

From Stdlib Require Import ZArith Ascii String List Lia Bool.
From stdpp Require Import base option strings list gmap pretty sorting.

Open Scope string_scope.
Open Scope list_scope.
Open Scope Z_scope.

(** ** Errors *)

(** A Go [error]: its message and, for [fmt.Errorf] with the verb [%w], the
    error it wraps. *)
Inductive error : Type :=
| errorString (msg : string)
| wrapError (msg : string) (err : error).

Definition Error (e : error) : string :=
  match e with
  | errorString msg => msg
  | wrapError msg _ => msg
  end.

Definition Unwrap (e : error) : option error :=
  match e with
  | errorString _ => None
  | wrapError _ err => Some err
  end.

(** [fmt.Errorf(prefix + "%w", err)]: every wrapping call of the sources has
    the wrapped error as its last verb. *)
Definition Errorf_w (prefix : string) (err : error) : error :=
  wrapError (prefix +:+ Error err) err.

Inductive result (T : Type) : Type :=
| Ok (v : T)
| Err (e : error).
Arguments Ok {T} v.
Arguments Err {T} e.

(** ** package strings *)

Module Strings.

Definition byte (n : nat) : ascii := ascii_of_nat n.

Fixpoint of_bytes (l : list nat) : string :=
  match l with
  | [] => EmptyString
  | n :: l' => String (byte n) (of_bytes l')
  end.

(** [strip_prefix p s] is [Some r] when [s = p ++ r]. *)
Fixpoint strip_prefix (p s : string) : option string :=
  match p with
  | EmptyString => Some s
  | String a p' =>
      match s with
      | EmptyString => None
      | String b s' => if Ascii.eqb a b then strip_prefix p' s' else None
      end
  end.

(** The UTF-8 encodings of the runes for which [unicode.IsSpace] holds:
    the six ASCII ones, U+0085, U+00A0, U+1680, U+2000..U+200A, U+2028,
    U+2029, U+202F, U+205F and U+3000. *)
Definition spaceRunes : list string :=
  map of_bytes
    [ [9%nat]; [10%nat]; [11%nat]; [12%nat]; [13%nat]; [32%nat];
      [194; 133]%nat; [194; 160]%nat;
      [225; 154; 128]%nat;
      [226; 128; 128]%nat; [226; 128; 129]%nat; [226; 128; 130]%nat;
      [226; 128; 131]%nat; [226; 128; 132]%nat; [226; 128; 133]%nat;
      [226; 128; 134]%nat; [226; 128; 135]%nat; [226; 128; 136]%nat;
      [226; 128; 137]%nat; [226; 128; 138]%nat;
      [226; 128; 168]%nat; [226; 128; 169]%nat; [226; 128; 175]%nat;
      [226; 129; 159]%nat;
      [227; 128; 128]%nat ].

Fixpoint strip_any (pats : list string) (s : string) : option string :=
  match pats with
  | [] => None
  | p :: pats' =>
      match strip_prefix p s with
      | Some r => Some r
      | None => strip_any pats' s
      end
  end.

(** Drops leading occurrences of the patterns, at most [fuel] of them. *)
Fixpoint trim_prefixes (pats : list string) (fuel : nat) (s : string) : string :=
  match fuel with
  | O => s
  | S fuel' =>
      match strip_any pats s with
      | Some r => trim_prefixes pats fuel' r
      | None => s
      end
  end.

Definition TrimLeftSpace (s : string) : string :=
  trim_prefixes spaceRunes (String.length s) s.

(** A trailing space rune is a leading reversed pattern of the reversed
    string: [utf8.DecodeLastRune] walks back to the start byte of the last
    rune and accepts it only when its encoding ends the string. *)
Definition TrimRightSpace (s : string) : string :=
  String.rev
    (trim_prefixes (map String.rev spaceRunes) (String.length s) (String.rev s)).

(** [strings.TrimSpace] *)
Definition TrimSpace (s : string) : string :=
  TrimRightSpace (TrimLeftSpace s).

(** [strings.Join] *)
Definition Join (elems : list string) (sep : string) : string :=
  String.concat sep elems.

(** [strings.ReplaceAll(s, ",", "")] *)
Fixpoint removeCommas (s : string) : string :=
  match s with
  | EmptyString => EmptyString
  | String c s' =>
      if Ascii.eqb c "," then removeCommas s' else String c (removeCommas s')
  end.

(** [strings.SplitN(s, ":", 2)]: the text before the first colon, and the
    text after it when there is one. *)
Fixpoint SplitN_colon_2 (s : string) : string * option string :=
  match s with
  | EmptyString => (EmptyString, None)
  | String c s' =>
      if Ascii.eqb c ":" then (EmptyString, Some s')
      else let '(hd, tl) := SplitN_colon_2 s' in (String c hd, tl)
  end.

(** Whether the byte [c] occurs in [s]. *)
Fixpoint contains (c : ascii) (s : string) : bool :=
  match s with
  | EmptyString => false
  | String b s' => Ascii.eqb c b || contains c s'
  end.

End Strings.

(** ** package fmt: the integer verb *)

Module Fmt.
(** [%d] on a Go [int] *)
Definition d (n : Z) : string := pretty n.
End Fmt.

(** ** Libraries outside the repository

    [decimal.Decimal] (shopspring), [time.Time], [regexp], [strings.ToUpper],
    [strconv.Quote] and [encoding/json] are not part of the repository; the
    embedding takes them as an interface and every theorem holds for all of
    their implementations. *)

Class ExtTypes : Type := {
  Decimal : Type;
  Time : Type
}.

(** The dynamic values an [interface{}] holds in package processing: the
    types the transforms produce and the ones [validationRequired] switches
    on. *)
Inductive value `{ExtTypes} : Type :=
| VNil
| VString (s : string)
| VInt (i : Z)
| VInt32 (i : Z)
| VInt64 (i : Z)
| VDecimal (d : Decimal)
| VTime (t : Time).

Class ExtFuns `{ExtTypes} : Type := {
  strings_ToUpper : string -> string;
  strconv_Quote : string -> string;
  decimal_NewFromString : string -> result Decimal;
  decimal_IsZero : Decimal -> bool;
  decimal_String : Decimal -> string;
  (** [time.ParseInLocation(layout, value, time.UTC)] *)
  time_ParseInLocation_UTC : string -> string -> result Time;
  time_IsZero : Time -> bool;
  time_String : Time -> string;
  (** [regexp.Compile], giving the compiled expression's [MatchString] *)
  regexp_Compile : string -> option (string -> bool);
  (** [json.Marshal] on the processed row *)
  json_Marshal : gmap string value -> result string
}.

(** ** package strconv *)

Module Strconv.

Inductive numError : Type := ErrSyntax | ErrRange.

Definition maxUint64 : Z := 2 ^ 64 - 1.

Definition digit (c : ascii) : option Z :=
  let n := Z.of_nat (nat_of_ascii c) in
  if (48 <=? n) && (n <=? 57) then Some (n - 48) else None.

(** The loop of [ParseUint(s, 10, 64)] over the bytes of [s], [n] being the
    value read so far. *)
Fixpoint ParseUint_loop (s : string) (n : Z) : Z + numError :=
  match s with
  | EmptyString => inl n
  | String c s' =>
      match digit c with
      | None => inr ErrSyntax
      | Some d =>
          if n >=? maxUint64 / 10 + 1 then inr ErrRange
          else
            let n1 := n * 10 + d in
            if n1 >? maxUint64 then inr ErrRange
            else ParseUint_loop s' n1
      end
  end.

Definition ParseUint (s : string) : Z + numError :=
  match s with
  | EmptyString => inr ErrSyntax
  | _ => ParseUint_loop s 0
  end.

(** [ParseInt(s, 10, 64)] *)
Definition ParseInt_value (s : string) : Z + numError :=
  match s with
  | EmptyString => inr ErrSyntax
  | String c s' =>
      let neg := Ascii.eqb c "-" in
      let digits := if Ascii.eqb c "+" || neg then s' else s in
      match ParseUint digits with
      | inr ErrSyntax => inr ErrSyntax
      | inr ErrRange => inr ErrRange
      | inl un =>
          let cutoff := 2 ^ 63 in
          if negb neg && (un >=? cutoff) then inr ErrRange
          else if neg && (un >? cutoff) then inr ErrRange
          else inl (if neg then - un else un)
      end
  end.

Definition numError_text (e : numError) : string :=
  match e with
  | ErrSyntax => "invalid syntax"
  | ErrRange => "value out of range"
  end.

(** The error is a [*NumError], which unwraps to [ErrSyntax] or [ErrRange]. *)
Definition ParseInt `{ExtFuns} (s : string) : result Z :=
  match ParseInt_value s with
  | inl n => Ok n
  | inr e =>
      Err (Errorf_w ("strconv.ParseInt: parsing " +:+ strconv_Quote s +:+ ": ")
             (errorString (numError_text e)))
  end.

End Strconv.

(** ** package pgtype and the parts of package repository the pipeline uses *)

Module pgtype.
Record Text : Type := { String_ : string; Valid : bool }.
End pgtype.

(** [float32] as its IEEE-754 bit pattern *)
Definition float32 : Type := Z.

Module repository.

(** [repository.Item]: the fields [Process] fills and the staging loader
    copies. [Embedding] is the slice inside the [pgvector.Vector]. *)
Record Item : Type := {
  ItemType : string;
  Scope : pgtype.Text;
  BusinessKey : pgtype.Text;
  Status : string;
  CustomProperties : string;
  Embedding : list float32
}.

Record ItemExistsByBusinessKeyParams : Type := {
  ItemType_ : string;
  BusinessKey_ : pgtype.Text
}.

(** [repository.Querier], restricted to the one method processing calls;
    the function is the answer of the store during the call. *)
Record Querier : Type := {
  ItemExistsByBusinessKey : ItemExistsByBusinessKeyParams -> result Z
}.

(** *** The tables

    A [jsonb] value; an object is a finite map, as [jsonb] keeps one value
    per key. Numbers are kept as their text. *)
#[local] Set Warnings "-register-all".
Inductive jsonb : Type :=
| JNull
| JBool (b : bool)
| JNumber (n : string)
| JString (s : string)
| JArray (l : list jsonb)
| JObject (m : gmap string jsonb).
#[local] Set Warnings "register-all".

Definition as_array (j : jsonb) : list jsonb :=
  match j with
  | JArray l => l
  | _ => [j]
  end.

(** The operator [||] on [jsonb]: two objects give the union of their
    keys with the right operand's value on a common key; in every other
    case a non-array operand is taken as a one-element array and the arrays
    are concatenated. *)
Definition jsonb_concat (a b : jsonb) : jsonb :=
  match a, b with
  | JObject x, JObject y => JObject (y ∪ x)
  | _, _ => JArray (as_array a ++ as_array b)
  end.

(** The columns of [items] other than the constrained pair
    [(item_type, business_key)] and the surrogate [id], which no statement
    below reads. Timestamps are instants on some clock. *)
Record ItemCols : Type := {
  scope : option string;
  status : string;
  custom_properties : jsonb;
  embedding : option (list float32);
  created_at : Z;
  updated_at : Z
}.

(** The table [items]. The constraint [items_business_key] allows one row
    per [(item_type, business_key)] with a non-null key, so these rows are a
    finite map; rows with a null [business_key] conflict with nothing and
    are kept with their [item_type]. *)
Record ItemsTable : Type := {
  keyed : gmap (string * string) ItemCols;
  unkeyed : list (string * ItemCols)
}.

(** A row of [temp_items_staging], with the columns [CopyFrom] fills. *)
Record StagedRow : Type := {
  staged_item_type : string;
  staged_scope : option string;
  staged_business_key : option string;
  staged_status : string;
  staged_custom_properties : jsonb;
  staged_embedding : option (list float32)
}.

(** The constrained pair of a staged row, when its key is not null. *)
Definition stagedKey (r : StagedRow) : option (string * string) :=
  match staged_business_key r with
  | Some k => Some (staged_item_type r, k)
  | None => None
  end.

(** *** UpsertItems *)

(** The row the [SELECT] of [UpsertItems] proposes for a staged row:
    [EXCLUDED] in the conflict clause. Its status is the literal ['active'];
    [created_at] and [updated_at] take their default [NOW()]. *)
Definition EXCLUDED (now : Z) (r : StagedRow) : ItemCols :=
  {| scope := staged_scope r;
     status := "active";
     custom_properties := staged_custom_properties r;
     embedding := staged_embedding r;
     created_at := now;
     updated_at := now |}.

(** [ON CONFLICT (item_type, business_key) DO UPDATE SET ...] *)
Definition onConflictUpdate (now : Z) (items_row excluded : ItemCols) : ItemCols :=
  {| status := status excluded;
     scope := scope excluded;
     custom_properties :=
       jsonb_concat (custom_properties items_row) (custom_properties excluded);
     embedding := embedding excluded;
     created_at := created_at items_row;
     updated_at := now |}.

(** The staged rows are proposed one after the other. A proposed row that
    conflicts with a row this same command inserted or updated makes the
    command fail; [touched] holds the keys the command has written. *)
Fixpoint UpsertItems_rows (now : Z) (staging : list StagedRow)
  (touched : gset (string * string)) (items : ItemsTable) (rowsAffected : Z)
  : result (Z * ItemsTable) :=
  match staging with
  | [] => Ok (rowsAffected, items)
  | r :: rest =>
      match staged_business_key r with
      | None =>
          UpsertItems_rows now rest touched
            {| keyed := keyed items;
               unkeyed := unkeyed items ++ [(staged_item_type r, EXCLUDED now r)] |}
            (rowsAffected + 1)
      | Some k =>
          let key := (staged_item_type r, k) in
          if decide (key ∈ touched) then
            Err (errorString
                   "ON CONFLICT DO UPDATE command cannot affect row a second time")
          else
            let row :=
              match keyed items !! key with
              | Some items_row => onConflictUpdate now items_row (EXCLUDED now r)
              | None => EXCLUDED now r
              end in
            UpsertItems_rows now rest ({[key]} ∪ touched)
              {| keyed := <[key := row]> (keyed items); unkeyed := unkeyed items |}
              (rowsAffected + 1)
      end
  end.

(** [UpsertItems], run at the instant [now] *)
Definition UpsertItems (now : Z) (staging : list StagedRow) (items : ItemsTable)
  : result (Z * ItemsTable) :=
  UpsertItems_rows now staging ∅ items 0.

(** *** The triage tables *)

(** A [pgtype.UUID]'s sixteen bytes, as a number *)
Definition UUID : Type := N.

(** [ingestion_jobs]: the status and the counters (nullable integers). *)
Record IngestionJob : Type := {
  job_status : string;
  completed_at : option Z;
  error_details : option string;
  total_rows : option Z;
  processed_rows : option Z;
  initial_error_count : option Z;
  resolved_rows_count : option Z
}.

(** [ingestion_errors]; the JSON columns hold the JSON text. *)
Record IngestionError : Type := {
  job_id : UUID;
  timestamp : Z;
  original_row_data : string;
  reason_for_failure : string;
  error_status : string;
  corrected_data : option string;
  resolved_at : option Z;
  resolved_by : option Z
}.

Record Tables : Type := {
  users : gset Z;
  ingestion_jobs : gmap UUID IngestionJob;
  ingestion_errors : gmap UUID IngestionError
}.

Record UpdateIngestionErrorWithCorrectionParams : Type := {
  ID : UUID;
  CorrectedData : string;
  ResolvedBy : Z
}.

(** [UpdateIngestionErrorWithCorrection :one]: no row with that id gives
    [pgx.ErrNoRows]; [resolved_by] references [users]. *)
Definition UpdateIngestionErrorWithCorrection (now : Z)
  (arg : UpdateIngestionErrorWithCorrectionParams) (db : Tables)
  : result (IngestionError * Tables) :=
  match ingestion_errors db !! ID arg with
  | None => Err (errorString "no rows in result set")
  | Some row =>
      if decide (ResolvedBy arg ∈ users db) then
        let updated :=
          {| job_id := job_id row;
             timestamp := timestamp row;
             original_row_data := original_row_data row;
             reason_for_failure := reason_for_failure row;
             error_status := "pending_revalidation";
             corrected_data := Some (CorrectedData arg);
             resolved_at := Some now;
             resolved_by := Some (ResolvedBy arg) |} in
        Ok (updated,
            {| users := users db;
               ingestion_jobs := ingestion_jobs db;
               ingestion_errors := <[ID arg := updated]> (ingestion_errors db) |})
      else
        Err (errorString
               "insert or update on table ingestion_errors violates foreign key constraint")
  end.

Definition maxInt32 : Z := 2 ^ 31 - 1.

(** [IncrementIngestionJobResolvedRows :exec]: the job is the one the
    error row refers to; no such row, or no such job, updates nothing.
    [NULL + 1] is [NULL]; an [INTEGER] above its range is an error. *)
Definition IncrementIngestionJobResolvedRows (id : UUID) (db : Tables) : result Tables :=
  match ingestion_errors db !! id with
  | None => Ok db
  | Some row =>
      match ingestion_jobs db !! job_id row with
      | None => Ok db
      | Some job =>
          let count :=
            match resolved_rows_count job with
            | None => None
            | Some n => Some (n + 1)
            end in
          match count with
          | Some n =>
              if n >? maxInt32 then Err (errorString "integer out of range")
              else
                Ok {| users := users db;
                      ingestion_jobs :=
                        <[job_id row :=
                            {| job_status := job_status job;
                               completed_at := completed_at job;
                               error_details := error_details job;
                               total_rows := total_rows job;
                               processed_rows := processed_rows job;
                               initial_error_count := initial_error_count job;
                               resolved_rows_count := Some n |}]> (ingestion_jobs db);
                      ingestion_errors := ingestion_errors db |}
          | None => Ok db
          end
      end
  end.

(** *** The other statements of the query files *)

(** [ItemExistsByBusinessKey :one]: 1 when a row of [items] has that type
    and key, 0 otherwise. A null key parameter equals no row's key. The
    parameter is cast to the enum [item_type]; the value of the [SELECT] is
    given for a label the enum has. *)
Definition ItemExistsByBusinessKey_query (arg : ItemExistsByBusinessKeyParams)
  (items : ItemsTable) : Z :=
  if pgtype.Valid (BusinessKey_ arg) then
    match keyed items !! (ItemType_ arg, pgtype.String_ (BusinessKey_ arg)) with
    | Some _ => 1
    | None => 0
    end
  else 0.

(** The [Querier] over a state of the table [items]. *)
Definition itemsQuerier (items : ItemsTable) : Querier :=
  {| ItemExistsByBusinessKey := fun arg => Ok (ItemExistsByBusinessKey_query arg items) |}.

Record CreateIngestionErrorParams : Type := {
  CreateIngestionError_ID : UUID;
  CreateIngestionError_JobID : UUID;
  OriginalRowData : string;
  ReasonForFailure : string
}.

(** [CreateIngestionError :one]: the primary key must be new and the job
    must exist; the other columns take their defaults. *)
Definition CreateIngestionError (now : Z) (arg : CreateIngestionErrorParams) (db : Tables)
  : result (IngestionError * Tables) :=
  match ingestion_errors db !! CreateIngestionError_ID arg with
  | Some _ =>
      Err (errorString "duplicate key value violates unique constraint ingestion_errors_pkey")
  | None =>
      match ingestion_jobs db !! CreateIngestionError_JobID arg with
      | None =>
          Err (errorString
                 "insert or update on table ingestion_errors violates foreign key constraint")
      | Some _ =>
          let row :=
            {| job_id := CreateIngestionError_JobID arg;
               timestamp := now;
               original_row_data := OriginalRowData arg;
               reason_for_failure := ReasonForFailure arg;
               error_status := "new";
               corrected_data := None;
               resolved_at := None;
               resolved_by := None |} in
          Ok (row,
              {| users := users db;
                 ingestion_jobs := ingestion_jobs db;
                 ingestion_errors := <[CreateIngestionError_ID arg := row]> (ingestion_errors db) |})
      end
  end.

Record CreateIngestionJobParams : Type := {
  CreateIngestionJob_ID : UUID;
  CreateIngestionJob_Status : string;
  CreateIngestionJob_UserID : option Z
}.

(** [CreateIngestionJob :one], on the columns of [IngestionJob]: the status
    is the parameter, [resolved_rows_count] takes its default 0 and the other
    counters are null. The primary key must be new and a non-null [user_id]
    must be a user. *)
Definition CreateIngestionJob (arg : CreateIngestionJobParams) (db : Tables)
  : result (IngestionJob * Tables) :=
  match ingestion_jobs db !! CreateIngestionJob_ID arg with
  | Some _ =>
      Err (errorString "duplicate key value violates unique constraint ingestion_jobs_pkey")
  | None =>
      let known :=
        match CreateIngestionJob_UserID arg with
        | None => true
        | Some u => bool_decide (u ∈ users db)
        end in
      if known then
        let job :=
          {| job_status := CreateIngestionJob_Status arg;
             completed_at := None;
             error_details := None;
             total_rows := None;
             processed_rows := None;
             initial_error_count := None;
             resolved_rows_count := Some 0 |} in
        Ok (job,
            {| users := users db;
               ingestion_jobs := <[CreateIngestionJob_ID arg := job]> (ingestion_jobs db);
               ingestion_errors := ingestion_errors db |})
      else
        Err (errorString
               "insert or update on table ingestion_jobs violates foreign key constraint")
  end.

Record UpdateIngestionJobStatusParams : Type := {
  UpdateIngestionJobStatus_ID : UUID;
  UpdateIngestionJobStatus_Status : string;
  ErrorDetails : option string;
  ProcessedRows : option Z;
  InitialErrorCount : option Z
}.

(** [UpdateIngestionJobStatus :exec]: sets the status, the details and the
    two counters, and stamps [completed_at], whatever the status; a missing
    job updates nothing. *)
Definition UpdateIngestionJobStatus (now : Z) (arg : UpdateIngestionJobStatusParams)
  (db : Tables) : Tables :=
  match ingestion_jobs db !! UpdateIngestionJobStatus_ID arg with
  | None => db
  | Some job =>
      {| users := users db;
         ingestion_jobs :=
           <[UpdateIngestionJobStatus_ID arg :=
               {| job_status := UpdateIngestionJobStatus_Status arg;
                  completed_at := Some now;
                  error_details := ErrorDetails arg;
                  total_rows := total_rows job;
                  processed_rows := ProcessedRows arg;
                  initial_error_count := InitialErrorCount arg;
                  resolved_rows_count := resolved_rows_count job |}]> (ingestion_jobs db);
         ingestion_errors := ingestion_errors db |}
  end.

(** The [WHERE] clause of [GetIngestionErrorsByJobID]. *)
Definition unresolvedOf (jobID : UUID) (entry : UUID * IngestionError) : bool :=
  N.eqb (job_id (snd entry)) jobID &&
  (String.eqb (error_status (snd entry)) "new" ||
   String.eqb (error_status (snd entry)) "pending_revalidation").

(** Its [ORDER BY "timestamp" ASC]. *)
Definition byTimestamp (a b : UUID * IngestionError) : Prop :=
  timestamp (snd a) <= timestamp (snd b).

#[global] Instance byTimestamp_dec : RelDecision byTimestamp.
Proof. intros a b. unfold byTimestamp. apply _. Defined.

(** [GetIngestionErrorsByJobID :many]: the rows with their ids. SQL leaves
    the order of rows with equal timestamps open; the list has them in the
    order the sort meets them. *)
Definition GetIngestionErrorsByJobID (jobID : UUID) (db : Tables)
  : list (UUID * IngestionError) :=
  merge_sort byTimestamp
    (List.filter (unresolvedOf jobID) (map_to_list (ingestion_errors db))).

End repository.

(** [interfaces.EmbedderFunc] *)
Definition EmbedderFunc : Type := string -> result (list float32).

(** ** package ingestion *)

Module ingestion.

(** The conversion [int32(n)] of an [int64] *)
Definition int32 (n : Z) : Z := (n + 2 ^ 31) mod 2 ^ 32 - 2 ^ 31.

(** [Service.UpdateJobStatus], run at the instant [now]; [failure] is the
    error of the statement for a reason outside the data. *)
Definition UpdateJobStatus (now : Z) (failure : option error) (jobID : repository.UUID)
  (status errorDetails : string) (rowsUpserted rowsTriaged : Z) (db : repository.Tables)
  : option error * repository.Tables :=
  let params :=
    {| repository.UpdateIngestionJobStatus_ID := jobID;
       repository.UpdateIngestionJobStatus_Status := status;
       repository.ErrorDetails :=
         if negb (String.eqb errorDetails "") then Some errorDetails else None;
       repository.ProcessedRows :=
         if rowsUpserted >? 0 then Some (int32 rowsUpserted) else None;
       repository.InitialErrorCount :=
         if rowsTriaged >? 0 then Some (int32 rowsTriaged) else None |} in
  match failure with
  | Some err => (Some err, db)
  | None => (None, repository.UpdateIngestionJobStatus now params db)
  end.

(** What happens around [StartJob]'s statement: the upload of the file to
    object storage ([io.Copy] and the writer's [Close]), the id [uuid.New]
    draws, and a failure of the insert for a reason the columns of
    [IngestionJob] do not show (a lost connection, a file name that makes
    [source_details] no JSON). *)
Record Upload : Type := {
  copyErr : option error;
  closeErr : option error;
  newJobID : repository.UUID;
  createErr : option error
}.

(** [Service.StartJob] *)
Definition StartJob (upload : Upload) (userID : Z) (db : repository.Tables)
  : result repository.IngestionJob * repository.Tables :=
  match copyErr upload with
  | Some err => (Err (Errorf_w "failed to upload file to GCS: " err), db)
  | None =>
      match closeErr upload with
      | Some err => (Err (Errorf_w "failed to close GCS writer: " err), db)
      | None =>
          let params :=
            {| repository.CreateIngestionJob_ID := newJobID upload;
               repository.CreateIngestionJob_Status := "UPLOADED";
               repository.CreateIngestionJob_UserID := Some userID |} in
          let created :=
            match createErr upload with
            | Some err => Err err
            | None => repository.CreateIngestionJob params db
            end in
          match created with
          | Err err => (Err (Errorf_w "failed to create ingestion job record: " err), db)
          | Ok (createdJob, db') => (Ok createdJob, db')
          end
      end
  end.

End ingestion.

(** ** package processing: configuration *)

Module processing.

(** [ValidationRule]; [AllowZero] is a [*bool], [None] being the nil
    pointer of an absent [allow_zero]. *)
Record ValidationRule : Type := {
  Required : bool;
  AllowZero : option bool;
  Enum : list string;
  Regex : string;
  ExistsInItems : string
}.

Record ProcessingAttempt : Type := {
  Transforms : list string
}.

Record ColumnMapping : Type := {
  CSVHeader : string;
  JSONField : string;
  MergeExcessFields : bool;
  Attempts : list ProcessingAttempt;
  Validation : ValidationRule
}.

Record EmbedContent : Type := {
  SourceColumns : list string
}.

Record IngestionConfig : Type := {
  ReportType : string;
  ItemType : string;
  ScopeField : string;
  BusinessKey : list string;
  EmbedContent_ : option EmbedContent;
  ColumnMappings : list ColumnMapping
}.

(** The lookup table [definedHeaders] that [Validate] fills in its loop. *)
Definition definedHeaders (mappings : list ColumnMapping) : gmap string bool :=
  foldl (fun m mapping => <[CSVHeader mapping := true]> m) ∅ mappings.

(** [IngestionConfig.Validate]: [None] is the nil error. *)
Definition Validate (c : IngestionConfig) : option error :=
  if String.eqb (ReportType c) "" then
    Some (errorString "config validation failed: report_type is required")
  else if String.eqb (ItemType c) "" then
    Some (errorString "config validation failed: item_type is required")
  else if String.eqb (ScopeField c) "" then
    Some (errorString "config validation failed: scope_field is required")
  else if (Z.of_nat (length (BusinessKey c)) =? 0) then
    Some (errorString
            "config validation failed: business_key must contain at least one field")
  else if (Z.of_nat (length (ColumnMappings c)) =? 0) then
    Some (errorString "config validation failed: have at least one column mapping")
  else
    match definedHeaders (ColumnMappings c) !! ScopeField c with
    | None =>
        Some (errorString
                ("config validation failed: scope_field '" +:+ ScopeField c +:+
                 "' does not match any defined CSV headers"))
    | Some _ => None
    end.

(** *** Transform and validation registries *)

Section engine.
Context `{EF : ExtFuns}.

(** [fmt]'s [%v] on the values above *)
Definition fmt_v (v : value) : string :=
  match v with
  | VNil => "<nil>"
  | VString s => s
  | VInt i | VInt32 i | VInt64 i => pretty i
  | VDecimal d => decimal_String d
  | VTime t => time_String t
  end.

(** [%v] on a [[]string] *)
Definition fmt_v_strings (l : list string) : string :=
  "[" +:+ Strings.Join l " " +:+ "]".

Definition TransformFunc : Type := value -> string -> result value.

Definition ValidationFunc : Type :=
  repository.Querier -> value -> ValidationRule -> option error.

Definition transformTrimSpace : TransformFunc := fun input arg =>
  match input with
  | VString str => Ok (VString (Strings.TrimSpace str))
  | _ => Err (errorString "trim_space requires a string input")
  end.

Definition transformToUppercase : TransformFunc := fun input arg =>
  match input with
  | VString str => Ok (VString (strings_ToUpper str))
  | _ => Err (errorString "to_uppercase requires a string input")
  end.

Definition transformToInteger : TransformFunc := fun input arg =>
  match input with
  | VString str =>
      let cleanStr := Strings.TrimSpace (Strings.removeCommas str) in
      if String.eqb cleanStr "" then Ok VNil
      else
        match Strconv.ParseInt cleanStr with
        | Err err => Err (Errorf_w ("could not parse '" +:+ str +:+ "' as integer: ") err)
        | Ok i => Ok (VInt64 i)
        end
  | _ => Err (errorString "to_integer requires a string input")
  end.

Definition transformToDecimal : TransformFunc := fun input arg =>
  match input with
  | VString str =>
      match decimal_NewFromString str with
      | Err err => Err (Errorf_w ("could not parse '" +:+ str +:+ "' as decimal: ") err)
      | Ok d => Ok (VDecimal d)
      end
  | _ => Err (errorString "to_decimal requires a string input")
  end.

Definition transformToDate : TransformFunc := fun input arg =>
  let layout := if String.eqb arg "" then "2006-01-02" else arg in
  match input with
  | VString str =>
      match time_ParseInLocation_UTC layout str with
      | Err err =>
          Err (Errorf_w ("could not parse date '" +:+ str +:+ "' with format '" +:+
                         layout +:+ "' in UTC: ") err)
      | Ok t => Ok (VTime t)
      end
  | _ => Err (errorString "to_date requires a string input")
  end.

Definition validationRequired : ValidationFunc := fun queries input rule =>
  if negb (Required rule) then None
  else
    match input with
    | VNil => Some (errorString "is a required field")
    | _ =>
        let allowZero :=
          match AllowZero rule with
          | Some false => false
          | _ => true
          end in
        match input with
        | VString v =>
            if String.eqb (Strings.TrimSpace v) ""
            then Some (errorString "is a required field") else None
        | VInt val | VInt32 val | VInt64 val =>
            if negb allowZero && (val =? 0)
            then Some (errorString
                         "is a required field and zero is not an allowed value")
            else None
        | VDecimal v =>
            if negb allowZero && decimal_IsZero v
            then Some (errorString
                         "is a required field and zero is not an allowed value")
            else None
        | VTime v =>
            if time_IsZero v then Some (errorString "is a required field") else None
        | VNil => None
        end
    end.

Definition validateEnum : ValidationFunc := fun queries input rule =>
  match Enum rule with
  | [] => None
  | _ =>
      match input with
      | VString str =>
          if existsb (String.eqb str) (Enum rule) then None
          else Some (errorString
                       ("value '" +:+ str +:+ "' is not in the allowed list: " +:+
                        fmt_v_strings (Enum rule)))
      | _ => Some (errorString "value must be a string to be checked against an enum")
      end
  end.

Definition validateRegex : ValidationFunc := fun queries input rule =>
  if String.eqb (Regex rule) "" then None
  else
    match regexp_Compile (Regex rule) with
    | None => Some (errorString ("invalid regex pattern in config: " +:+ Regex rule))
    | Some MatchString =>
        match input with
        | VString str =>
            if negb (MatchString str)
            then Some (errorString
                         ("value '" +:+ str +:+ "' does not match regex pattern '" +:+
                          Regex rule +:+ "'"))
            else None
        | _ => Some (errorString "value must be a string to be matched against a regex")
        end
    end.

Definition validateExistsInItems : ValidationFunc := fun queries input rule =>
  if String.eqb (ExistsInItems rule) "" then None
  else
    let itemTypeToCheck := ExistsInItems rule in
    match input with
    | VString value =>
        if String.eqb value "" then None
        else
          let params :=
            {| repository.ItemType_ := itemTypeToCheck;
               repository.BusinessKey_ :=
                 {| pgtype.String_ := value; pgtype.Valid := true |} |} in
          match repository.ItemExistsByBusinessKey queries params with
          | Err err =>
              Some (errorString ("database error checking existence of " +:+ value))
          | Ok exists_ =>
              if exists_ =? 0
              then Some (errorString
                           ("value '" +:+ value +:+
                            "' does not exist as a business_key for item_type '" +:+
                            itemTypeToCheck +:+ "'"))
              else None
          end
    | _ => Some (errorString "exists_in_items can only validate string fields")
    end.

(** The registries as [init] fills them. *)
Definition transformRegistry : gmap string TransformFunc :=
  <["to_date" := transformToDate]>
  (<["to_decimal" := transformToDecimal]>
  (<["to_integer" := transformToInteger]>
  (<["to_uppercase" := transformToUppercase]>
  (<["trim_space" := transformTrimSpace]> ∅)))).

Definition validationRegistry : gmap string ValidationFunc :=
  <["exists_in_items" := validateExistsInItems]>
  (<["regex" := validateRegex]>
  (<["enum" := validateEnum]>
  (<["required" := validationRequired]> ∅))).

(** *** The row processor *)

(** The name of a transform call [name] or [name:arg]. *)
Definition transformName (transformCall : string) : string :=
  fst (Strings.SplitN_colon_2 transformCall).

Definition transformArg (transformCall : string) : string :=
  default "" (snd (Strings.SplitN_colon_2 transformCall)).

(** The loop of [applyTransforms], from [currentValue]. *)
Fixpoint applyTransforms_from (currentValue : value) (transforms : list string)
  : result value :=
  match transforms with
  | [] => Ok currentValue
  | transformCall :: rest =>
      let transformName := transformName transformCall in
      let arg := transformArg transformCall in
      match transformRegistry !! transformName with
      | None => Err (errorString ("unknown transform function: " +:+ transformName))
      | Some transformer =>
          match transformer currentValue arg with
          | Err err =>
              Err (Errorf_w ("transform '" +:+ transformName +:+ "' failed: ") err)
          | Ok newValue => applyTransforms_from newValue rest
          end
      end
  end.

Definition applyTransforms (value_ : string) (transforms : list string) : result value :=
  applyTransforms_from (VString value_) transforms.

(** The loop of [applyValidation]. Go leaves the order in which [range]
    visits a map unspecified, so the order of the visit is an argument:
    [order] lists the registry's names as this call meets them. *)
Fixpoint applyValidation_loop (order : list string) (queries : repository.Querier)
  (value_ : value) (rules : ValidationRule) : option error :=
  match order with
  | [] => None
  | name :: rest =>
      match validationRegistry !! name with
      | None => applyValidation_loop rest queries value_ rules
      | Some validationFunc =>
          match validationFunc queries value_ rules with
          | Some err => Some (Errorf_w ("validation rule '" +:+ name +:+ "' failed: ") err)
          | None => applyValidation_loop rest queries value_ rules
          end
      end
  end.

Definition applyValidation (order : list string) (queries : repository.Querier)
  (value_ : value) (rules : ValidationRule) : option error :=
  match value_ with
  | VString "" =>
      if negb (Required rules) then None
      else applyValidation_loop order queries value_ rules
  | _ => applyValidation_loop order queries value_ rules
  end.

(** The loop over [mapping.Attempts] in [processRow]: [inl val] when an
    attempt succeeded (the loop breaks there), [inr transformError] when
    the loop ran to its end. *)
Fixpoint attemptsLoop (rawValue : string) (attempts : list ProcessingAttempt)
  (transformError : option error) : value + option error :=
  match attempts with
  | [] => inr transformError
  | attempt :: rest =>
      match applyTransforms rawValue (Transforms attempt) with
      | Ok val => inl val
      | Err err => attemptsLoop rawValue rest (Some err)
      end
  end.

(** [fmt.Errorf] with [%w] given a nil error prints [%!w(<nil>)]. *)
Definition Errorf_w_opt (prefix : string) (err : option error) : error :=
  match err with
  | Some e => Errorf_w prefix e
  | None => errorString (prefix +:+ "%!w(<nil>)")
  end.

(** [record[colIdx]] guarded by [colIdx < len(record)]; column indexes
    come from [range] and are never negative. *)
Definition rawValueAt (record : list string) (colIdx : nat) : string :=
  if (colIdx <? length record)%nat then nth colIdx record "" else "".

(** The transform part of the body of [processRow]'s loop. *)
Definition transformColumn (mapping : ColumnMapping) (rawValue : string) : result value :=
  if (0 <? length (Attempts mapping))%nat then
    match attemptsLoop rawValue (Attempts mapping) None with
    | inl val => Ok val
    | inr transformError =>
        Err (Errorf_w_opt
               ("all transform attempts failed for column '" +:+ CSVHeader mapping +:+
                "' with value '" +:+ rawValue +:+ "': ") transformError)
    end
  else Ok (VString rawValue).

(** The loop of [processRow] from the mapping of index [idx], with the
    [processedData] built so far. [rangeOrder idx] is the order in which
    the validation registry is visited for that mapping. *)
Fixpoint processRow_loop (rangeOrder : nat -> list string)
  (queries : repository.Querier) (record : list string) (headerMap : gmap string nat)
  (idx : nat) (mappings : list ColumnMapping) (processedData : gmap string value)
  : result (gmap string value) :=
  match mappings with
  | [] => Ok processedData
  | mapping :: rest =>
      let colIdx := default 0%nat (headerMap !! CSVHeader mapping) in
      let rawValue := rawValueAt record colIdx in
      match transformColumn mapping rawValue with
      | Err err => Err err
      | Ok transformedValue =>
          match applyValidation (rangeOrder idx) queries transformedValue
                  (Validation mapping) with
          | Some err =>
              Err (Errorf_w ("validation failed for column '" +:+ CSVHeader mapping +:+
                             "' with value '" +:+ fmt_v transformedValue +:+ "': ") err)
          | None =>
              processRow_loop rangeOrder queries record headerMap (S idx) rest
                (<[JSONField mapping := transformedValue]> processedData)
          end
      end
  end.

Definition processRow (config : IngestionConfig) (rangeOrder : nat -> list string)
  (queries : repository.Querier) (record : list string) (headerMap : gmap string nat)
  : result (gmap string value) :=
  processRow_loop rangeOrder queries record headerMap 0 (ColumnMappings config) ∅.

(** The two notions the description of the attempts uses: an attempt
    fails when its chain returns an error; binding a column to [v] is
    validating [v], storing it under the JSON field and going on with the
    next mapping. *)
Definition attemptFails (rawValue : string) (attempt : ProcessingAttempt) : Prop :=
  exists e, applyTransforms rawValue (Transforms attempt) = Err e.

(** What [processRow]'s loop does with a column once its value is [v]:
    validate it, then bind it and go on with the next mapping. *)
Definition bindColumn (rangeOrder : nat -> list string) (queries : repository.Querier)
  (record : list string) (headerMap : gmap string nat) (idx : nat)
  (mapping : ColumnMapping) (rest : list ColumnMapping)
  (processedData : gmap string value) (v : value) : result (gmap string value) :=
  match applyValidation (rangeOrder idx) queries v (Validation mapping) with
  | Some err =>
      Err (Errorf_w ("validation failed for column '" +:+ CSVHeader mapping +:+
                     "' with value '" +:+ fmt_v v +:+ "': ") err)
  | None =>
      processRow_loop rangeOrder queries record headerMap (S idx) rest
        (<[JSONField mapping := v]> processedData)
  end.

(** *** Process *)

Record TriageRow : Type := {
  OriginalRecord : gmap string string;
  FailureReason : string
}.

(** [BlankRowsDiscarded] is a Go [int]; it counts elements of a slice, so
    it stays below the length of that slice and never wraps. *)
Record ProcessingResult : Type := {
  SuccessfulItems : list repository.Item;
  TriageRows : list TriageRow;
  BlankRowsDiscarded : Z
}.

(** What the [csv.Reader] over the uploaded file yields: the outcome of
    the first [Read] (the header row) and of the [ReadAll] after it. *)
Record Reader : Type := {
  Read : result (list string);
  ReadAll : result (list (list string))
}.

Definition isRowBlank (record : list string) : bool :=
  forallb (fun field => String.eqb (Strings.TrimSpace field) "") record.

Fixpoint createOriginalRecordMap_loop (i : nat) (record headers : list string)
  (rowMap : gmap string string) : gmap string string :=
  match headers with
  | [] => rowMap
  | header :: rest =>
      createOriginalRecordMap_loop (S i) record rest
        (<[header := if (i <? length record)%nat then nth i record "" else ""]> rowMap)
  end.

Definition createOriginalRecordMap (record headers : list string) : gmap string string :=
  createOriginalRecordMap_loop 0 record headers ∅.

(** [headerMap[strings.TrimSpace(h)] = i] for every header *)
Fixpoint headerMap_loop (i : nat) (headers : list string) (headerMap : gmap string nat)
  : gmap string nat :=
  match headers with
  | [] => headerMap
  | h :: rest => headerMap_loop (S i) rest (<[Strings.TrimSpace h := i]> headerMap)
  end.

Definition buildHeaderMap (headers : list string) : gmap string nat :=
  headerMap_loop 0 headers ∅.

(** The fail-fast loop: the first mapping whose header the file lacks. *)
Fixpoint missingHeader (headerMap : gmap string nat) (mappings : list ColumnMapping)
  : option string :=
  match mappings with
  | [] => None
  | mapping :: rest =>
      match headerMap !! CSVHeader mapping with
      | None => Some (CSVHeader mapping)
      | Some _ => missingHeader headerMap rest
      end
  end.

(** [mergeColumnIndex]: [-1], or the index of the first mapping marked
    [merge_excess_fields] whose header is in the file. *)
Fixpoint findMergeColumnIndex (headerMap : gmap string nat)
  (mappings : list ColumnMapping) : Z :=
  match mappings with
  | [] => -1
  | mapping :: rest =>
      if MergeExcessFields mapping then
        match headerMap !! CSVHeader mapping with
        | Some idx => Z.of_nat idx
        | None => findMergeColumnIndex headerMap rest
        end
      else findMergeColumnIndex headerMap rest
  end.

Fixpoint findScopeJSONField (scopeField : string) (mappings : list ColumnMapping)
  : string :=
  match mappings with
  | [] => ""
  | mapping :: rest =>
      if String.eqb (CSVHeader mapping) scopeField then JSONField mapping
      else findScopeJSONField scopeField rest
  end.

(** The slice expression [l[lo:hi]] for [0 <= lo <= hi <= len(l)]. *)
Definition slice {A : Type} (l : list A) (lo hi : Z) : list A :=
  take (Z.to_nat (hi - lo)) (drop (Z.to_nat lo) l).

(** The repair of a row wider than the header (the body of the first
    [if] of the record loop). *)
Definition mergeExcessFields (record : list string) (numHeaders : nat)
  (mergeColumnIndex : Z) : list string :=
  let numExtraFields := Z.of_nat (length record) - Z.of_nat numHeaders in
  let endOfMergeIndex := mergeColumnIndex + numExtraFields in
  let fieldsToMerge := slice record mergeColumnIndex (endOfMergeIndex + 1) in
  let rejoinedValue := Strings.Join fieldsToMerge "," in
  let correctedRecord := slice record 0 mergeColumnIndex in
  let correctedRecord := (correctedRecord ++ [rejoinedValue])%list in
  let correctedRecord :=
    (correctedRecord ++
     slice record (endOfMergeIndex + 1) (Z.of_nat (length record)))%list in
  correctedRecord.

Definition repairRecord (record : list string) (numHeaders : nat)
  (mergeColumnIndex : Z) : list string :=
  if (numHeaders <? length record)%nat && negb (mergeColumnIndex =? -1)
  then mergeExcessFields record numHeaders mergeColumnIndex
  else record.

Definition appendTriage (result : ProcessingResult) (row : TriageRow)
  : ProcessingResult :=
  {| SuccessfulItems := SuccessfulItems result;
     TriageRows := (TriageRows result ++ [row])%list;
     BlankRowsDiscarded := BlankRowsDiscarded result |}.

Definition countBlank (result : ProcessingResult) : ProcessingResult :=
  {| SuccessfulItems := SuccessfulItems result;
     TriageRows := TriageRows result;
     BlankRowsDiscarded := BlankRowsDiscarded result + 1 |}.

Definition appendItem (result : ProcessingResult) (item : repository.Item)
  : ProcessingResult :=
  {| SuccessfulItems := (SuccessfulItems result ++ [item])%list;
     TriageRows := TriageRows result;
     BlankRowsDiscarded := BlankRowsDiscarded result |}.

(** The text handed to the embedder. *)
Definition textToEmbed (sourceColumns : list string)
  (processedData : gmap string value) : string :=
  Strings.TrimSpace
    (foldl (fun builder colName =>
              match processedData !! colName with
              | Some val => builder +:+ (fmt_v val +:+ " ")
              | None => builder
              end) "" sourceColumns).

(** The embedding block of the record loop: the vector (nil when no
    embedding is configured or the text is empty), or the embedder's
    error. *)
Definition embedRow (config : IngestionConfig) (embedder : option EmbedderFunc)
  (processedData : gmap string value) : result (list float32) :=
  match EmbedContent_ config, embedder with
  | Some embedContent, Some embed =>
      let text := textToEmbed (SourceColumns embedContent) processedData in
      if negb (String.eqb text "") then embed text else Ok []
  | _, _ => Ok []
  end.

(** The loop over [p.config.BusinessKey]: [inl field] when it leaves the
    record loop's iteration at [field], [inr parts] when it ends. *)
Fixpoint businessKeyLoop (fields : list string) (processedData : gmap string value)
  (businessKeyParts : list string) : string + list string :=
  match fields with
  | [] => inr businessKeyParts
  | field :: rest =>
      match processedData !! field with
      | None | Some VNil => inl field
      | Some val =>
          businessKeyLoop rest processedData (businessKeyParts ++ [fmt_v val])%list
      end
  end.

(** A key field is present when the processed row has a non-nil value
    for it. *)
Definition keyFieldPresent (processedData : gmap string value) (field : string)
  (val : value) : Prop :=
  processedData !! field = Some val /\ val <> VNil.

(** What the record loop does with a row that [processRow] accepted. *)
Definition finishRow (config : IngestionConfig) (headers : list string)
  (scopeJSONField : string) (embedder : option EmbedderFunc)
  (i : nat) (record : list string) (processedData : gmap string value)
  (result : ProcessingResult) : ProcessingResult :=
  let triage reason :=
    appendTriage result
      {| OriginalRecord := createOriginalRecordMap record headers;
         FailureReason := reason |} in
  match embedRow config embedder processedData with
  | Err err =>
      triage ("Row " +:+ Fmt.d (Z.of_nat i + 2) +:+ ": failed to generate embedding: " +:+
              Error err)
  | Ok embedding =>
      match json_Marshal processedData with
      | Err err =>
          triage ("Row " +:+ Fmt.d (Z.of_nat i + 2) +:+
                  ": failed to marshal processed data to JSON: " +:+ Error err)
      | Ok customPropsJSON =>
          match processedData !! scopeJSONField with
          | None | Some VNil =>
              triage ("scope field '" +:+ scopeJSONField +:+ "' is missing or nil")
          | Some (VString scopeString) =>
              match businessKeyLoop (BusinessKey config) processedData [] with
              | inl field =>
                  triage ("business key field '" +:+ field +:+ "' is missing or nil")
              | inr businessKeyParts =>
                  appendItem result
                    {| repository.ItemType := ItemType config;
                       repository.Scope :=
                         {| pgtype.String_ := scopeString; pgtype.Valid := true |};
                       repository.BusinessKey :=
                         {| pgtype.String_ := Strings.Join businessKeyParts "-";
                            pgtype.Valid := true |};
                       repository.Status := "active";
                       repository.CustomProperties := customPropsJSON;
                       repository.Embedding := embedding |}
              end
          | Some _ =>
              triage ("scope field '" +:+ scopeJSONField +:+ "' is not a string")
          end
      end
  end.

(** One iteration of [RecordLoop], on the record of index [i]. *)
Definition recordStep (config : IngestionConfig) (rangeOrder : nat -> nat -> list string)
  (queries : repository.Querier) (embedder : option EmbedderFunc)
  (headers : list string) (headerMap : gmap string nat) (mergeColumnIndex : Z)
  (scopeJSONField : string)
  (result : ProcessingResult) (i : nat) (record : list string) : ProcessingResult :=
  let numHeaders := length headers in
  let record := repairRecord record numHeaders mergeColumnIndex in
  if negb (length record =? numHeaders)%nat then
    appendTriage result
      {| OriginalRecord := createOriginalRecordMap record headers;
         FailureReason :=
           "Row as " +:+ Fmt.d (Z.of_nat (length record)) +:+ " fields, but header has " +:+
           Fmt.d (Z.of_nat numHeaders) +:+ ". Triage required." |}
  else if isRowBlank record then countBlank result
  else
    match processRow config (rangeOrder i) queries record headerMap with
    | Err err =>
        appendTriage result
          {| OriginalRecord := createOriginalRecordMap record headers;
             FailureReason := Error err |}
    | Ok processedData =>
        finishRow config headers scopeJSONField embedder i record processedData result
    end.

Fixpoint recordLoop (step : ProcessingResult -> nat -> list string -> ProcessingResult)
  (i : nat) (allRecords : list (list string)) (result : ProcessingResult)
  : ProcessingResult :=
  match allRecords with
  | [] => result
  | record :: rest => recordLoop step (S i) rest (step result i record)
  end.

(** [GenericProcessor.Process]. [rangeOrder i k] is the order in which the
    validation registry is visited for record [i] and mapping [k]. *)
Definition Process (config : IngestionConfig) (rangeOrder : nat -> nat -> list string)
  (file : Reader) (queries : repository.Querier) (embedder : option EmbedderFunc)
  : result ProcessingResult :=
  let result :=
    {| SuccessfulItems := []; TriageRows := []; BlankRowsDiscarded := 0 |} in
  match Read file with
  | Err err => Err (Errorf_w "error reading header row: " err)
  | Ok headers =>
      let headerMap := buildHeaderMap headers in
      match missingHeader headerMap (ColumnMappings config) with
      | Some h =>
          Err (errorString
                 ("configuration error: CSV file is missing required header '" +:+ h +:+
                  "'"))
      | None =>
          let mergeColumnIndex := findMergeColumnIndex headerMap (ColumnMappings config) in
          match ReadAll file with
          | Err err => Err (Errorf_w "failed to read all CSV records: " err)
          | Ok allRecords =>
              let scopeJSONField :=
                findScopeJSONField (ScopeField config) (ColumnMappings config) in
              if String.eqb scopeJSONField "" then
                Err (errorString
                       ("config validation error: could not find a column mapping " +:+
                        "for the specified scope_field '" +:+ ScopeField config +:+ "'"))
              else
                Ok (recordLoop
                      (recordStep config rangeOrder queries embedder headers headerMap
                         mergeColumnIndex scopeJSONField)
                      0 allRecords result)
          end
      end
  end.

End engine.

(** *** The staging loader ([Service.saveSuccessfulItems]) *)

(** What the database does during one call, beyond the statements
    themselves: the instant of the transaction, a failure of a step for
    reasons outside the data (a lost connection, a cancelled context),
    PostgreSQL's reading of a JSON text as [jsonb], and its check of the
    copied rows against the column types (enum label, [VARCHAR] length,
    vector dimension). *)
Record StagingSession : Type := {
  staging_now : Z;
  beginErr : option error;
  createTempErr : option error;
  jsonb_in : string -> option repository.jsonb;
  copyErr : list repository.StagedRow -> option error;
  upsertErr : option error;
  commitErr : option error
}.

Definition maxEmbeddingDims : Z := 384.

(** [embeddingValue] of the [CopyFromSlice] callback *)
Definition embeddingValue (embeddingSlice : list float32) : option (list float32) :=
  if Z.of_nat (length embeddingSlice) >? 0 then
    if Z.of_nat (length embeddingSlice) >? maxEmbeddingDims then None
    else Some embeddingSlice
  else None.

Definition textValue (t : pgtype.Text) : option string :=
  if pgtype.Valid t then Some (pgtype.String_ t) else None.

(** The row the callback hands to [CopyFrom] for [items[i]], as the
    staging table receives it. *)
Definition copyRow (session : StagingSession) (item : repository.Item)
  : result repository.StagedRow :=
  match jsonb_in session (repository.CustomProperties item) with
  | None => Err (errorString "invalid input syntax for type json")
  | Some props =>
      Ok {| repository.staged_item_type := repository.ItemType item;
            repository.staged_scope := textValue (repository.Scope item);
            repository.staged_business_key := textValue (repository.BusinessKey item);
            repository.staged_status := repository.Status item;
            repository.staged_custom_properties := props;
            repository.staged_embedding := embeddingValue (repository.Embedding item) |}
  end.

Fixpoint copyRows (session : StagingSession) (items : list repository.Item)
  : result (list repository.StagedRow) :=
  match items with
  | [] => Ok []
  | item :: rest =>
      match copyRow session item with
      | Err err => Err err
      | Ok r =>
          match copyRows session rest with
          | Err err => Err err
          | Ok rs => Ok (r :: rs)
          end
      end
  end.

(** [saveSuccessfulItems]: the count and error it returns, and the table
    it leaves. Every return before the commit leaves the table as it was:
    the deferred [Rollback] undoes the transaction. *)
Definition saveSuccessfulItems (session : StagingSession) (items : list repository.Item)
  (table : repository.ItemsTable) : result Z * repository.ItemsTable :=
  match beginErr session with
  | Some err => (Err (Errorf_w "failed to begin transaction: " err), table)
  | None =>
      match createTempErr session with
      | Some err => (Err (Errorf_w "failed to create temp staging table: " err), table)
      | None =>
          let copied :=
            match copyRows session items with
            | Err err => Err err
            | Ok staging =>
                match copyErr session staging with
                | Some err => Err err
                | None => Ok staging
                end
            end in
          match copied with
          | Err err => (Err (Errorf_w "failed to copy data to staging table: " err), table)
          | Ok staging =>
              let upserted :=
                match upsertErr session with
                | Some err => Err err
                | None => repository.UpsertItems (staging_now session) staging table
                end in
              match upserted with
              | Err err =>
                  (Err (Errorf_w "failed to upsert items from staging table: " err), table)
              | Ok (rowsAffected, table') =>
                  match commitErr session with
                  | Some err => (Err (Errorf_w "failed to commit transaction: " err), table)
                  | None => (Ok rowsAffected, table')
                  end
              end
          end
      end
  end.

(** *** The configuration loader *)

(** [filepath.Ext]: the suffix from the last dot of the last element of the
    path, empty when that element has no dot. *)
Fixpoint Ext (path : string) : string :=
  match path with
  | EmptyString => EmptyString
  | String c rest =>
      if Strings.contains "/" rest then Ext rest
      else if negb (String.eqb (Ext rest) "") then Ext rest
      else if Ascii.eqb c "." then path
      else EmptyString
  end.

(** A call of the function [NewConfigLoader] hands to [filepath.WalkDir]:
    the path, the entry's name and kind, the error the walk reports for it,
    and what [os.ReadFile] gives for the path. *)
Record DirEntry : Type := {
  entryPath : string;
  entryName : string;
  IsDir : bool;
  walkErr : option error;
  ReadFile : result string
}.

Definition isConfigFile (d : DirEntry) : bool :=
  negb (IsDir d ||
        (negb (String.eqb (Ext (entryName d)) ".yaml") &&
         negb (String.eqb (Ext (entryName d)) ".yml"))).

(** The walk function on one entry: the configurations after it, or the
    error that ends the walk. [yaml_Unmarshal] is [yaml.Unmarshal] into an
    [IngestionConfig]. *)
Definition loadEntry (yaml_Unmarshal : string -> result IngestionConfig)
  (configs : gmap string IngestionConfig) (d : DirEntry)
  : result (gmap string IngestionConfig) :=
  match walkErr d with
  | Some err => Err err
  | None =>
      if negb (isConfigFile d) then Ok configs
      else
        match ReadFile d with
        | Err err =>
            Err (Errorf_w ("failed to read config file " +:+ entryPath d +:+ ": ") err)
        | Ok data =>
            match yaml_Unmarshal data with
            | Err err =>
                Err (Errorf_w ("failed to parse YAML for " +:+ entryPath d +:+ ": ") err)
            | Ok config =>
                match Validate config with
                | Some err =>
                    Err (Errorf_w ("validation failed for " +:+ entryPath d +:+ ": ") err)
                | None =>
                    match configs !! ReportType config with
                    | Some _ =>
                        Err (errorString
                               ("duplicate reportType '" +:+ ReportType config +:+
                                "' found in " +:+ entryPath d))
                    | None => Ok (<[ReportType config := config]> configs)
                    end
                end
            end
        end
  end.

Fixpoint walkEntries (yaml_Unmarshal : string -> result IngestionConfig)
  (walk : list DirEntry) (configs : gmap string IngestionConfig)
  : result (gmap string IngestionConfig) :=
  match walk with
  | [] => Ok configs
  | d :: rest =>
      match loadEntry yaml_Unmarshal configs d with
      | Err err => Err err
      | Ok configs' => walkEntries yaml_Unmarshal rest configs'
      end
  end.

(** [NewConfigLoader], on the entries [filepath.WalkDir] visits, in the
    order of the walk; the loader is its map [configs]. *)
Definition NewConfigLoader (yaml_Unmarshal : string -> result IngestionConfig)
  (configPath : string) (walk : list DirEntry) : result (gmap string IngestionConfig) :=
  match walkEntries yaml_Unmarshal walk ∅ with
  | Err err =>
      Err (Errorf_w ("error walking config directory " +:+ configPath +:+ ": ") err)
  | Ok configs => Ok configs
  end.

(** [ConfigLoader.GetConfig] *)
Definition GetConfig (configs : gmap string IngestionConfig) (reportType : string)
  : option IngestionConfig :=
  configs !! reportType.

(** *** The job runner ([Service.RunJob]) *)

(** The two stores a job works on. *)
Record Database : Type := {
  items : repository.ItemsTable;
  tables : repository.Tables
}.

(** What happens around one run of a job: the outcome and instant of the
    status updates, the reader over the stored file, the order of the visits
    of the validation registry, and for the triage row of index [k] the
    instant of its insert, the id [uuid.New] draws, and a failure of the
    insert for a reason the tables do not show (a lost connection, a text
    that the [JSONB] column refuses); [marshalRecord] is [json.Marshal] on a
    row's original record. *)
Record JobRun : Type := {
  processingErr : option error;
  processingAt : Z;
  openReader : result Reader;
  visitOrder : nat -> nat -> list string;
  marshalRecord : gmap string string -> result string;
  newErrorID : nat -> repository.UUID;
  insertErr : nat -> option error;
  insertAt : nat -> Z;
  stagingSession : StagingSession;
  finalErr : option error;
  finalAt : Z
}.

(** The loop of [logTriageItems] from the triage row of index [k]: a row
    that cannot be marshalled or inserted is logged and skipped. *)
Fixpoint logTriageItems_loop (run : JobRun) (jobID : repository.UUID) (k : nat)
  (triageRows : list TriageRow) (db : repository.Tables) : repository.Tables :=
  match triageRows with
  | [] => db
  | row :: rest =>
      match marshalRecord run (OriginalRecord row) with
      | Err err => logTriageItems_loop run jobID (S k) rest db
      | Ok rowDataJSON =>
          let params :=
            {| repository.CreateIngestionError_ID := newErrorID run k;
               repository.CreateIngestionError_JobID := jobID;
               repository.OriginalRowData := rowDataJSON;
               repository.ReasonForFailure := FailureReason row |} in
          let created :=
            match insertErr run k with
            | Some err => Err err
            | None => repository.CreateIngestionError (insertAt run k) params db
            end in
          match created with
          | Err err => logTriageItems_loop run jobID (S k) rest db
          | Ok (_, db') => logTriageItems_loop run jobID (S k) rest db'
          end
      end
  end.

Definition logTriageItems (run : JobRun) (jobID : repository.UUID)
  (triageRows : list TriageRow) (db : repository.Tables) : repository.Tables :=
  logTriageItems_loop run jobID 0 triageRows db.

(** The last status update of a run; its error is dropped. *)
Definition finalStatus (run : JobRun) (jobID : repository.UUID) (status errorDetails : string)
  (rowsUpserted rowsTriaged : Z) (db : repository.Tables) : repository.Tables :=
  snd (ingestion.UpdateJobStatus (finalAt run) (finalErr run) jobID status errorDetails
         rowsUpserted rowsTriaged db).

Section service.
Context `{EF : ExtFuns}.

(** The end of a run whose rows were classified and, when there were
    successful items, saved. *)
Definition completeJob (run : JobRun) (jobID : repository.UUID) (result : ProcessingResult)
  (rowsUpserted : Z) (db : repository.Tables) : repository.Tables :=
  let rowsTriaged := Z.of_nat (length (TriageRows result)) in
  let finalMessage :=
    "Processed " +:+ Fmt.d rowsUpserted +:+ " items successfully. " +:+
    Fmt.d rowsTriaged +:+ " rows sent for triage. " +:+
    Fmt.d (BlankRowsDiscarded result) +:+ " blank rows discarded." in
  finalStatus run jobID
    (if rowsTriaged >? 0 then "COMPLETE_WITH_ISSUES" else "COMPLETE")
    finalMessage rowsUpserted rowsTriaged db.

(** [Service.RunJob]: the stores after the run. [configs] is the loader's
    map; the querier handed to [Process] reads the table [items]. *)
Definition RunJob (configs : gmap string IngestionConfig) (run : JobRun)
  (jobID : repository.UUID) (reportType : string) (embedder : option EmbedderFunc)
  (db : Database) : Database :=
  match ingestion.UpdateJobStatus (processingAt run) (processingErr run) jobID
          "PROCESSING" "" 0 0 (tables db) with
  | (Some err, _) => db
  | (None, started) =>
      match openReader run with
      | Err err =>
          {| items := items db;
             tables :=
               finalStatus run jobID "FAILED"
                 ("Failed to read file from storage: " +:+ Error err) 0 0 started |}
      | Ok reader =>
          match GetConfig configs reportType with
          | None =>
              {| items := items db;
                 tables :=
                   finalStatus run jobID "FAILED"
                     ("No processor configuration found for report type: " +:+ reportType)
                     0 0 started |}
          | Some ingestionConfig =>
              match Process ingestionConfig (visitOrder run) reader
                      (repository.itemsQuerier (items db)) embedder with
              | Err err =>
                  {| items := items db;
                     tables := finalStatus run jobID "FAILED" (Error err) 0 0 started |}
              | Ok result =>
                  let logged :=
                    if (0 <? length (TriageRows result))%nat
                    then logTriageItems run jobID (TriageRows result) started
                    else started in
                  if (0 <? length (SuccessfulItems result))%nat then
                    match saveSuccessfulItems (stagingSession run) (SuccessfulItems result)
                            (items db) with
                    | (Err err, _) =>
                        {| items := items db;
                           tables :=
                             finalStatus run jobID "FAILED"
                               "Error saving processed data to database" 0
                               (Z.of_nat (length (TriageRows result))) logged |}
                    | (Ok upsertedCount, items') =>
                        {| items := items';
                           tables := completeJob run jobID result upsertedCount logged |}
                    end
                  else
                    {| items := items db;
                       tables := completeJob run jobID result 0 logged |}
              end
          end
      end
  end.

End service.

End processing.

(** ** package api: the triage handler *)

Module api.

(** What the handler sees of the request: the [errorId] path parameter and
    what [c.Bind] makes of the body, a map from the top-level keys to their
    raw JSON. *)
Record Request : Type := {
  errorId : string;
  requestBody : result (gmap string string)
}.

(** What the handler returns: [c.JSON(http.StatusOK, updatedError)] or an
    [echo.HTTPError]. *)
Inductive Response : Type :=
| JSON (code : Z) (updatedError : repository.IngestionError)
| HTTPError (code : Z) (message : string).

(** The instant of the transaction and the failures of its steps for
    reasons outside the data. *)
Record Session : Type := {
  now : Z;
  beginTxErr : option error;
  updateErr : option error;
  incrementErr : option error;
  commitErr : option error
}.

Definition StatusOK : Z := 200.
Definition StatusBadRequest : Z := 400.
Definition StatusInternalServerError : Z := 500.

Definition placeholderUserID : Z := 1.

(** [TriageHandler.updateIngestionError]: the response, and the tables
    after the call. [uuid_Parse] is [uuid.Parse]. The deferred [Rollback]
    restores the tables on every return before the commit. *)
Definition updateIngestionError (uuid_Parse : string -> option repository.UUID)
  (session : Session) (c : Request) (db : repository.Tables)
  : Response * repository.Tables :=
  match uuid_Parse (errorId c) with
  | None => (HTTPError StatusBadRequest "invalid error ID format", db)
  | Some errorID =>
      match requestBody c with
      | Err err => (HTTPError StatusBadRequest "invalid request body", db)
      | Ok requestBody =>
          match requestBody !! "corrected_data" with
          | None =>
              (HTTPError StatusBadRequest "missing corrected_data in request body", db)
          | Some correctedData =>
              match beginTxErr session with
              | Some err =>
                  (HTTPError StatusInternalServerError "could not start transaction", db)
              | None =>
                  let updateParams :=
                    {| repository.ID := errorID;
                       repository.CorrectedData := correctedData;
                       repository.ResolvedBy := placeholderUserID |} in
                  let updated :=
                    match updateErr session with
                    | Some err => Err err
                    | None =>
                        repository.UpdateIngestionErrorWithCorrection (now session)
                          updateParams db
                    end in
                  match updated with
                  | Err err =>
                      (HTTPError StatusInternalServerError
                         "failed to update ingestion error", db)
                  | Ok (updatedError, tx1) =>
                      let incremented :=
                        match incrementErr session with
                        | Some err => Err err
                        | None =>
                            repository.IncrementIngestionJobResolvedRows errorID tx1
                        end in
                      match incremented with
                      | Err err =>
                          (HTTPError StatusInternalServerError
                             "failed to update job counters", db)
                      | Ok tx2 =>
                          match commitErr session with
                          | Some err =>
                              (HTTPError StatusInternalServerError
                                 "could not commit transaction", db)
                          | None => (JSON StatusOK updatedError, tx2)
                          end
                      end
                  end
              end
          end
      end
  end.

(** The foreign key of [ingestion_errors.job_id] (declared [NOT NULL]):
    every error row refers to a job. *)
Definition foreignKeysHold (db : repository.Tables) : Prop :=
  forall id row,
    repository.ingestion_errors db !! id = Some row ->
    is_Some (repository.ingestion_jobs db !! repository.job_id row).

(** [resolved_rows_count] has the default 0 and [CreateIngestionJob] does
    not set it; the only statement that writes it adds one. So the counter
    of a job is a number, not [NULL]. *)
Definition countersSet (db : repository.Tables) : Prop :=
  forall id job,
    repository.ingestion_jobs db !! id = Some job ->
    is_Some (repository.resolved_rows_count job).

(** The parameters [listIngestionJobs] hands to [ListIngestionJobs], from
    the texts of the query parameters [limit] and [offset]; [strconv.Atoi] is
    [ParseInt] in base 10 at the width of [int]. *)
Definition listParams (limitStr offsetStr : string) : Z * Z :=
  let limit :=
    match Strconv.ParseInt_value limitStr with
    | inl n => if n <=? 0 then 20 else n
    | inr _ => 20
    end in
  let offset :=
    match Strconv.ParseInt_value offsetStr with
    | inl n => if n <? 0 then 0 else n
    | inr _ => 0
    end in
  (ingestion.int32 limit, ingestion.int32 offset).

(** What [getIngestionErrors] returns. *)
Inductive ListResponse : Type :=
| Rows (code : Z) (rows : list (repository.UUID * repository.IngestionError))
| ListError (code : Z) (message : string).

(** [TriageHandler.getIngestionErrors]; [queryErr] is a failure of the
    query for a reason outside the data. *)
Definition getIngestionErrors (uuid_Parse : string -> option repository.UUID)
  (queryErr : option error) (jobIdParam : string) (db : repository.Tables) : ListResponse :=
  match uuid_Parse jobIdParam with
  | None => ListError StatusBadRequest "invalid job ID format"
  | Some jobID =>
      match queryErr with
      | Some err => ListError StatusInternalServerError "failed to get errored rows"
      | None => Rows StatusOK (repository.GetIngestionErrorsByJobID jobID db)
      end
  end.

End api.

(** ** A small implementation of the library interface

    Used to run the pipeline on concrete rows: decimals and times are read as
    integers, [ToUpper] is the ASCII one, a pattern matches the strings
    equal to it. *)

Module Fixture.

Definition types : ExtTypes := {| Decimal := Z; Time := Z |}.

Definition upper (c : ascii) : ascii :=
  let n := nat_of_ascii c in
  if ((97 <=? n) && (n <=? 122))%nat then ascii_of_nat (n - 32) else c.

Fixpoint ToUpper (s : string) : string :=
  match s with
  | EmptyString => EmptyString
  | String c s' => String (upper c) (ToUpper s')
  end.

Definition quote : string := String (ascii_of_nat 34) EmptyString.

Definition Quote (s : string) : string := quote +:+ s +:+ quote.

Definition parseZ (s : string) : result Z :=
  match Strconv.ParseInt_value s with
  | inl n => Ok n
  | inr e => Err (errorString (Strconv.numError_text e))
  end.

Definition show (v : @value types) : string :=
  match v with
  | VNil => "null"
  | VString s => Quote s
  | VInt i | VInt32 i | VInt64 i => pretty i
  | VDecimal d => pretty d
  | VTime t => pretty t
  end.

Definition Marshal (m : gmap string (@value types)) : result string :=
  Ok ("{" +:+
      Strings.Join (map (fun kv => Quote (fst kv) +:+ ":" +:+ show (snd kv)) (map_to_list m))
        "," +:+ "}").

Definition funs : @ExtFuns types :=
  @Build_ExtFuns types
    ToUpper
    Quote
    parseZ
    (fun d : Z => d =? 0)
    (fun d : Z => pretty d)
    (fun layout s => parseZ s)
    (fun t : Z => t =? 0)
    (fun t : Z => pretty t)
    (fun pattern => Some (String.eqb pattern))
    Marshal.

(** A store in which every looked-up key exists. *)
Definition queries : repository.Querier :=
  {| repository.ItemExistsByBusinessKey := fun _ => Ok 1 |}.

(** The registry visited in alphabetical order. *)
Definition order : list string := ["enum"; "exists_in_items"; "regex"; "required"].

Definition rule (required : bool) (allowZero : option bool) : processing.ValidationRule :=
  {| processing.Required := required;
     processing.AllowZero := allowZero;
     processing.Enum := [];
     processing.Regex := "";
     processing.ExistsInItems := "" |}.

Definition mapping (header : string) (merge : bool) (attempts : list (list string))
  (r : processing.ValidationRule) : processing.ColumnMapping :=
  {| processing.CSVHeader := header;
     processing.JSONField := header;
     processing.MergeExcessFields := merge;
     processing.Attempts := map processing.Build_ProcessingAttempt attempts;
     processing.Validation := r |}.

Definition config (businessKey : list string) (mappings : list processing.ColumnMapping)
  : processing.IngestionConfig :=
  {| processing.ReportType := "ROSTER";
     processing.ItemType := "EMPLOYEE";
     processing.ScopeField := "dept";
     processing.BusinessKey := businessKey;
     processing.EmbedContent_ := None;
     processing.ColumnMappings := mappings |}.

Definition file (header : list string) (rows : list (list string)) : processing.Reader :=
  {| processing.Read := Ok header; processing.ReadAll := Ok rows |}.

(** Rows and configurations the properties below are run on. *)

Definition idDept (attempts : list (list string)) : processing.IngestionConfig :=
  config ["id"]
    [ mapping "id" false attempts (rule true None);
      mapping "dept" false [] (rule true None) ].

Definition rangeOrder : nat -> nat -> list string := fun _ _ => order.

Definition fourRows : processing.Reader :=
  file ["id"; "dept"] [ [" 7 "; "claims"]; [""; " "]; ["x"]; [""; "z"] ].

Definition oneRow : processing.Reader := file ["id"; "dept"] [ [" 7 "; "claims"] ].

Definition noteConfig : processing.IngestionConfig :=
  config ["id"]
    [ mapping "id" false [] (rule true None);
      mapping "note" true [] (rule false None);
      mapping "dept" false [] (rule true None) ].

Definition threeKeys : processing.IngestionConfig :=
  config ["id"; "region"; "year"]
    [ mapping "id" false [] (rule true None);
      mapping "dept" false [] (rule true None) ].

Definition stagedRow (props : gmap string repository.jsonb) (scope : string)
  : repository.StagedRow :=
  {| repository.staged_item_type := "EMPLOYEE";
     repository.staged_scope := Some scope;
     repository.staged_business_key := Some "7";
     repository.staged_status := "active";
     repository.staged_custom_properties := repository.JObject props;
     repository.staged_embedding := None |}.

Definition props1 : gmap string repository.jsonb :=
  <["name" := repository.JString "Ann"]> (<["dept" := repository.JString "claims"]> ∅).

Definition props2 : gmap string repository.jsonb :=
  <["dept" := repository.JString "audit"]> (<["grade" := repository.JNumber "3"]> ∅).

Definition noItems : repository.ItemsTable :=
  {| repository.keyed := ∅; repository.unkeyed := [] |}.

Definition itemsAfter (now : Z) (staging : list repository.StagedRow)
  (items : repository.ItemsTable) : repository.ItemsTable :=
  match repository.UpsertItems now staging items with
  | Ok (_, items') => items'
  | Err _ => items
  end.

Definition triageJob : repository.IngestionJob :=
  {| repository.job_status := "COMPLETE_WITH_ISSUES";
     repository.completed_at := Some 5;
     repository.error_details := None;
     repository.total_rows := None;
     repository.processed_rows := Some 1;
     repository.initial_error_count := Some 2;
     repository.resolved_rows_count := Some 0 |}.

Definition triageError : repository.IngestionError :=
  {| repository.job_id := 10%N;
     repository.timestamp := 4;
     repository.original_row_data := "{}";
     repository.reason_for_failure := "scope field 'dept' is missing or nil";
     repository.error_status := "new";
     repository.corrected_data := None;
     repository.resolved_at := None;
     repository.resolved_by := None |}.

Definition triageTables : repository.Tables :=
  {| repository.users := {[ 1 ]};
     repository.ingestion_jobs := {[ 10%N := triageJob ]};
     repository.ingestion_errors := {[ 20%N := triageError ]} |}.

Definition parseId (s : string) : option repository.UUID :=
  if String.eqb s "error-20" then Some 20%N else None.

Definition correction : api.Request :=
  {| api.errorId := "error-20";
     api.requestBody := Ok {[ "corrected_data" := "{}" ]} |}.

Definition quietSession : api.Session :=
  {| api.now := 9;
     api.beginTxErr := None;
     api.updateErr := None;
     api.incrementErr := None;
     api.commitErr := None |}.

(** A staging session in which nothing fails and every JSON text is read
    as the empty object. *)
Definition quietStaging : processing.StagingSession :=
  {| processing.staging_now := 3;
     processing.beginErr := None;
     processing.createTempErr := None;
     processing.jsonb_in := fun _ => Some (repository.JObject ∅);
     processing.copyErr := fun _ => None;
     processing.upsertErr := None;
     processing.commitErr := None |}.

Definition item (key : string) : repository.Item :=
  {| repository.ItemType := "EMPLOYEE";
     repository.Scope := {| pgtype.String_ := "claims"; pgtype.Valid := true |};
     repository.BusinessKey := {| pgtype.String_ := key; pgtype.Valid := true |};
     repository.Status := "active";
     repository.CustomProperties := "{}";
     repository.Embedding := [] |}.

(** The value of a call that returned one. *)
Definition get {T : Type} (otherwise : T) (x : result T) : T :=
  match x with
  | Ok v => v
  | Err _ => otherwise
  end.

(** A configuration directory with one YAML file, and a parser that knows
    its content. *)
Definition parseYaml (data : string) : result processing.IngestionConfig :=
  if String.eqb data "roster" then Ok (idDept [])
  else Err (errorString "yaml: unmarshal errors").

Definition rosterFile : processing.DirEntry :=
  {| processing.entryPath := "configs/roster.yaml";
     processing.entryName := "roster.yaml";
     processing.IsDir := false;
     processing.walkErr := None;
     processing.ReadFile := Ok "roster" |}.

Definition configDir : list processing.DirEntry :=
  [ {| processing.entryPath := "configs";
       processing.entryName := "configs";
       processing.IsDir := true;
       processing.walkErr := None;
       processing.ReadFile := Err (errorString "read configs: is a directory") |};
    rosterFile;
    {| processing.entryPath := "configs/README.md";
       processing.entryName := "README.md";
       processing.IsDir := false;
       processing.walkErr := None;
       processing.ReadFile := Ok "notes" |} ].

Definition loadedConfigs : gmap string processing.IngestionConfig :=
  get ∅ (processing.NewConfigLoader parseYaml "configs" configDir).

(** A run in which nothing fails; the ids of the error rows are 30, 31, ... *)
Definition quietRun (reader : processing.Reader) : processing.JobRun :=
  {| processing.processingErr := None;
     processing.processingAt := 6;
     processing.openReader := Ok reader;
     processing.visitOrder := rangeOrder;
     processing.marshalRecord := fun _ => Ok "{}";
     processing.newErrorID := fun k => N.of_nat (30 + k);
     processing.insertErr := fun _ => None;
     processing.insertAt := fun _ => 7;
     processing.stagingSession := quietStaging;
     processing.finalErr := None;
     processing.finalAt := 8 |}.

Definition processed : processing.ProcessingResult :=
  get {| processing.SuccessfulItems := []; processing.TriageRows := [];
         processing.BlankRowsDiscarded := 0 |}
    (processing.Process (EF := funs) (idDept []) rangeOrder fourRows
       (repository.itemsQuerier noItems) None).

Definition triageRow : processing.TriageRow :=
  {| processing.OriginalRecord := ∅;
     processing.FailureReason := "scope field 'dept' is missing or nil" |}.

Definition database : processing.Database :=
  {| processing.items := noItems; processing.tables := triageTables |}.

Definition quietUpload : ingestion.Upload :=
  {| ingestion.copyErr := None;
     ingestion.closeErr := None;
     ingestion.newJobID := 11%N;
     ingestion.createErr := None |}.

Definition parseUUID (s : string) : option repository.UUID :=
  if String.eqb s "error-20" then Some 20%N
  else if String.eqb s "job-10" then Some 10%N
  else None.

Definition afterCorrection (db : repository.Tables) : repository.Tables :=
  snd (api.updateIngestionError parseUUID quietSession correction db).

Definition correctedRow (db : repository.Tables) : repository.IngestionError :=
  match fst (api.updateIngestionError parseUUID quietSession correction db) with
  | api.JSON _ updatedError => updatedError
  | api.HTTPError _ _ => triageError
  end.

(** A staged row for the same key that carries the status [inactive], and
    a table in which the key is stored with the custom properties [props]. *)
Definition inactiveRow : repository.StagedRow :=
  {| repository.staged_item_type := "EMPLOYEE";
     repository.staged_scope := Some "audit";
     repository.staged_business_key := Some "7";
     repository.staged_status := "inactive";
     repository.staged_custom_properties := repository.JObject props2;
     repository.staged_embedding := None |}.

Definition storedItems (props : repository.jsonb) : repository.ItemsTable :=
  {| repository.keyed :=
       {[ ("EMPLOYEE", "7") :=
            {| repository.scope := Some "claims";
               repository.status := "active";
               repository.custom_properties := props;
               repository.embedding := None;
               repository.created_at := 0;
               repository.updated_at := 0 |} ]};
     repository.unkeyed := [] |}.

Definition oldProps : gmap string repository.jsonb :=
  <["badge" := repository.JNumber "12"]> ∅.

End Fixture.

(** * Properties *)

Module processing_facts.
Import processing.

Lemma definedHeaders_foldl (ms : list ColumnMapping) (m0 : gmap string bool) (h : string) :
  is_Some (foldl (fun m mapping => <[CSVHeader mapping := true]> m) m0 ms !! h) <->
    is_Some (m0 !! h) \/ exists mapping, mapping ∈ ms /\ CSVHeader mapping = h.
Proof.
  revert m0. induction ms as [|x ms IH]; intros m0; simpl.
  - split; [by left |].
    intros [? | (mp & Hin & _)]; [done | by apply elem_of_nil in Hin].
  - rewrite IH. split.
    + intros [Hs | (mp & Hin & Heq)].
      * destruct (decide (CSVHeader x = h)) as [Heq|Hne].
        -- right. exists x. split; [by left | done].
        -- left. by rewrite lookup_insert_ne in Hs.
      * right. exists mp. split; [by right | done].
    + intros [Hs | (mp & Hin & Heq)].
      * left. destruct (decide (CSVHeader x = h)) as [->|Hne].
        -- rewrite lookup_insert_eq. by eexists.
        -- by rewrite lookup_insert_ne.
      * apply elem_of_cons in Hin as [->|Hin].
        -- left. rewrite Heq, lookup_insert_eq. by eexists.
        -- right. eauto.
Qed.

Lemma definedHeaders_lookup (ms : list ColumnMapping) (h : string) :
  is_Some (definedHeaders ms !! h) <-> exists mapping, mapping ∈ ms /\ CSVHeader mapping = h.
Proof.
  unfold definedHeaders. rewrite definedHeaders_foldl, lookup_empty.
  split; [intros [[? ?]|?]; done | by right].
Qed.

(** C3. [Validate] returns an error exactly when report_type, item_type or
    scope_field is empty, the business_key list is empty, the
    column_mappings list is empty, or no column mapping has scope_field as
    its csv_header; otherwise it returns nil. *)
Theorem Validate_rejects_iff (c : IngestionConfig) :
  (Validate c <> None <->
     (ReportType c = "" \/ ItemType c = "" \/ ScopeField c = "" \/
      BusinessKey c = [] \/ ColumnMappings c = [] \/
      ~ exists mapping, mapping ∈ ColumnMappings c /\ CSVHeader mapping = ScopeField c))
  /\
  (~ (ReportType c = "" \/ ItemType c = "" \/ ScopeField c = "" \/
      BusinessKey c = [] \/ ColumnMappings c = [] \/
      ~ exists mapping, mapping ∈ ColumnMappings c /\ CSVHeader mapping = ScopeField c)
   -> Validate c = None).
Proof.
  set (P := ReportType c = "" \/ ItemType c = "" \/ ScopeField c = "" \/
      BusinessKey c = [] \/ ColumnMappings c = [] \/
      ~ exists mapping, mapping ∈ ColumnMappings c /\ CSVHeader mapping = ScopeField c).
  assert (Hcases : (Validate c = None /\ ~ P) \/ (Validate c <> None /\ P)).
  { unfold Validate, P.
    destruct (String.eqb_spec (ReportType c) "") as [E1|E1]; [right; split; [done | tauto] |].
    destruct (String.eqb_spec (ItemType c) "") as [E2|E2]; [right; split; [done | tauto] |].
    destruct (String.eqb_spec (ScopeField c) "") as [E3|E3]; [right; split; [done | tauto] |].
    destruct (BusinessKey c) as [|k ks] eqn:E4; [right; split; [done | tauto] |].
    destruct (ColumnMappings c) as [|m ms] eqn:E5; [right; split; [done | tauto] |].
    simpl length.
    replace (Z.of_nat (S (length ks)) =? 0) with false by (symmetry; apply Z.eqb_neq; lia).
    replace (Z.of_nat (S (length ms)) =? 0) with false by (symmetry; apply Z.eqb_neq; lia).
    pose proof (definedHeaders_lookup (m :: ms) (ScopeField c)) as Hl.
    destruct (definedHeaders (m :: ms) !! ScopeField c) as [b|] eqn:El.
    - left. split; [done |].
      intros [?|[?|[?|[?|[?|Hn]]]]]; try done.
      apply Hn, Hl. eauto.
    - right. split; [done |].
      do 5 right.
      intros Hex. apply Hl in Hex. by destruct Hex. }
  destruct Hcases as [[HV HP]|[HV HP]]; (split; [split |]); done.
Qed.

Section engine_facts.
Context `{EF : ExtFuns}.

(** *** [validationRequired] *)

Lemma validationRequired_int (queries : repository.Querier) (rule : ValidationRule)
  (val : Z) (v : value) :
  Required rule = true ->
  v = VInt val \/ v = VInt32 val \/ v = VInt64 val ->
  validationRequired queries v rule =
    if decide (val = 0 /\ AllowZero rule = Some false)
    then Some (errorString "is a required field and zero is not an allowed value")
    else None.
Proof.
  intros Hreq Hv. unfold validationRequired. rewrite Hreq. simpl.
  assert (Hbody :
    (if negb match AllowZero rule with Some false => false | _ => true end && (val =? 0)
     then Some (errorString "is a required field and zero is not an allowed value")
     else None) =
    if decide (val = 0 /\ AllowZero rule = Some false)
    then Some (errorString "is a required field and zero is not an allowed value")
    else None).
  { destruct (AllowZero rule) as [[|]|]; simpl;
      destruct (Z.eqb_spec val 0); case_decide as Hd; try done;
      solve [ by destruct Hd | exfalso; apply Hd; by split ]. }
  destruct Hv as [-> | [-> | ->]]; exact Hbody.
Qed.

Lemma strip_any_space_rune (r rest : string) :
  r ∈ Strings.spaceRunes ->
  Strings.strip_any Strings.spaceRunes (r +:+ rest) = Some rest.
Proof.
  unfold Strings.spaceRunes. cbn [map]. intros Hr.
  repeat (apply elem_of_cons in Hr as [-> | Hr]; [vm_compute; reflexivity |]).
  by apply elem_of_nil in Hr.
Qed.

Lemma space_rune_not_empty (r : string) :
  r ∈ Strings.spaceRunes -> (1 <= String.length r)%nat.
Proof.
  unfold Strings.spaceRunes. cbn [map]. intros Hr.
  repeat (apply elem_of_cons in Hr as [-> | Hr]; [vm_compute; lia |]).
  by apply elem_of_nil in Hr.
Qed.

Lemma length_append (a b : string) :
  String.length (a +:+ b) = (String.length a + String.length b)%nat.
Proof. induction a as [|c a IH]; [done |]. simpl. by rewrite IH. Qed.

Lemma trim_prefixes_space_runes (runes : list string) :
  forall fuel,
    Forall (fun r => r ∈ Strings.spaceRunes) runes ->
    (length runes <= fuel)%nat ->
    Strings.trim_prefixes Strings.spaceRunes fuel (foldr String.append "" runes) = "".
Proof.
  induction runes as [|r runes IH]; intros fuel Hall Hfuel.
  - destruct fuel; reflexivity.
  - destruct fuel as [|fuel]; [simpl in Hfuel; lia |].
    apply List.Forall_cons_iff in Hall as [Hr Hall].
    cbn [foldr Strings.trim_prefixes]. rewrite (strip_any_space_rune r _ Hr).
    apply IH; [done | simpl in Hfuel; lia].
Qed.

(** A string made of white-space runes only is trimmed to the empty
    string. *)
Lemma TrimSpace_space_runes (runes : list string) :
  Forall (fun r => r ∈ Strings.spaceRunes) runes ->
  Strings.TrimSpace (foldr String.append "" runes) = "".
Proof.
  intros Hall. unfold Strings.TrimSpace, Strings.TrimLeftSpace.
  rewrite trim_prefixes_space_runes; [reflexivity | done |].
  induction Hall as [|r runes Hr Hall IH]; [done |].
  cbn [foldr length]. rewrite length_append.
  pose proof (space_rune_not_empty r Hr). lia.
Qed.

(** C2 (amended). Under a rule with [required] set, an integer or decimal
    zero fails the check exactly when the rule sets [allow_zero] to
    false; with [allow_zero] absent or true a zero passes. Nil, the empty
    string and the zero time fail. A string fails exactly when nothing is
    left of it once the surrounding white space is trimmed; so every string
    made of white-space runes only fails. *)
Theorem validationRequired_zero_only_when_disallowed
  (queries : repository.Querier) (rule : ValidationRule) :
  Required rule = true ->
  (forall val v, v = VInt val \/ v = VInt32 val \/ v = VInt64 val ->
     (validationRequired queries v rule <> None <->
        val = 0 /\ AllowZero rule = Some false)) /\
  (forall d,
     validationRequired queries (VDecimal d) rule <> None <->
       decimal_IsZero d = true /\ AllowZero rule = Some false) /\
  validationRequired queries VNil rule = Some (errorString "is a required field") /\
  validationRequired queries (VString "") rule = Some (errorString "is a required field") /\
  (forall t, time_IsZero t = true ->
     validationRequired queries (VTime t) rule = Some (errorString "is a required field")) /\
  (forall s,
     validationRequired queries (VString s) rule <> None <-> Strings.TrimSpace s = "") /\
  (forall runes,
     Forall (fun r => r ∈ Strings.spaceRunes) runes ->
     validationRequired queries (VString (foldr String.append "" runes)) rule =
       Some (errorString "is a required field")).
Proof.
  intros Hreq. split; [| split; [| split; [| split; [| split; [| split]]]]].
  - intros val v Hv. rewrite (validationRequired_int queries rule val v Hreq Hv).
    case_decide as Hd; split; done.
  - intros d. unfold validationRequired. rewrite Hreq. simpl.
    destruct (AllowZero rule) as [[|]|]; simpl; destruct (decimal_IsZero d);
      split; try done; intros [? ?]; done.
  - unfold validationRequired. by rewrite Hreq.
  - unfold validationRequired. by rewrite Hreq.
  - intros t Ht. unfold validationRequired. by rewrite Hreq, Ht.
  - intros s. unfold validationRequired. rewrite Hreq. cbn [negb].
    destruct (String.eqb_spec (Strings.TrimSpace s) "") as [Heq | Hne]; split; done.
  - intros runes Hall. unfold validationRequired. rewrite Hreq. cbn [negb].
    by rewrite (TrimSpace_space_runes runes Hall).
Qed.

(** *** Transform chains and attempts *)

Lemma applyTransforms_from_app (cur : value) (c1 c2 : list string) :
  applyTransforms_from cur (c1 ++ c2) =
    match applyTransforms_from cur c1 with
    | Ok v => applyTransforms_from v c2
    | Err e => Err e
    end.
Proof.
  revert cur. induction c1 as [|t c1 IH]; intros cur; simpl; [done |].
  destruct (transformRegistry !! transformName t) as [f|]; [| done].
  destruct (f cur (transformArg t)); [apply IH | done].
Qed.

Lemma attemptsLoop_first_success (rawValue : string)
  (failed later : list ProcessingAttempt) (a : ProcessingAttempt) (v : value)
  (te : option error) :
  Forall (attemptFails rawValue) failed ->
  applyTransforms rawValue (Transforms a) = Ok v ->
  attemptsLoop rawValue (failed ++ a :: later) te = inl v.
Proof.
  intros Hf Ha. revert te.
  induction Hf as [|x failed [e He] _ IH]; intros te; simpl.
  - by rewrite Ha.
  - rewrite He. apply IH.
Qed.

Lemma attemptsLoop_all_fail (rawValue : string)
  (earlier : list ProcessingAttempt) (a : ProcessingAttempt) (e : error)
  (te : option error) :
  Forall (attemptFails rawValue) earlier ->
  applyTransforms rawValue (Transforms a) = Err e ->
  attemptsLoop rawValue (earlier ++ [a]) te = inr (Some e).
Proof.
  intros Hf Ha. revert te.
  induction Hf as [|x earlier [e' He'] _ IH]; intros te; simpl.
  - by rewrite Ha.
  - rewrite He'. apply IH.
Qed.

Lemma transformColumn_first_success (mapping : ColumnMapping) (rawValue : string)
  (failed later : list ProcessingAttempt) (a : ProcessingAttempt) (v : value) :
  Attempts mapping = failed ++ a :: later ->
  Forall (attemptFails rawValue) failed ->
  applyTransforms rawValue (Transforms a) = Ok v ->
  transformColumn mapping rawValue = Ok v.
Proof.
  intros Hsplit Hf Ha. unfold transformColumn. rewrite Hsplit.
  rewrite (attemptsLoop_first_success rawValue failed later a v None Hf Ha).
  rewrite length_app. simpl.
  destruct (0 <? length failed + S (length later))%nat eqn:E; [done |].
  apply Nat.ltb_ge in E. lia.
Qed.

Lemma transformColumn_all_fail (mapping : ColumnMapping) (rawValue : string)
  (earlier : list ProcessingAttempt) (a : ProcessingAttempt) (e : error) :
  Attempts mapping = earlier ++ [a] ->
  Forall (attemptFails rawValue) earlier ->
  applyTransforms rawValue (Transforms a) = Err e ->
  transformColumn mapping rawValue =
    Err (Errorf_w ("all transform attempts failed for column '" +:+ CSVHeader mapping +:+
                   "' with value '" +:+ rawValue +:+ "': ") e).
Proof.
  intros Hsplit Hf Ha. unfold transformColumn. rewrite Hsplit.
  rewrite (attemptsLoop_all_fail rawValue earlier a e None Hf Ha).
  rewrite length_app. simpl.
  destruct (0 <? length earlier + 1)%nat eqn:E; [done |].
  apply Nat.ltb_ge in E. lia.
Qed.

Lemma processRow_loop_cons (rangeOrder : nat -> list string)
  (queries : repository.Querier) (record : list string) (headerMap : gmap string nat)
  (idx : nat) (mapping : ColumnMapping) (rest : list ColumnMapping)
  (processedData : gmap string value) :
  processRow_loop rangeOrder queries record headerMap idx (mapping :: rest) processedData =
    match transformColumn mapping
            (rawValueAt record (default 0%nat (headerMap !! CSVHeader mapping))) with
    | Err err => Err err
    | Ok v =>
        bindColumn rangeOrder queries record headerMap idx mapping rest processedData v
    end.
Proof. reflexivity. Qed.

(** C4. For a mapping with attempts, the chains are tried in declared
    order and the column is bound to the value of the first attempt whose
    chain succeeds; when every attempt fails the row fails with an error
    wrapping the last attempt's error; with no attempts the raw field goes
    to validation unchanged. A chain itself runs its transforms in order. *)
Theorem processRow_first_successful_attempt
  (rangeOrder : nat -> list string) (queries : repository.Querier)
  (record : list string) (headerMap : gmap string nat) (idx : nat)
  (mapping : ColumnMapping) (rest : list ColumnMapping)
  (processedData : gmap string value) :
  let rawValue := rawValueAt record (default 0%nat (headerMap !! CSVHeader mapping)) in
  let run :=
    processRow_loop rangeOrder queries record headerMap idx (mapping :: rest)
      processedData in
  (forall failed a later v,
     Attempts mapping = failed ++ a :: later ->
     Forall (attemptFails rawValue) failed ->
     applyTransforms rawValue (Transforms a) = Ok v ->
     run = bindColumn rangeOrder queries record headerMap idx mapping rest
             processedData v) /\
  (forall earlier a e,
     Attempts mapping = earlier ++ [a] ->
     Forall (attemptFails rawValue) earlier ->
     applyTransforms rawValue (Transforms a) = Err e ->
     run = Err (Errorf_w ("all transform attempts failed for column '" +:+
                          CSVHeader mapping +:+ "' with value '" +:+ rawValue +:+ "': ")
                  e) /\
     Unwrap (Errorf_w ("all transform attempts failed for column '" +:+
                       CSVHeader mapping +:+ "' with value '" +:+ rawValue +:+ "': ")
               e) = Some e) /\
  (Attempts mapping = [] ->
     run = bindColumn rangeOrder queries record headerMap idx mapping rest
             processedData (VString rawValue)) /\
  (forall cur c1 c2,
     applyTransforms_from cur (c1 ++ c2) =
       match applyTransforms_from cur c1 with
       | Ok v => applyTransforms_from v c2
       | Err e => Err e
       end).
Proof.
  intros rawValue run. subst run. rewrite processRow_loop_cons. fold rawValue.
  split; [| split; [| split]].
  - intros failed a later v Hs Hf Ha.
    by rewrite (transformColumn_first_success mapping rawValue failed later a v Hs Hf Ha).
  - intros earlier a e Hs Hf Ha.
    by rewrite (transformColumn_all_fail mapping rawValue earlier a e Hs Hf Ha).
  - intros Hnil. unfold transformColumn. by rewrite Hnil.
  - apply applyTransforms_from_app.
Qed.

(** C9 (amended). The first use of an unregistered transform name makes
    the attempt fail with an "unknown transform function" error. That
    failure is an attempt failure like any other: when it is the last
    attempt's and the earlier attempts failed too, the row fails with an
    error wrapping it; when another attempt of the mapping succeeds first
    or later, the column is bound to that attempt's value and the row goes
    on. *)
Theorem unknown_transform_is_an_attempt_failure
  (rangeOrder : nat -> list string) (queries : repository.Querier)
  (record : list string) (headerMap : gmap string nat) (idx : nat)
  (mapping : ColumnMapping) (rest : list ColumnMapping)
  (processedData : gmap string value)
  (pre post : list string) (call : string) (a : ProcessingAttempt) (cur : value) :
  let rawValue := rawValueAt record (default 0%nat (headerMap !! CSVHeader mapping)) in
  let run :=
    processRow_loop rangeOrder queries record headerMap idx (mapping :: rest)
      processedData in
  let unknown := errorString ("unknown transform function: " +:+ transformName call) in
  transformRegistry !! transformName call = None ->
  Transforms a = pre ++ call :: post ->
  applyTransforms rawValue pre = Ok cur ->
  applyTransforms rawValue (Transforms a) = Err unknown /\
  (forall earlier,
     Attempts mapping = earlier ++ [a] ->
     Forall (attemptFails rawValue) earlier ->
     run = Err (Errorf_w ("all transform attempts failed for column '" +:+
                          CSVHeader mapping +:+ "' with value '" +:+ rawValue +:+ "': ")
                  unknown)) /\
  (forall failed b later v,
     Attempts mapping = failed ++ b :: later ->
     Forall (attemptFails rawValue) failed ->
     applyTransforms rawValue (Transforms b) = Ok v ->
     run = bindColumn rangeOrder queries record headerMap idx mapping rest
             processedData v).
Proof.
  intros rawValue run unknown Hreg Hchain Hpre.
  assert (Hfail : applyTransforms rawValue (Transforms a) = Err unknown).
  { unfold applyTransforms in *. rewrite Hchain, applyTransforms_from_app, Hpre.
    cbn [applyTransforms_from].
    unfold TransformFunc in *. by rewrite Hreg. }
  subst run. rewrite processRow_loop_cons. fold rawValue.
  split; [exact Hfail | split].
  - intros earlier Hs Hf.
    by rewrite (transformColumn_all_fail mapping rawValue earlier a unknown Hs Hf Hfail).
  - intros failed b later v Hs Hf Hb.
    by rewrite (transformColumn_first_success mapping rawValue failed later b v Hs Hf Hb).
Qed.

(** *** The record loop *)

Lemma finishRow_outcome (config : IngestionConfig) (headers : list string)
  (scopeJSONField : string) (embedder : option EmbedderFunc) (i : nat)
  (record : list string) (processedData : gmap string value)
  (result : ProcessingResult) :
  (exists item,
     finishRow config headers scopeJSONField embedder i record processedData result =
       appendItem result item) \/
  (exists row,
     finishRow config headers scopeJSONField embedder i record processedData result =
       appendTriage result row).
Proof.
  unfold finishRow. repeat case_match; eauto.
Qed.

Lemma recordStep_outcome (config : IngestionConfig)
  (rangeOrder : nat -> nat -> list string) (queries : repository.Querier)
  (embedder : option EmbedderFunc) (headers : list string)
  (headerMap : gmap string nat) (mergeColumnIndex : Z) (scopeJSONField : string)
  (result : ProcessingResult) (i : nat) (record : list string) :
  let result' :=
    recordStep config rangeOrder queries embedder headers headerMap mergeColumnIndex
      scopeJSONField result i record in
  (exists item, result' = appendItem result item) \/
  (exists row, result' = appendTriage result row) \/
  result' = countBlank result.
Proof.
  unfold recordStep.
  destruct (negb _); [right; left; eauto |].
  destruct (isRowBlank _); [by right; right |].
  destruct (processRow _ _ _ _ _); [| right; left; eauto].
  destruct (finishRow_outcome config headers scopeJSONField embedder i
              (repairRecord record (length headers) mergeColumnIndex) v result)
    as [?|?]; eauto.
Qed.

Lemma recordLoop_classifies
  (step : ProcessingResult -> nat -> list string -> ProcessingResult)
  (allRecords : list (list string)) (i : nat) (result : ProcessingResult) :
  (forall r k record,
     Z.of_nat (length (SuccessfulItems (step r k record))) +
     Z.of_nat (length (TriageRows (step r k record))) +
     BlankRowsDiscarded (step r k record) =
     Z.of_nat (length (SuccessfulItems r)) +
     Z.of_nat (length (TriageRows r)) + BlankRowsDiscarded r + 1) ->
  Z.of_nat (length (SuccessfulItems (recordLoop step i allRecords result))) +
  Z.of_nat (length (TriageRows (recordLoop step i allRecords result))) +
  BlankRowsDiscarded (recordLoop step i allRecords result) =
  Z.of_nat (length (SuccessfulItems result)) +
  Z.of_nat (length (TriageRows result)) + BlankRowsDiscarded result +
  Z.of_nat (length allRecords).
Proof.
  intros Hstep. revert i result.
  induction allRecords as [|record rest IH]; intros i result; simpl recordLoop.
  - simpl. lia.
  - rewrite IH, Hstep. simpl length. lia.
Qed.

(** [Process] does return a result once the header row and the records
    are read, the file has every mapped header and the scope field has a
    mapping with a JSON field name. *)
Lemma Process_returns (config : IngestionConfig)
  (rangeOrder : nat -> nat -> list string) (file : Reader)
  (queries : repository.Querier) (embedder : option EmbedderFunc)
  (headers : list string) (allRecords : list (list string)) :
  Read file = Ok headers ->
  ReadAll file = Ok allRecords ->
  missingHeader (buildHeaderMap headers) (ColumnMappings config) = None ->
  findScopeJSONField (ScopeField config) (ColumnMappings config) <> "" ->
  exists result, Process config rangeOrder file queries embedder = Ok result.
Proof.
  intros HRead HAll Hmiss Hscope. unfold Process.
  rewrite HRead, Hmiss, HAll.
  destruct (String.eqb_spec
              (findScopeJSONField (ScopeField config) (ColumnMappings config)) "");
    [done | by eexists].
Qed.

(** C1. When [Process] returns a nil error, the header row and the data
    rows were read, every data row went to exactly one of
    [SuccessfulItems], [TriageRows] and [BlankRowsDiscarded], and the
    number of data rows is the sum of the three. *)
Theorem Process_classifies_every_row (config : IngestionConfig)
  (rangeOrder : nat -> nat -> list string) (file : Reader)
  (queries : repository.Querier) (embedder : option EmbedderFunc)
  (result : ProcessingResult) :
  Process config rangeOrder file queries embedder = Ok result ->
  exists headers allRecords,
    Read file = Ok headers /\
    ReadAll file = Ok allRecords /\
    Z.of_nat (length allRecords) =
      Z.of_nat (length (SuccessfulItems result)) +
      Z.of_nat (length (TriageRows result)) + BlankRowsDiscarded result /\
    (forall r i record,
       let r' :=
         recordStep config rangeOrder queries embedder headers (buildHeaderMap headers)
           (findMergeColumnIndex (buildHeaderMap headers) (ColumnMappings config))
           (findScopeJSONField (ScopeField config) (ColumnMappings config))
           r i record in
       (length (SuccessfulItems r') = S (length (SuccessfulItems r)) /\
        TriageRows r' = TriageRows r /\
        BlankRowsDiscarded r' = BlankRowsDiscarded r) \/
       (SuccessfulItems r' = SuccessfulItems r /\
        length (TriageRows r') = S (length (TriageRows r)) /\
        BlankRowsDiscarded r' = BlankRowsDiscarded r) \/
       (SuccessfulItems r' = SuccessfulItems r /\
        TriageRows r' = TriageRows r /\
        BlankRowsDiscarded r' = BlankRowsDiscarded r + 1)).
Proof.
  unfold Process. intros HP.
  destruct (Read file) as [headers|] eqn:ERead; [| done].
  destruct (missingHeader _ _); [done |].
  destruct (ReadAll file) as [allRecords|] eqn:EAll; [| done].
  destruct (String.eqb _ ""); [done |].
  injection HP as <-.
  exists headers, allRecords.
  assert (Hrow : forall r i record,
       let r' :=
         recordStep config rangeOrder queries embedder headers (buildHeaderMap headers)
           (findMergeColumnIndex (buildHeaderMap headers) (ColumnMappings config))
           (findScopeJSONField (ScopeField config) (ColumnMappings config))
           r i record in
       (length (SuccessfulItems r') = S (length (SuccessfulItems r)) /\
        TriageRows r' = TriageRows r /\
        BlankRowsDiscarded r' = BlankRowsDiscarded r) \/
       (SuccessfulItems r' = SuccessfulItems r /\
        length (TriageRows r') = S (length (TriageRows r)) /\
        BlankRowsDiscarded r' = BlankRowsDiscarded r) \/
       (SuccessfulItems r' = SuccessfulItems r /\
        TriageRows r' = TriageRows r /\
        BlankRowsDiscarded r' = BlankRowsDiscarded r + 1)).
  { intros r i record r'.
    destruct (recordStep_outcome config rangeOrder queries embedder headers
                (buildHeaderMap headers)
                (findMergeColumnIndex (buildHeaderMap headers) (ColumnMappings config))
                (findScopeJSONField (ScopeField config) (ColumnMappings config))
                r i record) as [[item Hi]|[[row Hr]|Hb]];
      fold r' in Hi || fold r' in Hr || fold r' in Hb.
    - left. rewrite Hi. simpl. rewrite length_app. simpl. split; [lia | done].
    - right; left. rewrite Hr. simpl. rewrite length_app. simpl.
      split; [done | split; [lia | done]].
    - right; right. by rewrite Hb. }
  repeat split; try done.
  rewrite recordLoop_classifies.
  - simpl. lia.
  - intros r k record.
    destruct (Hrow r k record) as [(H1 & H2 & H3)|[(H1 & H2 & H3)|(H1 & H2 & H3)]];
      rewrite H1, H2, H3; lia.
Qed.

(** *** Row repair *)

Lemma headerMap_loop_bound (headers : list string) (i : nat)
  (headerMap : gmap string nat) (h : string) (idx : nat) :
  headerMap_loop i headers headerMap !! h = Some idx ->
  headerMap !! h = Some idx \/ (i <= idx < i + length headers)%nat.
Proof.
  revert i headerMap.
  induction headers as [|x headers IH]; intros i headerMap; cbn [headerMap_loop length].
  - by left.
  - intros Hl. apply IH in Hl as [Hl | Hl]; [| right; lia].
    destruct (decide (Strings.TrimSpace x = h)) as [Heq|Hne].
    + rewrite Heq, lookup_insert_eq in Hl. injection Hl as <-. right. lia.
    + rewrite lookup_insert_ne in Hl by done. by left.
Qed.

Lemma buildHeaderMap_bound (headers : list string) (h : string) (idx : nat) :
  buildHeaderMap headers !! h = Some idx -> (idx < length headers)%nat.
Proof.
  intros Hl. apply headerMap_loop_bound in Hl as [Hl | Hl]; [| lia].
  by rewrite lookup_empty in Hl.
Qed.

Lemma findMergeColumnIndex_first (headerMap : gmap string nat)
  (pre post : list ColumnMapping) (mapping : ColumnMapping) (idx : nat) :
  Forall (fun m => MergeExcessFields m = false) pre ->
  MergeExcessFields mapping = true ->
  headerMap !! CSVHeader mapping = Some idx ->
  findMergeColumnIndex headerMap (pre ++ mapping :: post) = Z.of_nat idx.
Proof.
  intros Hpre Hm Hh. induction Hpre as [|x pre Hx _ IH]; simpl.
  - by rewrite Hm, Hh.
  - by rewrite Hx.
Qed.

(** The slices the repair takes stay inside the record, so the slice
    expressions of the source do not panic. *)
Lemma mergeExcessFields_in_bounds (record : list string) (numHeaders idx : nat) :
  (idx < numHeaders)%nat -> (numHeaders < length record)%nat ->
  let mergeColumnIndex := Z.of_nat idx in
  let endOfMergeIndex :=
    mergeColumnIndex + (Z.of_nat (length record) - Z.of_nat numHeaders) in
  0 <= mergeColumnIndex <= endOfMergeIndex + 1 /\
  endOfMergeIndex + 1 <= Z.of_nat (length record).
Proof. intros. lia. Qed.

Lemma mergeExcessFields_two_extra (record : list string) (numHeaders idx : nat) :
  length record = (numHeaders + 2)%nat -> (idx < numHeaders)%nat ->
  mergeExcessFields record numHeaders (Z.of_nat idx) =
    take idx record ++ [Strings.Join (take 3 (drop idx record)) ","] ++
    drop (idx + 3) record.
Proof.
  intros Hlen Hidx. unfold mergeExcessFields, slice. rewrite Hlen.
  replace (Z.to_nat (Z.of_nat idx - 0)) with idx by lia.
  replace (Z.to_nat 0) with 0%nat by lia.
  replace (Z.to_nat (Z.of_nat idx)) with idx by lia.
  replace (Z.to_nat (Z.of_nat idx + (Z.of_nat (numHeaders + 2) - Z.of_nat numHeaders) + 1 -
                     Z.of_nat idx)) with 3%nat by lia.
  replace (Z.to_nat (Z.of_nat idx + (Z.of_nat (numHeaders + 2) - Z.of_nat numHeaders) + 1))
    with (idx + 3)%nat by lia.
  rewrite drop_0.
  rewrite (take_ge (drop (idx + 3) record)) by (rewrite length_drop; lia).
  by rewrite <- app_assoc.
Qed.

(** C5. A row of exactly [numHeaders + 2] fields, with the merge column
    at index [idx] of the header, is repaired to [numHeaders] fields: the
    field at [idx] is the three original fields [idx], [idx + 1] and
    [idx + 2] joined by the delimiter, the fields before [idx] are kept
    and the fields after the merged span follow unchanged. *)
Theorem repair_merges_three_fields (headers record : list string)
  (pre post : list ColumnMapping) (mapping : ColumnMapping) (idx : nat) :
  let numHeaders := length headers in
  let headerMap := buildHeaderMap headers in
  let mergeColumnIndex := findMergeColumnIndex headerMap (pre ++ mapping :: post) in
  let repaired := repairRecord record numHeaders mergeColumnIndex in
  length record = (numHeaders + 2)%nat ->
  Forall (fun m => MergeExcessFields m = false) pre ->
  Forall (fun m => MergeExcessFields m = false) post ->
  MergeExcessFields mapping = true ->
  headerMap !! CSVHeader mapping = Some idx ->
  length repaired = numHeaders /\
  (exists f0 f1 f2,
     record !! idx = Some f0 /\ record !! (idx + 1)%nat = Some f1 /\
     record !! (idx + 2)%nat = Some f2 /\
     repaired !! idx = Some (Strings.Join [f0; f1; f2] ",")) /\
  (forall j, (j < idx)%nat -> repaired !! j = record !! j) /\
  (forall j, (idx < j)%nat -> repaired !! j = record !! (j + 2)%nat).
Proof.
  intros numHeaders headerMap mergeColumnIndex repaired Hlen Hpre _ Hm Hh.
  assert (Hidx : (idx < numHeaders)%nat) by (eapply buildHeaderMap_bound; exact Hh).
  assert (Hmerge : mergeColumnIndex = Z.of_nat idx)
    by (by apply findMergeColumnIndex_first).
  assert (Hrep : repaired =
            take idx record ++ [Strings.Join (take 3 (drop idx record)) ","] ++
            drop (idx + 3) record).
  { subst repaired. unfold repairRecord. rewrite Hmerge.
    replace (numHeaders <? length record)%nat with true
      by (symmetry; apply Nat.ltb_lt; lia).
    replace (Z.of_nat idx =? -1) with false by (symmetry; apply Z.eqb_neq; lia).
    simpl. by apply mergeExcessFields_two_extra. }
  assert (Htake : length (take idx record) = idx) by (rewrite length_take; lia).
  destruct (lookup_lt_is_Some_2 record idx) as [f0 Hf0]; [lia |].
  destruct (lookup_lt_is_Some_2 record (idx + 1)) as [f1 Hf1]; [lia |].
  destruct (lookup_lt_is_Some_2 record (idx + 2)) as [f2 Hf2]; [lia |].
  assert (H3 : take 3 (drop idx record) = [f0; f1; f2]).
  { apply list_eq. intros k.
    destruct (decide (k < 3)%nat) as [Hk|Hk].
    - rewrite lookup_take_lt, lookup_drop by done.
      destruct k as [|[|[|k]]]; [| | | lia]; simpl.
      + by rewrite Nat.add_0_r.
      + done.
      + done.
    - rewrite lookup_take_ge by lia.
      symmetry. apply lookup_ge_None. simpl. lia. }
  rewrite Hrep, H3. split; [| split; [| split]].
  - rewrite !length_app, length_drop, Htake. simpl. lia.
  - exists f0, f1, f2. repeat split; try done.
    rewrite lookup_app_r by lia. rewrite Htake, Nat.sub_diag. done.
  - intros j Hj. rewrite lookup_app_l by lia. by rewrite lookup_take_lt.
  - intros j Hj. rewrite lookup_app_r by lia. rewrite Htake.
    destruct (j - idx)%nat as [|k] eqn:Ek; [lia |]. simpl.
    rewrite lookup_drop. f_equal. lia.
Qed.

(** *** Key resolution *)

Lemma businessKeyLoop_all_present (processedData : gmap string value)
  (fields : list string) (vals : list value) (parts : list string) :
  Forall2 (keyFieldPresent processedData) fields vals ->
  businessKeyLoop fields processedData parts = inr (parts ++ map fmt_v vals).
Proof.
  intros HF. revert parts.
  induction HF as [|f v fields vals [Hl Hv] _ IH]; intros parts; simpl.
  - by rewrite app_nil_r.
  - rewrite Hl. destruct v; try done; rewrite IH, <- app_assoc; done.
Qed.

Lemma businessKeyLoop_first_missing (processedData : gmap string value)
  (pre post : list string) (field : string) (vals : list value) (parts : list string) :
  Forall2 (keyFieldPresent processedData) pre vals ->
  processedData !! field = None \/ processedData !! field = Some VNil ->
  businessKeyLoop (pre ++ field :: post) processedData parts = inl field.
Proof.
  intros HF Hmiss. revert parts.
  induction HF as [|f v pre vals [Hl Hv] _ IH]; intros parts; simpl.
  - by destruct Hmiss as [-> | ->].
  - rewrite Hl. destruct v; try done; apply IH.
Qed.

(** C8. For a row that reaches key resolution, the business key is the
    [%v] forms of the configured key fields joined with a dash, in
    declared order; when a key field is missing or nil, the row gets one
    triage entry, for the first such field, whatever the later key fields
    are. *)
Theorem business_key_first_missing_field_triages_once
  (config : IngestionConfig) (headers : list string) (scopeJSONField : string)
  (embedder : option EmbedderFunc) (i : nat) (record : list string)
  (processedData : gmap string value) (result : ProcessingResult)
  (embedding : list float32) (customPropsJSON scopeString : string) :
  let out :=
    finishRow config headers scopeJSONField embedder i record processedData result in
  embedRow config embedder processedData = Ok embedding ->
  json_Marshal processedData = Ok customPropsJSON ->
  processedData !! scopeJSONField = Some (VString scopeString) ->
  (forall vals,
     Forall2 (keyFieldPresent processedData) (BusinessKey config) vals ->
     out = appendItem result
             {| repository.ItemType := ItemType config;
                repository.Scope :=
                  {| pgtype.String_ := scopeString; pgtype.Valid := true |};
                repository.BusinessKey :=
                  {| pgtype.String_ := Strings.Join (map fmt_v vals) "-";
                     pgtype.Valid := true |};
                repository.Status := "active";
                repository.CustomProperties := customPropsJSON;
                repository.Embedding := embedding |}) /\
  (forall pre field post vals,
     BusinessKey config = pre ++ field :: post ->
     Forall2 (keyFieldPresent processedData) pre vals ->
     processedData !! field = None \/ processedData !! field = Some VNil ->
     out = appendTriage result
             {| OriginalRecord := createOriginalRecordMap record headers;
                FailureReason :=
                  "business key field '" +:+ field +:+ "' is missing or nil" |} /\
     length (TriageRows out) = S (length (TriageRows result)) /\
     SuccessfulItems out = SuccessfulItems result).
Proof.
  intros out Hemb Hjson Hscope. subst out. unfold finishRow.
  rewrite Hemb, Hjson, Hscope. split.
  - intros vals Hvals.
    by rewrite (businessKeyLoop_all_present processedData _ vals [] Hvals).
  - intros pre field post vals Hkey Hpre Hmiss. rewrite Hkey.
    rewrite (businessKeyLoop_first_missing processedData pre post field vals [] Hpre Hmiss).
    simpl. rewrite length_app. simpl. split; [done | split; [lia | done]].
Qed.

(** *** Width check and blank check *)

Lemma contains_append (c : ascii) (s1 s2 : string) :
  Strings.contains c (s1 +:+ s2) = Strings.contains c s1 || Strings.contains c s2.
Proof.
  induction s1 as [|b s1 IH]; simpl; [done |].
  rewrite IH. by rewrite orb_assoc.
Qed.

Lemma contains_rev_app (c : ascii) (s1 s2 : string) :
  Strings.contains c (String.rev_app s1 s2) =
    Strings.contains c s1 || Strings.contains c s2.
Proof.
  revert s2. induction s1 as [|b s1 IH]; intros s2; simpl; [done |].
  rewrite IH. simpl. destruct (Ascii.eqb c b), (Strings.contains c s1); done.
Qed.

Lemma contains_rev (c : ascii) (s : string) :
  Strings.contains c (String.rev s) = Strings.contains c s.
Proof. unfold String.rev. rewrite contains_rev_app. simpl. apply orb_false_r. Qed.

Lemma strip_prefix_contains (c : ascii) (p s r : string) :
  Strings.strip_prefix p s = Some r ->
  Strings.contains c s = Strings.contains c p || Strings.contains c r.
Proof.
  revert s. induction p as [|a p IH]; intros s; simpl.
  - by intros [= ->].
  - destruct s as [|b s]; [done |].
    destruct (Ascii.eqb_spec a b) as [->|]; [| done].
    intros Hs. simpl. rewrite (IH _ Hs). by rewrite orb_assoc.
Qed.

Lemma strip_any_contains (c : ascii) (pats : list string) (s r : string) :
  Forall (fun p => Strings.contains c p = false) pats ->
  Strings.strip_any pats s = Some r ->
  Strings.contains c r = Strings.contains c s.
Proof.
  intros HF. induction HF as [|p pats Hp _ IH]; simpl; [done |].
  destruct (Strings.strip_prefix p s) as [r'|] eqn:E; [| done].
  intros [= ->]. by rewrite (strip_prefix_contains c p s r E), Hp.
Qed.

Lemma trim_prefixes_contains (c : ascii) (pats : list string) (fuel : nat) (s : string) :
  Forall (fun p => Strings.contains c p = false) pats ->
  Strings.contains c (Strings.trim_prefixes pats fuel s) = Strings.contains c s.
Proof.
  intros HF. revert s. induction fuel as [|fuel IH]; intros s; simpl; [done |].
  destruct (Strings.strip_any pats s) as [r|] eqn:E; [| done].
  by rewrite IH, (strip_any_contains c pats s r HF E).
Qed.

Lemma spaceRunes_no_comma :
  Forall (fun p => Strings.contains "," p = false) Strings.spaceRunes.
Proof. unfold Strings.spaceRunes. simpl. repeat constructor. Qed.

Lemma spaceRunes_rev_no_comma :
  Forall (fun p => Strings.contains "," p = false) (map String.rev Strings.spaceRunes).
Proof. unfold Strings.spaceRunes. simpl. repeat constructor. Qed.

(** A field with a comma in it is not blank. *)
Lemma TrimSpace_keeps_comma (s : string) :
  Strings.contains "," s = true -> Strings.TrimSpace s <> "".
Proof.
  intros Hc Ht.
  assert (H1 : Strings.contains "," (Strings.TrimSpace s) = true).
  { unfold Strings.TrimSpace, Strings.TrimRightSpace, Strings.TrimLeftSpace.
    rewrite contains_rev, (trim_prefixes_contains _ _ _ _ spaceRunes_rev_no_comma).
    by rewrite contains_rev, (trim_prefixes_contains _ _ _ _ spaceRunes_no_comma). }
  by rewrite Ht in H1.
Qed.

Lemma Join_comma (x y : string) (l : list string) :
  Strings.contains "," (Strings.Join (x :: y :: l) ",") = true.
Proof.
  unfold Strings.Join. cbn [String.concat].
  change (x ++ "," ++ String.concat "," (y :: l))%string
    with (x +:+ ("," +:+ String.concat "," (y :: l))).
  rewrite !contains_append. simpl. apply orb_true_r.
Qed.

Lemma isRowBlank_app (l1 l2 : list string) :
  isRowBlank (l1 ++ l2) = isRowBlank l1 && isRowBlank l2.
Proof. apply forallb_app. Qed.

(** A repaired row holds the rejoined field, which has a comma: it is
    never blank. *)
Lemma mergeExcessFields_not_blank (record : list string) (numHeaders idx : nat) :
  (idx < numHeaders)%nat -> (numHeaders < length record)%nat ->
  isRowBlank (mergeExcessFields record numHeaders (Z.of_nat idx)) = false.
Proof.
  intros Hidx Hlen. unfold mergeExcessFields.
  rewrite !isRowBlank_app.
  set (fields := slice record (Z.of_nat idx) _).
  assert (Hf : (2 <= length fields)%nat).
  { subst fields. unfold slice. rewrite length_take, length_drop. lia. }
  destruct fields as [|x [|y l]]; simpl in Hf; [lia | lia |].
  assert (Hj : isRowBlank [Strings.Join (x :: y :: l) ","] = false).
  { simpl. rewrite andb_true_r. apply String.eqb_neq.
    apply TrimSpace_keeps_comma, Join_comma. }
  rewrite Hj. by rewrite andb_false_r.
Qed.

Lemma findMergeColumnIndex_range (headers : list string) (mappings : list ColumnMapping) :
  let m := findMergeColumnIndex (buildHeaderMap headers) mappings in
  m = -1 \/ exists idx, m = Z.of_nat idx /\ (idx < length headers)%nat.
Proof.
  induction mappings as [|x mappings IH]; simpl; [by left |].
  destruct (MergeExcessFields x); [| exact IH].
  destruct (buildHeaderMap headers !! CSVHeader x) as [idx|] eqn:E; [| exact IH].
  right. exists idx. split; [done |]. by eapply buildHeaderMap_bound.
Qed.


End engine_facts.

End processing_facts.


Module repository_facts.
Import repository.

(** A command that succeeds proposed no key twice, and none that was
    already written. *)
Lemma UpsertItems_rows_fresh (now : Z) (staging : list StagedRow)
  (touched : gset (string * string)) (items : ItemsTable) (n : Z)
  (res : Z * ItemsTable) :
  UpsertItems_rows now staging touched items n = Ok res ->
  forall r key, r ∈ staging -> stagedKey r = Some key -> key ∉ touched.
Proof.
  revert touched items n.
  induction staging as [|r0 rest IH]; intros touched items n Hrun r key Hin Hkey.
  - by apply elem_of_nil in Hin.
  - simpl in Hrun. unfold stagedKey in Hkey.
    apply elem_of_cons in Hin as [-> | Hin].
    + destruct (staged_business_key r0) as [k0|]; [| done].
      injection Hkey as <-. by case_decide.
    + destruct (staged_business_key r0) as [k0|].
      * case_decide; [done |].
        specialize (IH _ _ _ Hrun r key Hin). unfold stagedKey in IH.
        specialize (IH Hkey). set_solver.
      * eapply IH; eauto.
Qed.

Lemma UpsertItems_rows_other (now : Z) (staging : list StagedRow)
  (touched : gset (string * string)) (items : ItemsTable) (n n' : Z)
  (items' : ItemsTable) (key : string * string) :
  UpsertItems_rows now staging touched items n = Ok (n', items') ->
  (forall r, r ∈ staging -> stagedKey r <> Some key) ->
  keyed items' !! key = keyed items !! key.
Proof.
  revert touched items n.
  induction staging as [|r0 rest IH]; intros touched items n Hrun Hno.
  - simpl in Hrun. by injection Hrun as _ <-.
  - simpl in Hrun.
    assert (Hno0 : stagedKey r0 <> Some key) by (apply Hno; by left).
    assert (Hrest : forall r, r ∈ rest -> stagedKey r <> Some key)
      by (intros r Hr; apply Hno; by right).
    unfold stagedKey in Hno0.
    destruct (staged_business_key r0) as [k0|].
    + case_decide; [done |].
      rewrite (IH _ _ _ Hrun Hrest). simpl.
      apply lookup_insert_ne. congruence.
    + by rewrite (IH _ _ _ Hrun Hrest).
Qed.

(** After a command that succeeds, the row of a proposed key is the
    proposed row when the key was new, and the conflict update of the old
    row otherwise. *)
Lemma UpsertItems_rows_lookup (now : Z) (staging : list StagedRow)
  (touched : gset (string * string)) (items : ItemsTable) (n n' : Z)
  (items' : ItemsTable) (r : StagedRow) (key : string * string) :
  UpsertItems_rows now staging touched items n = Ok (n', items') ->
  r ∈ staging -> stagedKey r = Some key ->
  keyed items' !! key =
    Some (match keyed items !! key with
          | Some items_row => onConflictUpdate now items_row (EXCLUDED now r)
          | None => EXCLUDED now r
          end).
Proof.
  revert touched items n.
  induction staging as [|r0 rest IH]; intros touched items n Hrun Hin Hkey.
  - by apply elem_of_nil in Hin.
  - simpl in Hrun.
    destruct (staged_business_key r0) as [k0|] eqn:Ek0.
    + case_decide as Ht; [done |].
      pose proof (UpsertItems_rows_fresh _ _ _ _ _ _ Hrun) as Hfresh.
      apply elem_of_cons in Hin as [-> | Hin].
      * unfold stagedKey in Hkey. rewrite Ek0 in Hkey. injection Hkey as <-.
        rewrite (UpsertItems_rows_other _ _ _ _ _ _ _ _ Hrun).
        -- simpl. by rewrite lookup_insert_eq.
        -- intros r' Hr' Hk'. specialize (Hfresh r' _ Hr' Hk'). set_solver.
      * assert (Hne : (staged_item_type r0, k0) <> key).
        { intros <-. specialize (Hfresh r _ Hin Hkey). set_solver. }
        rewrite (IH _ _ _ Hrun Hin Hkey). simpl.
        by rewrite lookup_insert_ne.
    + apply elem_of_cons in Hin as [-> | Hin].
      * unfold stagedKey in Hkey. by rewrite Ek0 in Hkey.
      * by rewrite (IH _ _ _ Hrun Hin Hkey).
Qed.

(** C6 (amended). Two upserts whose staged rows [r1] and [r2] carry the
    same [(item_type, business_key)] and JSON objects as payloads leave one
    row for that key. When the item was new its custom properties are the
    merge of the two payloads; when an object was stored before they are that
    merge laid over the stored object, so keys of the stored object alone are
    kept too; when the value stored before was not an object the result is no
    object but an array, of the old value's elements and the two payloads.
    Whenever the result is an object, every key of the second payload has
    the second payload's value and every key only the first payload has
    keeps the first payload's value. Scope and embedding are those of the
    second staged row; the status is ['active'], the literal the statement
    selects, whatever status the staged row carries. *)
Theorem UpsertItems_twice_merges_custom_properties
  (now1 now2 : Z) (staging1 staging2 : list StagedRow)
  (items0 items1 items2 : ItemsTable) (n1 n2 : Z)
  (r1 r2 : StagedRow) (itemType businessKey : string)
  (p1 p2 : gmap string jsonb) :
  UpsertItems now1 staging1 items0 = Ok (n1, items1) ->
  UpsertItems now2 staging2 items1 = Ok (n2, items2) ->
  r1 ∈ staging1 -> r2 ∈ staging2 ->
  staged_item_type r1 = itemType -> staged_business_key r1 = Some businessKey ->
  staged_item_type r2 = itemType -> staged_business_key r2 = Some businessKey ->
  staged_custom_properties r1 = JObject p1 ->
  staged_custom_properties r2 = JObject p2 ->
  exists stored,
    keyed items2 !! (itemType, businessKey) = Some stored /\
    (keyed items0 !! (itemType, businessKey) = None ->
     custom_properties stored = JObject (p2 ∪ p1)) /\
    (forall old p0,
       keyed items0 !! (itemType, businessKey) = Some old ->
       custom_properties old = JObject p0 ->
       custom_properties stored = JObject (p2 ∪ (p1 ∪ p0))) /\
    (forall old,
       keyed items0 !! (itemType, businessKey) = Some old ->
       (forall p0, custom_properties old <> JObject p0) ->
       custom_properties stored =
         JArray (as_array (custom_properties old) ++ [JObject p1; JObject p2])) /\
    (forall merged,
       custom_properties stored = JObject merged ->
       (forall k v, p2 !! k = Some v -> merged !! k = Some v) /\
       (forall k v, p2 !! k = None -> p1 !! k = Some v -> merged !! k = Some v)) /\
    status stored = status (EXCLUDED now2 r2) /\
    status stored = "active" /\
    scope stored = staged_scope r2 /\
    embedding stored = staged_embedding r2.
Proof.
  intros Hu1 Hu2 Hin1 Hin2 Ht1 Hk1 Ht2 Hk2 Hp1 Hp2.
  assert (Hkey1 : stagedKey r1 = Some (itemType, businessKey))
    by (unfold stagedKey; by rewrite Hk1, Ht1).
  assert (Hkey2 : stagedKey r2 = Some (itemType, businessKey))
    by (unfold stagedKey; by rewrite Hk2, Ht2).
  pose proof (UpsertItems_rows_lookup _ _ _ _ _ _ _ _ _ Hu1 Hin1 Hkey1) as L1.
  pose proof (UpsertItems_rows_lookup _ _ _ _ _ _ _ _ _ Hu2 Hin2 Hkey2) as L2.
  rewrite L1 in L2. rewrite L2.
  assert (Hkeys : forall base merged : gmap string jsonb,
            merged = p2 ∪ (p1 ∪ base) ->
            (forall k v, p2 !! k = Some v -> merged !! k = Some v) /\
            (forall k v, p2 !! k = None -> p1 !! k = Some v -> merged !! k = Some v)).
  { intros base merged ->. split.
    - intros k v Hv. by apply lookup_union_Some_l.
    - intros k v Hn Hv. rewrite lookup_union_r by done. by apply lookup_union_Some_l. }
  destruct (keyed items0 !! (itemType, businessKey)) as [old|] eqn:E0.
  - eexists. split; [done |].
    cbn [custom_properties onConflictUpdate EXCLUDED status scope embedding].
    rewrite Hp1, Hp2.
    split; [done |]. split; [| split; [| split; [| done]]].
    + intros old' p0 [= <-] Hp0. by rewrite Hp0.
    + intros old' [= <-] Hno.
      destruct (custom_properties old) as [| b | n | str | l | m]; cbn;
        try (by rewrite <- ?(assoc_L (++))).
      by destruct (Hno m).
    + intros merged.
      destruct (custom_properties old) as [| b | n | str | l | m]; cbn; try done.
      intros [= <-]. by apply (Hkeys m).
  - eexists. split; [done |].
    cbn [custom_properties onConflictUpdate EXCLUDED status scope embedding].
    rewrite Hp1, Hp2. cbn [jsonb_concat].
    split; [done |]. split; [done |]. split; [done |]. split; [| done].
    intros merged [= <-]. apply (Hkeys ∅). by rewrite (right_id_L ∅ (∪)).
Qed.

(** The staging loader is all or nothing: when it returns a count, the
    table is the one [UpsertItems] produced from the copied rows; when it
    returns an error, the table is the one it started from. *)
Lemma saveSuccessfulItems_commits_or_rolls_back (session : processing.StagingSession)
  (items : list Item) (table table' : ItemsTable) (res : result Z) :
  processing.saveSuccessfulItems session items table = (res, table') ->
  (forall rowsAffected,
     res = Ok rowsAffected ->
     exists staging,
       processing.copyRows session items = Ok staging /\
       UpsertItems (processing.staging_now session) staging table =
         Ok (rowsAffected, table')) /\
  (forall err, res = Err err -> table' = table).
Proof.
  unfold processing.saveSuccessfulItems.
  destruct (processing.beginErr session); [intros [= <- <-]; split; [done | by intros] |].
  destruct (processing.createTempErr session); [intros [= <- <-]; split; [done | by intros] |].
  destruct (processing.copyRows session items) as [staging|] eqn:Ecopy;
    [| intros [= <- <-]; split; [done | by intros]].
  destruct (processing.copyErr session staging);
    [intros [= <- <-]; split; [done | by intros] |].
  destruct (processing.upsertErr session);
    [intros [= <- <-]; split; [done | by intros] |].
  destruct (UpsertItems _ staging table) as [[n t]|] eqn:Eupsert;
    [| intros [= <- <-]; split; [done | by intros]].
  destruct (processing.commitErr session); intros [= <- <-];
    [split; [done | by intros] |].
  split; [| done]. intros rowsAffected [= <-]. by exists staging.
Qed.

(** An oversized or empty embedding is staged as NULL. *)
Lemma embeddingValue_bounds (embeddingSlice : list float32) :
  processing.embeddingValue embeddingSlice =
    if decide (0 < length embeddingSlice <= 384)%nat then Some embeddingSlice else None.
Proof.
  unfold processing.embeddingValue, processing.maxEmbeddingDims.
  destruct (Z.gtb_spec (Z.of_nat (length embeddingSlice)) 0);
    destruct (Z.gtb_spec (Z.of_nat (length embeddingSlice)) 384);
    case_decide; first [done | lia].
Qed.

End repository_facts.

Module api_facts.
Import repository api.

(** C7. A correction request that is accepted stores the corrected data on
    the triage row, sets its status to pending_revalidation, stamps the
    resolver and the time, and adds exactly one to the parent job's
    resolved_rows_count; a request that is answered with an error leaves
    the tables as they were, whichever step failed. *)
Theorem correction_updates_row_and_counter_atomically
  (uuid_Parse : string -> option UUID) (session : Session) (c : Request)
  (db db' : Tables) (resp : Response) :
  foreignKeysHold db -> countersSet db ->
  updateIngestionError uuid_Parse session c db = (resp, db') ->
  (forall code updatedError,
     resp = JSON code updatedError ->
     exists errorID body correctedData row job n,
       uuid_Parse (errorId c) = Some errorID /\
       requestBody c = Ok body /\
       body !! "corrected_data" = Some correctedData /\
       ingestion_errors db !! errorID = Some row /\
       ingestion_jobs db !! job_id row = Some job /\
       resolved_rows_count job = Some n /\
       code = StatusOK /\
       updatedError =
         {| job_id := job_id row;
            timestamp := timestamp row;
            original_row_data := original_row_data row;
            reason_for_failure := reason_for_failure row;
            error_status := "pending_revalidation";
            corrected_data := Some correctedData;
            resolved_at := Some (now session);
            resolved_by := Some placeholderUserID |} /\
       ingestion_errors db' = <[errorID := updatedError]> (ingestion_errors db) /\
       ingestion_jobs db' =
         <[job_id row :=
             {| job_status := job_status job;
                completed_at := completed_at job;
                error_details := error_details job;
                total_rows := total_rows job;
                processed_rows := processed_rows job;
                initial_error_count := initial_error_count job;
                resolved_rows_count := Some (n + 1) |}]> (ingestion_jobs db) /\
       users db' = users db) /\
  (forall code message, resp = HTTPError code message -> db' = db).
Proof.
  intros Hfk Hcount. unfold updateIngestionError.
  destruct (uuid_Parse (errorId c)) as [errorID|] eqn:Eid;
    [| intros [= <- <-]; split; [done | by intros] ].
  destruct (requestBody c) as [body|] eqn:Ebody;
    [| intros [= <- <-]; split; [done | by intros] ].
  destruct (body !! "corrected_data") as [correctedData|] eqn:Ecd;
    [| intros [= <- <-]; split; [done | by intros] ].
  destruct (beginTxErr session); [intros [= <- <-]; split; [done | by intros] |].
  destruct (updateErr session); [intros [= <- <-]; split; [done | by intros] |].
  unfold UpdateIngestionErrorWithCorrection. simpl.
  destruct (ingestion_errors db !! errorID) as [row|] eqn:Erow;
    [| intros [= <- <-]; split; [done | by intros] ].
  case_decide as Huser; [| intros [= <- <-]; split; [done | by intros] ].
  destruct (incrementErr session); [intros [= <- <-]; split; [done | by intros] |].
  unfold IncrementIngestionJobResolvedRows. simpl.
  rewrite lookup_insert_eq. simpl.
  destruct (Hfk errorID row Erow) as [job Ejob]. rewrite Ejob.
  destruct (Hcount _ job Ejob) as [n En]. rewrite En.
  destruct (n + 1 >? maxInt32); [intros [= <- <-]; split; [done | by intros] |].
  destruct (commitErr session); intros [= <- <-]; (split; [| by intros]); [done |].
  intros code updatedError [= <- <-].
  exists errorID, body, correctedData, row, job, n.
  repeat split; done.
Qed.

(** The two invariants assumed above hold after every call of the
    handler: the jobs an error row refers to stay, and the counters stay
    numbers. *)
Lemma updateIngestionError_preserves_invariants
  (uuid_Parse : string -> option UUID) (session : Session) (c : Request)
  (db db' : Tables) (resp : Response) :
  foreignKeysHold db -> countersSet db ->
  updateIngestionError uuid_Parse session c db = (resp, db') ->
  foreignKeysHold db' /\ countersSet db'.
Proof.
  intros Hfk Hcount. unfold updateIngestionError.
  destruct (uuid_Parse (errorId c)) as [errorID|]; [| by intros [= <- <-]].
  destruct (requestBody c) as [body|]; [| by intros [= <- <-]].
  destruct (body !! "corrected_data") as [correctedData|]; [| by intros [= <- <-]].
  destruct (beginTxErr session); [by intros [= <- <-] |].
  destruct (updateErr session); [by intros [= <- <-] |].
  unfold UpdateIngestionErrorWithCorrection. simpl.
  destruct (ingestion_errors db !! errorID) as [row|] eqn:Erow; [| by intros [= <- <-]].
  case_decide as Huser; [| by intros [= <- <-]].
  destruct (incrementErr session); [by intros [= <- <-] |].
  unfold IncrementIngestionJobResolvedRows. simpl.
  rewrite lookup_insert_eq. simpl.
  destruct (Hfk errorID row Erow) as [job Ejob]. rewrite Ejob.
  destruct (Hcount _ job Ejob) as [n En]. rewrite En.
  destruct (n + 1 >? maxInt32); [by intros [= <- <-] |].
  destruct (commitErr session); intros [= <- <-]; [done |].
  split.
  - intros id row' Hl. simpl in *.
    assert (Hjob : is_Some (ingestion_jobs db !! job_id row')).
    { destruct (decide (errorID = id)) as [<-|Hne].
      - rewrite lookup_insert_eq in Hl. injection Hl as <-. simpl. by eexists.
      - rewrite lookup_insert_ne in Hl by done. by eapply Hfk. }
    destruct (decide (job_id row = job_id row')) as [Heq|Hne'].
    + rewrite Heq, lookup_insert_eq. by eexists.
    + by rewrite lookup_insert_ne.
  - intros id job' Hl. simpl in *.
    destruct (decide (job_id row = id)) as [<-|Hne].
    + rewrite lookup_insert_eq in Hl. injection Hl as <-. simpl. by eexists.
    + rewrite lookup_insert_ne in Hl by done. by eapply Hcount.
Qed.

End api_facts.

(** * The properties on concrete rows *)

Module runs.
Import processing processing_facts.

#[local] Existing Instance Fixture.types.
#[local] Existing Instance Fixture.funs.

(** The scenario of the specification: one good row, one row without its
    required id, one row with a status outside the enum, one blank row. *)
Example end_to_end_scenario :
  exists item row1 row2,
    Process
      {| ReportType := "ROSTER"; ItemType := "EMPLOYEE"; ScopeField := "status";
         BusinessKey := ["id"]; EmbedContent_ := None;
         ColumnMappings :=
           [ Fixture.mapping "id" false [] (Fixture.rule true None);
             Fixture.mapping "status" false []
               {| Required := true; AllowZero := None; Enum := ["ACTIVE"; "INACTIVE"];
                  Regex := ""; ExistsInItems := "" |};
             Fixture.mapping "email" false [] (Fixture.rule true None) ] |}
      Fixture.rangeOrder
      (Fixture.file ["id"; "status"; "email"]
         [ ["1"; "ACTIVE"; "a@x.com"]; [""; "ACTIVE"; "b@x.com"];
           ["2"; "PENDING"; "c@x.com"]; [""; ""; ""] ])
      Fixture.queries None =
    Ok {| SuccessfulItems := [item]; TriageRows := [row1; row2];
          BlankRowsDiscarded := 1 |}.
Proof. do 3 eexists. vm_compute. reflexivity. Qed.

Lemma Validate_rejects_iff_witness :
  Validate (Fixture.idDept []) = None.
Proof.
  apply (proj2 (Validate_rejects_iff (Fixture.idDept []))).
  intros [H|[H|[H|[H|[H|H]]]]]; try discriminate H.
  apply H. exists (Fixture.mapping "dept" false [] (Fixture.rule true None)).
  split; [| reflexivity].
  apply elem_of_cons. right. apply elem_of_cons. left. reflexivity.
Defined.

Lemma validationRequired_zero_only_when_disallowed_witness :
  Required (Fixture.rule true (Some false)) = true /\
  (validationRequired Fixture.queries (VInt64 0) (Fixture.rule true (Some false)) <> None <->
     0 = 0 /\ AllowZero (Fixture.rule true (Some false)) = Some false) /\
  validationRequired Fixture.queries (VString (Strings.of_bytes [32; 9; 32]%nat))
    (Fixture.rule true (Some false)) = Some (errorString "is a required field").
Proof.
  split; [reflexivity |]. split.
  - apply (proj1 (validationRequired_zero_only_when_disallowed Fixture.queries
                    (Fixture.rule true (Some false)) eq_refl) 0 (VInt64 0)).
    right; right; reflexivity.
  - apply (proj2 (proj2 (proj2 (proj2 (proj2 (proj2
             (validationRequired_zero_only_when_disallowed Fixture.queries
                (Fixture.rule true (Some false)) eq_refl))))))
             [Strings.of_bytes [32%nat]; Strings.of_bytes [9%nat];
              Strings.of_bytes [32%nat]]).
    repeat (apply List.Forall_cons; [apply (bool_decide_unpack _); vm_compute; exact I |]).
    apply List.Forall_nil.
Defined.

(** C2, as stated, fails: with [required] set and no [allow_zero] in the
    rule, an integer zero and a decimal zero pass the check. *)
Lemma required_without_allow_zero_accepts_zero :
  Required (Fixture.rule true None) = true /\
  AllowZero (Fixture.rule true None) = None /\
  validationRequired Fixture.queries (VInt64 0) (Fixture.rule true None) = None /\
  validationRequired Fixture.queries (VDecimal (0 : Z)) (Fixture.rule true None) = None.
Proof. repeat split. Qed.

Lemma Process_classifies_every_row_witness :
  exists result,
    Process (Fixture.idDept []) Fixture.rangeOrder Fixture.fourRows Fixture.queries None =
      Ok result /\
    4 = Z.of_nat (length (SuccessfulItems result)) +
        Z.of_nat (length (TriageRows result)) + BlankRowsDiscarded result.
Proof.
  eexists. split; [vm_compute; reflexivity |].
  edestruct (Process_classifies_every_row (Fixture.idDept []) Fixture.rangeOrder
               Fixture.fourRows Fixture.queries None)
    as (headers & allRecords & _ & Hall & Hsum & _); [vm_compute; reflexivity |].
  injection Hall as <-. exact Hsum.
Defined.

Lemma processRow_first_successful_attempt_witness :
  attemptFails " ab " {| Transforms := ["to_integer"] |} /\
  applyTransforms " ab " ["trim_space"; "to_uppercase"] = Ok (VString "AB") /\
  processRow_loop (fun _ => Fixture.order) Fixture.queries [" ab "; "claims"]
    (buildHeaderMap ["id"; "dept"]) 0
    [Fixture.mapping "id" false [["to_integer"]; ["trim_space"; "to_uppercase"]]
       (Fixture.rule true None)] ∅ =
    Ok (<["id" := VString "AB"]> ∅).
Proof.
  assert (Hfail : attemptFails " ab " {| Transforms := ["to_integer"] |})
    by (eexists; vm_compute; reflexivity).
  assert (Hok : applyTransforms " ab " ["trim_space"; "to_uppercase"] = Ok (VString "AB"))
    by (vm_compute; reflexivity).
  split; [exact Hfail | split; [exact Hok |]].
  pose proof (processRow_first_successful_attempt (fun _ => Fixture.order) Fixture.queries
                [" ab "; "claims"] (buildHeaderMap ["id"; "dept"]) 0%nat
                (Fixture.mapping "id" false [["to_integer"]; ["trim_space"; "to_uppercase"]]
                   (Fixture.rule true None)) [] ∅) as Hthm.
  cbv zeta in Hthm. destruct Hthm as [Hfirst _].
  assert (Hfailed : Forall (attemptFails " ab ") [ {| Transforms := ["to_integer"] |} ])
    by (constructor; [exact Hfail | constructor]).
  rewrite (Hfirst [ {| Transforms := ["to_integer"] |} ]
             {| Transforms := ["trim_space"; "to_uppercase"] |} [] (VString "AB") eq_refl
             Hfailed Hok).
  vm_compute. reflexivity.
Defined.

(** C9, as stated, fails: the mapping of [id] names a transform that is not
    registered in its first attempt; the attempt fails with the unknown-name
    error, the second attempt succeeds, and the row is a successful item
    with no triage row and no error from [Process]. *)
Lemma unknown_transform_error_is_discarded :
  transformRegistry !! "no_such_transform" = None /\
  applyTransforms " 7 " ["no_such_transform"] =
    Err (errorString "unknown transform function: no_such_transform") /\
  exists item,
    Process (Fixture.idDept [["no_such_transform"]; ["trim_space"]]) Fixture.rangeOrder
      Fixture.oneRow Fixture.queries None =
    Ok {| SuccessfulItems := [item]; TriageRows := []; BlankRowsDiscarded := 0 |}.
Proof.
  split; [vm_compute; reflexivity |].
  split; [vm_compute; reflexivity |].
  eexists. vm_compute. reflexivity.
Qed.

Lemma unknown_transform_is_an_attempt_failure_witness :
  transformRegistry !! transformName "no_such_transform" = None /\
  applyTransforms " 7 " ["no_such_transform"] =
    Err (errorString "unknown transform function: no_such_transform").
Proof.
  assert (Hreg : transformRegistry !! transformName "no_such_transform" = None)
    by (vm_compute; reflexivity).
  split; [exact Hreg |].
  pose proof (unknown_transform_is_an_attempt_failure (fun _ => Fixture.order)
                Fixture.queries [" 7 "; "claims"] (buildHeaderMap ["id"; "dept"]) 0%nat
                (Fixture.mapping "id" false [["no_such_transform"]; ["trim_space"]]
                   (Fixture.rule true None)) [] ∅
                [] [] "no_such_transform" {| Transforms := ["no_such_transform"] |}
                (VString " 7 ")) as Hthm.
  cbv zeta in Hthm.
  exact (proj1 (Hthm Hreg eq_refl eq_refl)).
Defined.

Lemma repair_merges_three_fields_witness :
  length ["1"; "a"; "b"; "c"; "x"] = (length ["id"; "note"; "dept"] + 2)%nat /\
  MergeExcessFields (Fixture.mapping "note" true [] (Fixture.rule false None)) = true /\
  buildHeaderMap ["id"; "note"; "dept"] !! "note" = Some 1%nat /\
  repairRecord ["1"; "a"; "b"; "c"; "x"] 3
    (findMergeColumnIndex (buildHeaderMap ["id"; "note"; "dept"])
       (ColumnMappings Fixture.noteConfig)) !! 1%nat = Some "a,b,c".
Proof.
  assert (Hh : buildHeaderMap ["id"; "note"; "dept"] !! "note" = Some 1%nat)
    by (vm_compute; reflexivity).
  split; [reflexivity | split; [reflexivity | split; [exact Hh |]]].
  pose proof (repair_merges_three_fields ["id"; "note"; "dept"] ["1"; "a"; "b"; "c"; "x"]
                [Fixture.mapping "id" false [] (Fixture.rule true None)]
                [Fixture.mapping "dept" false [] (Fixture.rule true None)]
                (Fixture.mapping "note" true [] (Fixture.rule false None)) 1%nat) as Hthm.
  cbv zeta in Hthm.
  assert (Hpre : Forall (fun m => MergeExcessFields m = false)
                   [Fixture.mapping "id" false [] (Fixture.rule true None)])
    by (constructor; [reflexivity | constructor]).
  assert (Hpost : Forall (fun m => MergeExcessFields m = false)
                    [Fixture.mapping "dept" false [] (Fixture.rule true None)])
    by (constructor; [reflexivity | constructor]).
  destruct (Hthm eq_refl Hpre Hpost eq_refl Hh)
    as (_ & (f0 & f1 & f2 & H0 & H1 & H2 & Hjoin) & _).
  injection H0 as <-. injection H1 as <-. injection H2 as <-.
  exact Hjoin.
Defined.

Lemma business_key_first_missing_field_triages_once_witness :
  exists customPropsJSON,
    json_Marshal (<["id" := VString "7"]> (<["dept" := VString "claims"]> ∅)) =
      Ok customPropsJSON /\
    length
      (TriageRows
         (finishRow Fixture.threeKeys ["id"; "dept"] "dept" None 0 ["7"; "claims"]
            (<["id" := VString "7"]> (<["dept" := VString "claims"]> ∅))
            {| SuccessfulItems := []; TriageRows := []; BlankRowsDiscarded := 0 |})) =
      1%nat.
Proof.
  eexists. split; [vm_compute; reflexivity |].
  epose proof (business_key_first_missing_field_triages_once Fixture.threeKeys
                ["id"; "dept"] "dept" None 0%nat ["7"; "claims"]
                (<["id" := VString "7"]> (<["dept" := VString "claims"]> ∅))
                {| SuccessfulItems := []; TriageRows := []; BlankRowsDiscarded := 0 |}
                [] _ "claims") as Hthm.
  cbv zeta in Hthm.
  destruct Hthm as [_ Hmiss]; [reflexivity | vm_compute; reflexivity | vm_compute; reflexivity |].
  destruct (Hmiss ["id"] "region" ["year"] [VString "7"] eq_refl) as (_ & Hlen & _).
  - constructor; [| constructor]. split; [vm_compute; reflexivity | discriminate].
  - left. vm_compute. reflexivity.
  - exact Hlen.
Defined.


Lemma UpsertItems_twice_merges_custom_properties_witness :
  repository.UpsertItems 1 [Fixture.stagedRow Fixture.props1 "claims"] Fixture.noItems =
    Ok (1, Fixture.itemsAfter 1 [Fixture.stagedRow Fixture.props1 "claims"]
             Fixture.noItems) /\
  exists stored,
    repository.keyed
      (Fixture.itemsAfter 2 [Fixture.stagedRow Fixture.props2 "audit"]
         (Fixture.itemsAfter 1 [Fixture.stagedRow Fixture.props1 "claims"]
            Fixture.noItems)) !! ("EMPLOYEE", "7") = Some stored /\
    repository.custom_properties stored =
      repository.JObject (Fixture.props2 ∪ Fixture.props1) /\
    repository.scope stored = Some "audit".
Proof.
  assert (H1 : repository.UpsertItems 1 [Fixture.stagedRow Fixture.props1 "claims"]
                 Fixture.noItems =
               Ok (1, Fixture.itemsAfter 1 [Fixture.stagedRow Fixture.props1 "claims"]
                        Fixture.noItems))
    by (vm_compute; reflexivity).
  split; [exact H1 |].
  destruct (repository_facts.UpsertItems_twice_merges_custom_properties 1 2
              [Fixture.stagedRow Fixture.props1 "claims"]
              [Fixture.stagedRow Fixture.props2 "audit"]
              Fixture.noItems
              (Fixture.itemsAfter 1 [Fixture.stagedRow Fixture.props1 "claims"]
                 Fixture.noItems)
              (Fixture.itemsAfter 2 [Fixture.stagedRow Fixture.props2 "audit"]
                 (Fixture.itemsAfter 1 [Fixture.stagedRow Fixture.props1 "claims"]
                    Fixture.noItems))
              1 1
              (Fixture.stagedRow Fixture.props1 "claims")
              (Fixture.stagedRow Fixture.props2 "audit")
              "EMPLOYEE" "7" Fixture.props1 Fixture.props2)
    as (stored & Hl & Hnew & _ & _ & _ & _ & _ & Hscope & _).
  - exact H1.
  - vm_compute. reflexivity.
  - apply elem_of_cons. left. reflexivity.
  - apply elem_of_cons. left. reflexivity.
  - reflexivity.
  - reflexivity.
  - reflexivity.
  - reflexivity.
  - reflexivity.
  - reflexivity.
  - exists stored. split; [exact Hl |]. split; [| exact Hscope].
    apply Hnew. apply lookup_empty.
Defined.

(** C6, as stated, fails in three ways. The status stored is ['active']
    though the second staged row carries [inactive]. Over an object stored
    before, the result keeps a key that neither payload has, so it is not the
    merge of the two payloads. Over an array stored before, both upserts
    succeed and the result is an array, not an object. *)
Lemma second_upsert_keeps_literal_status_and_old_value :
  repository.staged_status Fixture.inactiveRow = "inactive" /\
  (repository.status <$>
     repository.keyed
       (Fixture.itemsAfter 2 [Fixture.inactiveRow]
          (Fixture.itemsAfter 1 [Fixture.stagedRow Fixture.props1 "claims"]
             Fixture.noItems)) !! ("EMPLOYEE", "7")) = Some "active" /\
  (Fixture.props2 ∪ Fixture.props1) !! "badge" = None /\
  (exists n1 n2 items1 items2 stored merged,
     repository.UpsertItems 1 [Fixture.stagedRow Fixture.props1 "claims"]
       (Fixture.storedItems (repository.JObject Fixture.oldProps)) = Ok (n1, items1) /\
     repository.UpsertItems 2 [Fixture.stagedRow Fixture.props2 "audit"] items1 =
       Ok (n2, items2) /\
     repository.keyed items2 !! ("EMPLOYEE", "7") = Some stored /\
     repository.custom_properties stored = repository.JObject merged /\
     merged !! "badge" = Some (repository.JNumber "12")) /\
  (exists n1 n2 items1 items2 stored,
     repository.UpsertItems 1 [Fixture.stagedRow Fixture.props1 "claims"]
       (Fixture.storedItems (repository.JArray [])) = Ok (n1, items1) /\
     repository.UpsertItems 2 [Fixture.stagedRow Fixture.props2 "audit"] items1 =
       Ok (n2, items2) /\
     repository.keyed items2 !! ("EMPLOYEE", "7") = Some stored /\
     repository.custom_properties stored =
       repository.JArray
         [repository.JObject Fixture.props1; repository.JObject Fixture.props2]).
Proof.
  split; [reflexivity |]. split; [vm_compute; reflexivity |].
  split; [vm_compute; reflexivity |]. split.
  - eexists _, _, _, _, _, _.
    split; [vm_compute; reflexivity |]. split; [vm_compute; reflexivity |].
    split; [vm_compute; reflexivity |]. split; vm_compute; reflexivity.
  - eexists _, _, _, _, _.
    split; [vm_compute; reflexivity |]. split; [vm_compute; reflexivity |].
    split; vm_compute; reflexivity.
Qed.

Lemma correction_updates_row_and_counter_atomically_witness :
  api.foreignKeysHold Fixture.triageTables /\
  api.countersSet Fixture.triageTables /\
  exists job,
    repository.ingestion_jobs
      (snd (api.updateIngestionError Fixture.parseId Fixture.quietSession
              Fixture.correction Fixture.triageTables)) !! 10%N = Some job /\
    repository.resolved_rows_count job = Some 1.
Proof.
  assert (Hfk : api.foreignKeysHold Fixture.triageTables).
  { intros id row Hl.
    change (({[ 20%N := Fixture.triageError ]} : gmap repository.UUID _) !! id = Some row)
      in Hl.
    apply lookup_singleton_Some in Hl as [_ <-].
    exists Fixture.triageJob. vm_compute. reflexivity. }
  assert (Hc : api.countersSet Fixture.triageTables).
  { intros id job Hl.
    change (({[ 10%N := Fixture.triageJob ]} : gmap repository.UUID _) !! id = Some job)
      in Hl.
    apply lookup_singleton_Some in Hl as [_ <-].
    exists 0. reflexivity. }
  split; [exact Hfk | split; [exact Hc |]].
  destruct (api_facts.correction_updates_row_and_counter_atomically Fixture.parseId
              Fixture.quietSession Fixture.correction Fixture.triageTables
              (snd (api.updateIngestionError Fixture.parseId Fixture.quietSession
                      Fixture.correction Fixture.triageTables))
              (fst (api.updateIngestionError Fixture.parseId Fixture.quietSession
                      Fixture.correction Fixture.triageTables))
              Hfk Hc) as [Hok _].
  - by destruct (api.updateIngestionError _ _ _ _).
  - edestruct Hok as (errorID & body & cd & row & job & n & Hid & _ & _ & Hrow & Hjob & Hn &
                      _ & _ & _ & Hjobs & _); [vm_compute; reflexivity |].
    injection Hid as <-.
    change (({[ 20%N := Fixture.triageError ]} : gmap repository.UUID _) !! 20%N = Some row)
      in Hrow.
    apply lookup_singleton_Some in Hrow as [_ <-].
    change (({[ 10%N := Fixture.triageJob ]} : gmap repository.UUID _) !! 10%N = Some job)
      in Hjob.
    apply lookup_singleton_Some in Hjob as [_ <-].
    injection Hn as <-.
    eexists. rewrite Hjobs. split; [apply lookup_insert_eq | reflexivity].
Defined.

End runs.

(** * Further properties of the staging loader *)

Module staging_facts.
Import repository.

Lemma UpsertItems_rows_succeeds_iff (now : Z) (staging : list StagedRow)
  (touched : gset (string * string)) (items : ItemsTable) (n : Z) :
  (exists res, UpsertItems_rows now staging touched items n = Ok res) <->
  NoDup (omap stagedKey staging) /\
  (forall key, key ∈ omap stagedKey staging -> key ∉ touched).
Proof.
  revert touched items n.
  induction staging as [|r rest IH]; intros touched items n.
  - simpl. split; [intros _ | by eauto].
    split; [constructor | intros key Hin; by apply elem_of_nil in Hin].
  - cbn [UpsertItems_rows omap list_omap].
    destruct (staged_business_key r) as [k|] eqn:Ek.
    + assert (Hk : stagedKey r = Some (staged_item_type r, k))
        by (unfold stagedKey; by rewrite Ek).
      rewrite Hk. case_decide as Ht.
      * split; [by intros [res Hres] |].
        intros [_ Hfresh]. exfalso.
        apply (Hfresh (staged_item_type r, k)); [by left | done].
      * rewrite IH, NoDup_cons. split.
        -- intros [Hnd Hfresh]. split; [split; [| done] |].
           ++ intros Hin. apply (Hfresh _ Hin), elem_of_union. left.
              by apply elem_of_singleton.
           ++ intros key Hin. apply elem_of_cons in Hin as [-> | Hin]; [done |].
              intros Hc. apply (Hfresh _ Hin), elem_of_union. by right.
        -- intros [[Hnotin Hnd] Hfresh]. split; [done |].
           intros key Hin. apply not_elem_of_union. split.
           ++ intros Heq. apply elem_of_singleton in Heq as ->. done.
           ++ apply Hfresh. by right.
    + assert (Hk : stagedKey r = None) by (unfold stagedKey; by rewrite Ek).
      rewrite Hk. apply IH.
Qed.

(** X1. [UpsertItems] succeeds exactly when no two staged rows carry the
    same non-null [(item_type, business_key)]: a batch that holds a key twice
    is refused as a whole. *)
Theorem UpsertItems_succeeds_iff_distinct_keys (now : Z) (staging : list StagedRow)
  (items : ItemsTable) :
  (exists res, UpsertItems now staging items = Ok res) <->
  NoDup (omap stagedKey staging).
Proof.
  unfold UpsertItems. rewrite UpsertItems_rows_succeeds_iff.
  split; [by intros [? _] | intros Hnd; split; [done |]].
  intros key _. apply not_elem_of_empty.
Qed.

Lemma UpsertItems_rows_count (now : Z) (staging : list StagedRow)
  (touched : gset (string * string)) (items items' : ItemsTable) (n n' : Z) :
  UpsertItems_rows now staging touched items n = Ok (n', items') ->
  n' = n + Z.of_nat (length staging).
Proof.
  revert touched items n.
  induction staging as [|r rest IH]; intros touched items n Hrun; simpl in Hrun.
  - injection Hrun as <- _. simpl. lia.
  - destruct (staged_business_key r).
    + case_decide; [done |]. apply IH in Hrun. simpl length. lia.
    + apply IH in Hrun. simpl length. lia.
Qed.

Lemma UpsertItems_rows_created_at (now : Z) (staging : list StagedRow)
  (touched : gset (string * string)) (items items' : ItemsTable) (n n' : Z)
  (key : string * string) (old : ItemCols) :
  UpsertItems_rows now staging touched items n = Ok (n', items') ->
  keyed items !! key = Some old ->
  exists new, keyed items' !! key = Some new /\ created_at new = created_at old.
Proof.
  revert touched items n old.
  induction staging as [|r rest IH]; intros touched items n old Hrun Hold; simpl in Hrun.
  - injection Hrun as _ <-. by exists old.
  - destruct (staged_business_key r) as [k|].
    + case_decide; [done |].
      destruct (decide ((staged_item_type r, k) = key)) as [Heq|Hne].
      * rewrite Heq, Hold in Hrun.
        destruct (IH _ _ _ (onConflictUpdate now old (EXCLUDED now r)) Hrun)
          as (new & Hnew & Hc); [simpl; by rewrite lookup_insert_eq |].
        by exists new.
      * eapply IH; [exact Hrun |]. simpl. by rewrite lookup_insert_ne.
    + eapply IH; [exact Hrun | done].
Qed.

Lemma UpsertItems_rows_unkeyed (now : Z) (staging : list StagedRow)
  (touched : gset (string * string)) (items items' : ItemsTable) (n n' : Z) :
  UpsertItems_rows now staging touched items n = Ok (n', items') ->
  exists added, unkeyed items' = unkeyed items ++ added.
Proof.
  revert touched items n.
  induction staging as [|r rest IH]; intros touched items n Hrun; simpl in Hrun.
  - injection Hrun as _ <-. exists []. by rewrite app_nil_r.
  - destruct (staged_business_key r) as [k|].
    + case_decide; [done |]. apply IH in Hrun as [added Ha]. by exists added.
    + apply IH in Hrun as [added Ha]. simpl in Ha.
      eexists. rewrite Ha, <- app_assoc. done.
Qed.

(** X2. A successful [UpsertItems] reports one affected row per staged row,
    deletes nothing and touches only the staged keys: a row whose key is not
    staged is unchanged, every key stored before is still stored and keeps
    its [created_at], and the rows with a null key are still there, in their
    order. *)
Theorem UpsertItems_keeps_other_rows (now : Z) (staging : list StagedRow)
  (items items' : ItemsTable) (rowsAffected : Z) :
  UpsertItems now staging items = Ok (rowsAffected, items') ->
  rowsAffected = Z.of_nat (length staging) /\
  (forall key, key ∉ omap stagedKey staging -> keyed items' !! key = keyed items !! key) /\
  (forall key old,
     keyed items !! key = Some old ->
     exists new, keyed items' !! key = Some new /\ created_at new = created_at old) /\
  (exists added, unkeyed items' = unkeyed items ++ added).
Proof.
  unfold UpsertItems. intros Hrun. split; [| split; [| split]].
  - apply UpsertItems_rows_count in Hrun. lia.
  - intros key Hno.
    apply (repository_facts.UpsertItems_rows_other _ _ _ _ _ _ _ _ Hrun).
    intros r Hr Hk. apply Hno. apply list_elem_of_omap. eauto.
  - intros key old. by apply (UpsertItems_rows_created_at _ _ _ _ _ _ _ _ _ Hrun).
  - by apply (UpsertItems_rows_unkeyed _ _ _ _ _ _ _ Hrun).
Qed.

(** X3. Upserting the same batch a second time changes nothing but
    [updated_at] on the keyed rows: with object payloads (and objects stored
    before), scope, status, custom properties, embedding and [created_at] of
    every keyed row are the same after the second upsert as after the first. *)
Theorem UpsertItems_same_batch_twice (now1 now2 : Z) (staging : list StagedRow)
  (items0 items1 items2 : ItemsTable) (n1 n2 : Z) :
  UpsertItems now1 staging items0 = Ok (n1, items1) ->
  UpsertItems now2 staging items1 = Ok (n2, items2) ->
  (forall r, r ∈ staging -> exists p, staged_custom_properties r = JObject p) ->
  (forall key old, keyed items0 !! key = Some old ->
     exists p0, custom_properties old = JObject p0) ->
  forall key row1,
    keyed items1 !! key = Some row1 ->
    exists row2,
      keyed items2 !! key = Some row2 /\
      scope row2 = scope row1 /\ status row2 = status row1 /\
      custom_properties row2 = custom_properties row1 /\
      embedding row2 = embedding row1 /\ created_at row2 = created_at row1.
Proof.
  intros Hu1 Hu2 Hobj Hold key row1 Hrow1.
  destruct (decide (key ∈ omap stagedKey staging)) as [Hin|Hnot].
  - apply list_elem_of_omap in Hin as (r & Hr & Hk).
    pose proof (repository_facts.UpsertItems_rows_lookup _ _ _ _ _ _ _ _ _ Hu1 Hr Hk) as L1.
    pose proof (repository_facts.UpsertItems_rows_lookup _ _ _ _ _ _ _ _ _ Hu2 Hr Hk) as L2.
    rewrite Hrow1 in L2. rewrite Hrow1 in L1. injection L1 as L1.
    destruct (Hobj r Hr) as [p Hp].
    eexists. split; [exact L2 |].
    destruct (keyed items0 !! key) as [old|] eqn:E0; subst row1; simpl.
    + destruct (Hold key old E0) as [p0 Hp0]. rewrite Hp0, Hp. simpl.
      repeat split; try done.
      by rewrite (assoc_L (∪)), (idemp_L (∪)).
    + rewrite Hp. simpl. repeat split; try done. by rewrite (idemp_L (∪)).
  - exists row1. split; [| done].
    rewrite <- Hrow1.
    apply (repository_facts.UpsertItems_rows_other _ _ _ _ _ _ _ _ Hu2).
    intros r Hr Hk. apply Hnot. apply list_elem_of_omap. eauto.
Qed.

(** X4. An item a successful upsert staged is seen by the cross-reference
    check afterwards: [ItemExistsByBusinessKey] answers 1 for its type and
    key and [validateExistsInItems] accepts the key for that type; for a key
    that is neither staged nor stored the query answers 0 and a non-empty
    value is refused. *)
Theorem upserted_item_passes_exists_in_items `{EF : ExtFuns} (now : Z)
  (staging : list StagedRow) (items items' : ItemsTable) (rowsAffected : Z) :
  UpsertItems now staging items = Ok (rowsAffected, items') ->
  (forall r k rule,
     r ∈ staging -> staged_business_key r = Some k ->
     processing.ExistsInItems rule = staged_item_type r ->
     ItemExistsByBusinessKey_query
       {| ItemType_ := staged_item_type r;
          BusinessKey_ := {| pgtype.String_ := k; pgtype.Valid := true |} |} items' = 1 /\
     processing.validateExistsInItems (itemsQuerier items') (VString k) rule = None) /\
  (forall itemType k rule,
     (itemType, k) ∉ omap stagedKey staging -> keyed items !! (itemType, k) = None ->
     processing.ExistsInItems rule = itemType -> itemType <> "" -> k <> "" ->
     ItemExistsByBusinessKey_query
       {| ItemType_ := itemType;
          BusinessKey_ := {| pgtype.String_ := k; pgtype.Valid := true |} |} items' = 0 /\
     processing.validateExistsInItems (itemsQuerier items') (VString k) rule <> None).
Proof.
  intros Hrun. split.
  - intros r k rule Hr Hk Hrule.
    assert (Hkey : stagedKey r = Some (staged_item_type r, k))
      by (unfold stagedKey; by rewrite Hk).
    pose proof (repository_facts.UpsertItems_rows_lookup _ _ _ _ _ _ _ _ _ Hrun Hr Hkey) as L.
    assert (Hq : ItemExistsByBusinessKey_query
                   {| ItemType_ := staged_item_type r;
                      BusinessKey_ := {| pgtype.String_ := k; pgtype.Valid := true |} |}
                   items' = 1)
      by (unfold ItemExistsByBusinessKey_query; simpl; by rewrite L).
    split; [exact Hq |].
    unfold processing.validateExistsInItems. rewrite Hrule.
    destruct (String.eqb (staged_item_type r) ""); [done |].
    destruct (String.eqb k ""); [done |].
    unfold itemsQuerier. cbn [ItemExistsByBusinessKey]. by rewrite Hq.
  - intros itemType k rule Hno Hnone Hrule Ht Hk.
    assert (Hq : ItemExistsByBusinessKey_query
                   {| ItemType_ := itemType;
                      BusinessKey_ := {| pgtype.String_ := k; pgtype.Valid := true |} |}
                   items' = 0).
    { unfold ItemExistsByBusinessKey_query. simpl.
      rewrite (repository_facts.UpsertItems_rows_other _ _ _ _ _ _ _ (itemType, k) Hrun).
      - by rewrite Hnone.
      - intros r Hr Hkey. apply Hno, list_elem_of_omap. eauto. }
    split; [exact Hq |].
    unfold processing.validateExistsInItems. rewrite Hrule.
    apply String.eqb_neq in Ht. apply String.eqb_neq in Hk. rewrite Ht, Hk.
    unfold itemsQuerier. cbn [ItemExistsByBusinessKey]. by rewrite Hq.
Qed.

Lemma copyRows_Forall2 (session : processing.StagingSession) (items : list Item)
  (staging : list StagedRow) :
  processing.copyRows session items = Ok staging ->
  Forall2 (fun item r => processing.copyRow session item = Ok r) items staging.
Proof.
  revert staging. induction items as [|item rest IH]; intros staging; simpl.
  - intros [= <-]. constructor.
  - destruct (processing.copyRow session item) as [r|] eqn:Er; [| done].
    destruct (processing.copyRows session rest) as [rs|]; [| done].
    intros [= <-]. constructor; [done | by apply IH].
Qed.

(** X5. What [saveSuccessfulItems] copies to the staging table: one row per
    item, in order, with the item's type, status, scope and key; the
    embedding is staged as is when it has between 1 and 384 elements and as
    NULL otherwise, so no staged embedding is empty or longer than 384. *)
Theorem copyRows_stages_every_item (session : processing.StagingSession)
  (items : list Item) (staging : list StagedRow) :
  processing.copyRows session items = Ok staging ->
  length staging = length items /\
  Forall2
    (fun item r =>
       staged_item_type r = ItemType item /\
       staged_status r = Status item /\
       staged_scope r = processing.textValue (Scope item) /\
       staged_business_key r = processing.textValue (BusinessKey item) /\
       processing.jsonb_in session (CustomProperties item) =
         Some (staged_custom_properties r) /\
       staged_embedding r =
         (if decide (0 < length (Embedding item) <= 384)%nat
          then Some (Embedding item) else None))
    items staging /\
  Forall
    (fun r => forall e, staged_embedding r = Some e -> (0 < length e <= 384)%nat)
    staging.
Proof.
  intros Hcopy. apply copyRows_Forall2 in Hcopy.
  split; [symmetry; by eapply Forall2_length |].
  assert (Hrows : Forall2
    (fun item r =>
       staged_item_type r = ItemType item /\
       staged_status r = Status item /\
       staged_scope r = processing.textValue (Scope item) /\
       staged_business_key r = processing.textValue (BusinessKey item) /\
       processing.jsonb_in session (CustomProperties item) =
         Some (staged_custom_properties r) /\
       staged_embedding r =
         (if decide (0 < length (Embedding item) <= 384)%nat
          then Some (Embedding item) else None))
    items staging).
  { eapply Forall2_impl; [exact Hcopy |].
    intros item r. unfold processing.copyRow.
    destruct (processing.jsonb_in session (CustomProperties item)) as [props|] eqn:Ep;
      [| done].
    intros [= <-]. simpl.
    rewrite repository_facts.embeddingValue_bounds. done. }
  split; [exact Hrows |].
  clear Hcopy. induction Hrows as [|item r items staging Hr _ IH]; constructor; [| exact IH].
  destruct Hr as (_ & _ & _ & _ & _ & He). intros e Hse. rewrite He in Hse.
  case_decide as Hb; [| done]. by injection Hse as <-.
Qed.

(** X6. [saveSuccessfulItems] is all or nothing, and counts every item:
    when it returns an error the table [items] is as before the call; when it
    returns a count, the count is the number of items and the table is the
    one [UpsertItems] made from the copied rows. *)
Theorem saveSuccessfulItems_all_or_nothing (session : processing.StagingSession)
  (items : list Item) (table table' : ItemsTable) (res : result Z) :
  processing.saveSuccessfulItems session items table = (res, table') ->
  (forall err, res = Err err -> table' = table) /\
  (forall rowsAffected,
     res = Ok rowsAffected ->
     rowsAffected = Z.of_nat (length items) /\
     exists staging,
       processing.copyRows session items = Ok staging /\
       UpsertItems (processing.staging_now session) staging table =
         Ok (rowsAffected, table')).
Proof.
  intros Hsave.
  destruct (repository_facts.saveSuccessfulItems_commits_or_rolls_back _ _ _ _ _ Hsave)
    as [Hok Herr].
  split; [exact Herr |].
  intros rowsAffected Hres. destruct (Hok rowsAffected Hres) as (staging & Hcopy & Hup).
  split; [| by exists staging].
  unfold UpsertItems in Hup. apply UpsertItems_rows_count in Hup.
  apply copyRows_Forall2, Forall2_length in Hcopy. lia.
Qed.

End staging_facts.

(** * Further properties of the row pipeline *)

Module row_facts.
Import processing processing_facts.

Section row_pipeline.
Context `{EF : ExtFuns}.

Lemma missingHeader_None (headerMap : gmap string nat) (mappings : list ColumnMapping) :
  missingHeader headerMap mappings = None <->
  forall mapping, mapping ∈ mappings -> is_Some (headerMap !! CSVHeader mapping).
Proof.
  induction mappings as [|m rest IH]; simpl.
  - split; [intros _ mapping Hin; by apply elem_of_nil in Hin | done].
  - destruct (headerMap !! CSVHeader m) as [idx|] eqn:E.
    + rewrite IH. split.
      * intros Hrest mapping Hin. apply elem_of_cons in Hin as [-> | Hin]; [| by apply Hrest].
        rewrite E. by eexists.
      * intros Hall mapping Hin. apply Hall. by right.
    + split; [done |]. intros Hall.
      destruct (Hall m) as [x Hx]; [by left |]. by rewrite E in Hx.
Qed.

(** The scope loop stops at the first mapping whose CSV header is the
    scope field: it finds a JSON field name exactly when that first mapping
    has a non-empty one. *)
Lemma findScopeJSONField_not_empty_iff (scopeField : string)
  (mappings : list ColumnMapping) :
  findScopeJSONField scopeField mappings <> "" <->
  exists pre mapping post,
    mappings = pre ++ mapping :: post /\
    Forall (fun m => CSVHeader m <> scopeField) pre /\
    CSVHeader mapping = scopeField /\ JSONField mapping <> "".
Proof.
  induction mappings as [|m rest IH]; cbn [findScopeJSONField].
  - split; [done |]. intros (pre & mapping & post & Heq & _). by destruct pre.
  - destruct (String.eqb_spec (CSVHeader m) scopeField) as [Hm | Hm].
    + split.
      * intros Hne. exists [], m, rest. split; [done |]. split; [constructor | done].
      * intros (pre & mapping & post & Heq & Hpre & Hh & Hj).
        destruct pre as [|m0 pre]; simpl in Heq.
        -- by injection Heq as -> _.
        -- injection Heq as -> _. apply List.Forall_cons_iff in Hpre as [Hm0 _]. done.
    + rewrite IH. split.
      * intros (pre & mapping & post & -> & Hpre & Hh & Hj).
        exists (m :: pre), mapping, post. split; [done |].
        split; [by constructor | done].
      * intros (pre & mapping & post & Heq & Hpre & Hh & Hj).
        destruct pre as [|m0 pre]; simpl in Heq.
        -- injection Heq as -> _. done.
        -- injection Heq as -> ->. apply List.Forall_cons_iff in Hpre as [_ Hpre].
           by exists pre, mapping, post.
Qed.

(** X7. Whether [Process] returns a result is decided by the header row,
    the reading of the records and the configuration alone: it returns one
    exactly when both reads succeed, the file has every mapped header, and
    the first mapping whose CSV header is the scope field has a non-empty
    JSON field name (a later mapping of the scope field is not looked at).
    No content of a data row, answer of the store or embedder makes it
    return an error. *)
Theorem Process_returns_iff (config : IngestionConfig)
  (rangeOrder : nat -> nat -> list string) (file : Reader)
  (queries : repository.Querier) (embedder : option EmbedderFunc) :
  (exists result, Process config rangeOrder file queries embedder = Ok result) <->
  exists headers allRecords,
    Read file = Ok headers /\
    ReadAll file = Ok allRecords /\
    (forall mapping, mapping ∈ ColumnMappings config ->
       is_Some (buildHeaderMap headers !! CSVHeader mapping)) /\
    exists pre scopeMapping post,
      ColumnMappings config = pre ++ scopeMapping :: post /\
      Forall (fun m => CSVHeader m <> ScopeField config) pre /\
      CSVHeader scopeMapping = ScopeField config /\
      JSONField scopeMapping <> "".
Proof.
  unfold Process. split.
  - intros [result HP].
    destruct (Read file) as [headers|]; [| done].
    destruct (missingHeader _ _) eqn:Emiss; [done |].
    destruct (ReadAll file) as [allRecords|]; [| done].
    destruct (String.eqb_spec (findScopeJSONField (ScopeField config) (ColumnMappings config))
                "") as [|Hne]; [done |].
    exists headers, allRecords. split; [done | split; [done | split]].
    + by apply missingHeader_None.
    + by apply findScopeJSONField_not_empty_iff.
  - intros (headers & allRecords & -> & -> & Hall & Hscope).
    apply missingHeader_None in Hall. rewrite Hall.
    apply findScopeJSONField_not_empty_iff in Hscope.
    destruct (String.eqb_spec (findScopeJSONField (ScopeField config) (ColumnMappings config))
                ""); [done | by eexists].
Qed.

Lemma processRow_loop_dom (rangeOrder : nat -> list string) (queries : repository.Querier)
  (record : list string) (headerMap : gmap string nat) (idx : nat)
  (mappings : list ColumnMapping) (processedData data : gmap string value) :
  processRow_loop rangeOrder queries record headerMap idx mappings processedData = Ok data ->
  dom data = dom processedData ∪ list_to_set (JSONField <$> mappings).
Proof.
  revert idx processedData.
  induction mappings as [|m rest IH]; intros idx processedData; simpl.
  - intros [= <-]. by rewrite (right_id_L ∅ (∪)).
  - destruct (transformColumn m _) as [v|]; [| done].
    destruct (applyValidation _ _ _ _); [done |].
    intros Hrun. apply IH in Hrun. rewrite Hrun, dom_insert_L.
    rewrite (comm_L (∪) {[JSONField m]} (dom processedData)).
    by rewrite <- (assoc_L (∪)).
Qed.

(** X8. A row [processRow] accepts has a value for every mapped JSON field
    and for nothing else. *)
Theorem processRow_binds_the_mapped_fields (config : IngestionConfig)
  (rangeOrder : nat -> list string) (queries : repository.Querier)
  (record : list string) (headerMap : gmap string nat) (data : gmap string value) :
  processRow config rangeOrder queries record headerMap = Ok data ->
  forall field,
    is_Some (data !! field) <->
    exists mapping, mapping ∈ ColumnMappings config /\ JSONField mapping = field.
Proof.
  unfold processRow. intros Hrun field. apply processRow_loop_dom in Hrun.
  rewrite <- elem_of_dom, Hrun, dom_empty_L, elem_of_union, elem_of_list_to_set,
    list_elem_of_fmap.
  split.
  - intros [Hempty | (m & -> & Hin)]; [by apply elem_of_empty in Hempty | eauto].
  - intros (m & Hin & <-). right. eauto.
Qed.

(** X9. The loop of [processRow] over mappings [pre ++ post] is the loop
    over [pre] followed, when it succeeds, by the loop over [post] on the
    data built so far; so the error of the first offending column is the
    row's error, whatever the later columns hold. *)
Theorem processRow_reports_first_offending_column (rangeOrder : nat -> list string)
  (queries : repository.Querier) (record : list string) (headerMap : gmap string nat)
  (idx : nat) (pre post : list ColumnMapping) (processedData : gmap string value) :
  processRow_loop rangeOrder queries record headerMap idx (pre ++ post) processedData =
    match processRow_loop rangeOrder queries record headerMap idx pre processedData with
    | Ok data =>
        processRow_loop rangeOrder queries record headerMap (idx + length pre) post data
    | Err err => Err err
    end.
Proof.
  revert idx processedData.
  induction pre as [|m pre IH]; intros idx processedData; simpl.
  - by rewrite Nat.add_0_r.
  - destruct (transformColumn m _) as [v|]; [| done].
    destruct (applyValidation _ _ _ _); [done |].
    rewrite IH. by replace (S idx + length pre)%nat with (idx + S (length pre))%nat by lia.
Qed.

(** *** Headers and original records *)

Lemma guarded_field_lookup (record : list string) (k : nat) :
  (if (k <? length record)%nat then nth k record "" else "") = default "" (record !! k).
Proof.
  destruct (Nat.ltb_spec k (length record)) as [Hlt|Hge].
  - destruct (lookup_lt_is_Some_2 record k Hlt) as [x Hx]. rewrite Hx. simpl.
    by apply nth_lookup_Some with (d := "") in Hx.
  - by rewrite lookup_ge_None_2.
Qed.

Lemma createOriginalRecordMap_loop_notin (record headers : list string) (i : nat)
  (rowMap : gmap string string) (h : string) :
  h ∉ headers -> createOriginalRecordMap_loop i record headers rowMap !! h = rowMap !! h.
Proof.
  revert i rowMap. induction headers as [|x rest IH]; intros i rowMap Hnot; simpl; [done |].
  apply not_elem_of_cons in Hnot as [Hne Hnot].
  rewrite IH by done. by apply lookup_insert_ne.
Qed.

Lemma createOriginalRecordMap_loop_in (record headers : list string) (i j : nat)
  (rowMap : gmap string string) (h : string) :
  NoDup headers -> headers !! j = Some h ->
  createOriginalRecordMap_loop i record headers rowMap !! h =
    Some (default "" (record !! (i + j)%nat)).
Proof.
  intros Hnd. revert i j rowMap.
  induction Hnd as [|x rest Hx _ IH]; intros i j rowMap Hj; [done |].
  cbn [createOriginalRecordMap_loop]. rewrite guarded_field_lookup.
  destruct j as [|j]; simpl in Hj.
  - injection Hj as ->. rewrite createOriginalRecordMap_loop_notin by done.
    by rewrite lookup_insert_eq, Nat.add_0_r.
  - rewrite (IH (S i) j _ Hj). do 3 f_equal. lia.
Qed.

(** X10. The original record kept with a triage row, for a header row
    without repeated names: every header is a key, with the row's field of
    the same index, or the empty string when the row is shorter; nothing else
    is a key, so the fields of a row beyond the header's width are not kept. *)
Theorem createOriginalRecordMap_keeps_header_fields (record headers : list string) :
  NoDup headers ->
  (forall j h,
     headers !! j = Some h ->
     createOriginalRecordMap record headers !! h = Some (default "" (record !! j))) /\
  (forall h, h ∉ headers -> createOriginalRecordMap record headers !! h = None).
Proof.
  intros Hnd. unfold createOriginalRecordMap. split.
  - intros j h Hj.
    by rewrite (createOriginalRecordMap_loop_in record headers 0 j ∅ h Hnd Hj).
  - intros h Hnot. by rewrite createOriginalRecordMap_loop_notin.
Qed.

Lemma headerMap_loop_lookup (headers : list string) (i : nat) (headerMap : gmap string nat)
  (key : string) (j : nat) :
  headerMap_loop i headers headerMap !! key = Some j <->
  (exists k, j = (i + k)%nat /\ (Strings.TrimSpace <$> headers) !! k = Some key /\
             forall k', (k < k')%nat -> (Strings.TrimSpace <$> headers) !! k' <> Some key) \/
  ((key ∉ Strings.TrimSpace <$> headers) /\ headerMap !! key = Some j).
Proof.
  revert i headerMap.
  induction headers as [|x rest IH]; intros i headerMap; cbn [headerMap_loop fmap list_fmap].
  - split; [intros Hl; right; split; [apply not_elem_of_nil | done] |].
    intros [(k & _ & Hk & _) | [_ Hl]]; [done | done].
  - rewrite IH. split.
    + intros [(k & -> & Hk & Hlast) | [Hnot Hl]].
      * left. exists (S k). split; [lia | split; [done |]].
        intros k' Hk'. destruct k' as [|k']; [lia |]. simpl. apply Hlast. lia.
      * destruct (decide (Strings.TrimSpace x = key)) as [Heq|Hne].
        -- rewrite Heq, lookup_insert_eq in Hl. injection Hl as <-.
           left. exists 0%nat. split; [lia | split; [by rewrite <- Heq |]].
           intros k' Hk' Hc. destruct k' as [|k']; [lia |]. simpl in Hc.
           apply Hnot. by eapply list_elem_of_lookup_2.
        -- rewrite lookup_insert_ne in Hl by done. right. split; [| done].
           apply not_elem_of_cons. split; [done | exact Hnot].
    + intros [(k & -> & Hk & Hlast) | [Hnot Hl]].
      * destruct k as [|k]; simpl in Hk.
        -- injection Hk as Heq. right. split.
           ++ intros Hin. apply list_elem_of_lookup_1 in Hin as [k' Hk'].
              apply (Hlast (S k')); [lia | exact Hk'].
           ++ rewrite Heq, lookup_insert_eq. f_equal. lia.
        -- left. exists k. split; [lia | split; [done |]].
           intros k' Hk'. apply (Hlast (S k')). lia.
      * apply not_elem_of_cons in Hnot as [Hne Hnot]. right. split; [done |].
        by rewrite lookup_insert_ne.
Qed.

(** X11. The header map gives a name the index of the last column whose
    header, once trimmed, is that name: headers are matched after trimming,
    and of two columns with the same name the later one is read. *)
Theorem buildHeaderMap_last_column_wins (headers : list string) (key : string) (j : nat) :
  buildHeaderMap headers !! key = Some j <->
  (Strings.TrimSpace <$> headers) !! j = Some key /\
  forall j', (j < j')%nat -> (Strings.TrimSpace <$> headers) !! j' <> Some key.
Proof.
  unfold buildHeaderMap. rewrite headerMap_loop_lookup. split.
  - intros [(k & -> & Hk & Hlast) | [_ Hl]]; [done | by rewrite lookup_empty in Hl].
  - intros [Hj Hlast]. left. by exists j.
Qed.

(** *** Row repair at any width *)

Lemma mergeExcessFields_any_width (record : list string) (numHeaders idx : nat) :
  (idx < numHeaders)%nat -> (numHeaders < length record)%nat ->
  mergeExcessFields record numHeaders (Z.of_nat idx) =
    take idx record ++
    [Strings.Join (take (length record - numHeaders + 1) (drop idx record)) ","] ++
    drop (idx + (length record - numHeaders) + 1) record.
Proof.
  intros Hidx Hlen. unfold mergeExcessFields, slice.
  replace (Z.to_nat (Z.of_nat idx - 0)) with idx by lia.
  replace (Z.to_nat 0) with 0%nat by lia.
  replace (Z.to_nat (Z.of_nat idx)) with idx by lia.
  replace (Z.to_nat (Z.of_nat idx + (Z.of_nat (length record) - Z.of_nat numHeaders) + 1 -
                     Z.of_nat idx)) with (length record - numHeaders + 1)%nat by lia.
  replace (Z.to_nat (Z.of_nat idx + (Z.of_nat (length record) - Z.of_nat numHeaders) + 1))
    with (idx + (length record - numHeaders) + 1)%nat by lia.
  rewrite drop_0.
  rewrite (take_ge (drop (idx + (length record - numHeaders) + 1) record))
    by (rewrite length_drop; lia).
  by rewrite <- app_assoc.
Qed.

(** X12. With a merge column in the file, a row wider than the header is
    always repaired to the header's width, whatever the number of extra
    fields: the fields from the merge column up to it plus the extra ones
    are joined with commas. Such a row is neither triaged for its shape nor
    counted as blank; it goes to [processRow]. *)
Theorem wide_row_with_merge_column_is_always_repaired
  (config : IngestionConfig) (rangeOrder : nat -> nat -> list string)
  (queries : repository.Querier) (embedder : option EmbedderFunc)
  (headers : list string) (scopeJSONField : string)
  (result : ProcessingResult) (i : nat) (record : list string) :
  let numHeaders := length headers in
  let headerMap := buildHeaderMap headers in
  let mergeColumnIndex := findMergeColumnIndex headerMap (ColumnMappings config) in
  let repaired := repairRecord record numHeaders mergeColumnIndex in
  mergeColumnIndex <> -1 -> (numHeaders < length record)%nat ->
  (exists idx,
     mergeColumnIndex = Z.of_nat idx /\ (idx < numHeaders)%nat /\
     repaired =
       take idx record ++
       [Strings.Join (take (length record - numHeaders + 1) (drop idx record)) ","] ++
       drop (idx + (length record - numHeaders) + 1) record) /\
  length repaired = numHeaders /\
  recordStep config rangeOrder queries embedder headers headerMap mergeColumnIndex
    scopeJSONField result i record =
    match processRow config (rangeOrder i) queries repaired headerMap with
    | Err err =>
        appendTriage result
          {| OriginalRecord := createOriginalRecordMap repaired headers;
             FailureReason := Error err |}
    | Ok processedData =>
        finishRow config headers scopeJSONField embedder i repaired processedData result
    end.
Proof.
  intros numHeaders headerMap mergeColumnIndex repaired Hmerge Hwide.
  destruct (findMergeColumnIndex_range headers (ColumnMappings config))
    as [Hr | (idx & Hr & Hidx)]; [done |].
  fold headerMap in Hr. fold mergeColumnIndex in Hr. fold numHeaders in Hidx.
  assert (Hrep : repaired =
            take idx record ++
            [Strings.Join (take (length record - numHeaders + 1) (drop idx record)) ","] ++
            drop (idx + (length record - numHeaders) + 1) record).
  { subst repaired. unfold repairRecord. rewrite Hr.
    replace (numHeaders <? length record)%nat with true
      by (symmetry; by apply Nat.ltb_lt).
    replace (Z.of_nat idx =? -1) with false by (symmetry; apply Z.eqb_neq; lia).
    simpl. by apply mergeExcessFields_any_width. }
  assert (Hlen : length repaired = numHeaders).
  { rewrite Hrep, !length_app, length_take, length_drop. simpl. lia. }
  assert (Hblank : isRowBlank repaired = false).
  { subst repaired. unfold repairRecord. rewrite Hr.
    replace (numHeaders <? length record)%nat with true
      by (symmetry; by apply Nat.ltb_lt).
    replace (Z.of_nat idx =? -1) with false by (symmetry; apply Z.eqb_neq; lia).
    simpl. by apply mergeExcessFields_not_blank. }
  split; [by exists idx |]. split; [exact Hlen |].
  unfold recordStep. fold numHeaders. fold repaired.
  rewrite Hlen, Nat.eqb_refl, Hblank. done.
Qed.

(** *** Validation and the order of the registry *)

Lemma validationRegistry_lookup (name : string) (f : ValidationFunc) :
  validationRegistry !! name = Some f <->
  (name = "exists_in_items" /\ f = validateExistsInItems) \/
  (name = "regex" /\ f = validateRegex) \/
  (name = "enum" /\ f = validateEnum) \/
  (name = "required" /\ f = validationRequired).
Proof.
  unfold validationRegistry, ValidationFunc.
  rewrite !lookup_insert_Some, lookup_empty. split.
  - intros [[<- <-] | [? [[<- <-] | [? [[<- <-] | [? [[<- <-] | [? ?]]]]]]]];
      [by left | right; by left | right; right; by left | by do 3 right | done].
  - intros [[-> ->] | [[-> ->] | [[-> ->] | [-> ->]]]].
    + by left.
    + right. split; [done |]. by left.
    + right. split; [done |]. right. split; [done |]. by left.
    + right. split; [done |]. right. split; [done |]. right. split; [done |]. by left.
Qed.

Lemma applyValidation_loop_None (order : list string) (queries : repository.Querier)
  (v : value) (rules : ValidationRule) :
  applyValidation_loop order queries v rules = None <->
  forall name f,
    name ∈ order -> validationRegistry !! name = Some f -> f queries v rules = None.
Proof.
  induction order as [|n rest IH]; simpl.
  - split; [intros _ name f Hin; by apply elem_of_nil in Hin | done].
  - destruct (validationRegistry !! n) as [g|] eqn:Eg.
    + destruct (g queries v rules) as [err|] eqn:Egv.
      * split; [done |]. intros Hall.
        specialize (Hall n g (list_elem_of_here _ _) Eg). by rewrite Egv in Hall.
      * rewrite IH. split.
        -- intros Hrest name f Hin Hf. apply elem_of_cons in Hin as [-> | Hin].
           ++ rewrite Eg in Hf. by injection Hf as <-.
           ++ by eapply Hrest.
        -- intros Hall name f Hin. apply Hall. by right.
    + rewrite IH. split.
      * intros Hrest name f Hin Hf. apply elem_of_cons in Hin as [-> | Hin].
        -- by rewrite Eg in Hf.
        -- by eapply Hrest.
      * intros Hall name f Hin. apply Hall. by right.
Qed.

(** X13. Whether a value passes [applyValidation] does not depend on the
    order in which the registry is visited: for every order that visits the
    four validators once each, the value passes exactly when it is the empty
    string under a rule that is not required, or all four validators accept
    it. (Only the error reported for a value that fails depends on the
    order.) *)
Theorem applyValidation_outcome_is_order_independent (order : list string)
  (queries : repository.Querier) (v : value) (rules : ValidationRule) :
  order ≡ₚ ["required"; "enum"; "regex"; "exists_in_items"] ->
  (applyValidation order queries v rules = None <->
     (v = VString "" /\ Required rules = false) \/
     (validationRequired queries v rules = None /\
      validateEnum queries v rules = None /\
      validateRegex queries v rules = None /\
      validateExistsInItems queries v rules = None)).
Proof.
  intros Hperm.
  assert (Hloop : applyValidation_loop order queries v rules = None <->
     (validationRequired queries v rules = None /\
      validateEnum queries v rules = None /\
      validateRegex queries v rules = None /\
      validateExistsInItems queries v rules = None)).
  { rewrite applyValidation_loop_None. split.
    - intros Hall. repeat split.
      + apply (Hall "required"); [rewrite Hperm; repeat constructor |].
        apply validationRegistry_lookup. by do 3 right.
      + apply (Hall "enum"); [rewrite Hperm; repeat constructor |].
        apply validationRegistry_lookup. right; right; by left.
      + apply (Hall "regex"); [rewrite Hperm; repeat constructor |].
        apply validationRegistry_lookup. right; by left.
      + apply (Hall "exists_in_items"); [rewrite Hperm; repeat constructor |].
        apply validationRegistry_lookup. by left.
    - intros (Hreq & Henum & Hregex & Hexists) name f _ Hf.
      apply validationRegistry_lookup in Hf
        as [[_ ->] | [[_ ->] | [[_ ->] | [_ ->]]]]; done. }
  unfold applyValidation.
  destruct v as [|s| | | | |]; try (rewrite Hloop; split; [by right | by intros [[? _] | ?]]).
  destruct s as [|c s]; [| rewrite Hloop; split; [by right | by intros [[? _] | ?]]].
  destruct (Required rules) eqn:Ereq; simpl.
  - rewrite Hloop. split; [by right | by intros [[_ ?] | ?]].
  - split; [by left | done].
Qed.

(** *** Transform chains and types *)

Lemma transformRegistry_lookup (name : string) (f : TransformFunc) :
  transformRegistry !! name = Some f <->
  (name = "to_date" /\ f = transformToDate) \/
  (name = "to_decimal" /\ f = transformToDecimal) \/
  (name = "to_integer" /\ f = transformToInteger) \/
  (name = "to_uppercase" /\ f = transformToUppercase) \/
  (name = "trim_space" /\ f = transformTrimSpace).
Proof.
  unfold transformRegistry, TransformFunc.
  rewrite !lookup_insert_Some, lookup_empty. split.
  - intros [[<- <-] | [? [[<- <-] | [? [[<- <-] | [? [[<- <-] | [? [[<- <-] | [? ?]]]]]]]]]];
      [by left | right; by left | right; right; by left | right; right; right; by left
      | by do 4 right | done].
  - intros [[-> ->] | [[-> ->] | [[-> ->] | [[-> ->] | [-> ->]]]]].
    + by left.
    + right. split; [done |]. by left.
    + right. split; [done |]. right. split; [done |]. by left.
    + right. split; [done |]. right. split; [done |]. right. split; [done |]. by left.
    + right. split; [done |]. right. split; [done |]. right. split; [done |].
      right. split; [done |]. by left.
Qed.

(** Every registered transform wants a string. *)
Lemma registered_transform_needs_string (name arg : string) (f : TransformFunc) (v : value) :
  transformRegistry !! name = Some f ->
  (forall s, v <> VString s) ->
  exists e, f v arg = Err e.
Proof.
  intros Hf Hv. apply transformRegistry_lookup in Hf
    as [[_ ->] | [[_ ->] | [[_ ->] | [[_ ->] | [_ ->]]]]];
    destruct v as [|s| | | | |]; try (by eexists); by destruct (Hv s).
Qed.

Lemma chain_on_non_string_fails (v : value) (chain : list string) :
  (forall s, v <> VString s) -> chain <> [] ->
  exists e, applyTransforms_from v chain = Err e.
Proof.
  intros Hv Hchain. destruct chain as [|c rest]; [done |]. simpl.
  destruct (transformRegistry !! transformName c) as [f|] eqn:Ef; [| by eexists].
  destruct (registered_transform_needs_string _ (transformArg c) f v Ef Hv) as [e He].
  rewrite He. by eexists.
Qed.

(** X14. A converting transform can only end a chain: a chain in which
    [to_integer], [to_decimal] or [to_date] is followed by another transform
    fails on every input, since all registered transforms want a string and
    these three give nil, an integer, a decimal or a time. *)
Theorem converting_transform_must_be_last (value_ : string) (pre post : list string)
  (call next : string) :
  transformName call ∈ ["to_integer"; "to_decimal"; "to_date"] ->
  exists e, applyTransforms value_ (pre ++ call :: next :: post) = Err e.
Proof.
  intros Hname. unfold applyTransforms. rewrite applyTransforms_from_app.
  destruct (applyTransforms_from (VString value_) pre) as [cur|]; [| by eexists].
  assert (Hstep : applyTransforms_from cur (call :: next :: post) =
            match transformRegistry !! transformName call with
            | None =>
                Err (errorString ("unknown transform function: " +:+ transformName call))
            | Some transformer =>
                match transformer cur (transformArg call) with
                | Err err =>
                    Err (Errorf_w ("transform '" +:+ transformName call +:+ "' failed: ") err)
                | Ok newValue => applyTransforms_from newValue (next :: post)
                end
            end) by reflexivity.
  rewrite Hstep. clear Hstep.
  destruct (transformRegistry !! transformName call) as [f|] eqn:Ef; [| by eexists].
  destruct (f cur (transformArg call)) as [v|] eqn:Efv; [| by eexists].
  apply chain_on_non_string_fails; [| done].
  apply transformRegistry_lookup in Ef
    as [[Hn ->] | [[Hn ->] | [[Hn ->] | [[Hn ->] | [Hn ->]]]]].
  - unfold transformToDate in Efv. destruct cur; try done.
    destruct (time_ParseInLocation_UTC _ _); [| done]. by injection Efv as <-.
  - unfold transformToDecimal in Efv. destruct cur; try done.
    destruct (decimal_NewFromString _); [| done]. by injection Efv as <-.
  - unfold transformToInteger in Efv. destruct cur; try done.
    destruct (String.eqb _ ""); [by injection Efv as <- |].
    destruct (Strconv.ParseInt _); [| done]. by injection Efv as <-.
  - rewrite Hn in Hname.
    repeat (apply elem_of_cons in Hname as [Hname | Hname]; [done |]).
    by apply elem_of_nil in Hname.
  - rewrite Hn in Hname.
    repeat (apply elem_of_cons in Hname as [Hname | Hname]; [done |]).
    by apply elem_of_nil in Hname.
Qed.

(** *** [to_integer] *)

Lemma digit_range (c : ascii) (d : Z) : Strconv.digit c = Some d -> 0 <= d <= 9.
Proof.
  unfold Strconv.digit.
  destruct (Z.leb_spec 48 (Z.of_nat (nat_of_ascii c)));
    destruct (Z.leb_spec (Z.of_nat (nat_of_ascii c)) 57); simpl; try done.
  intros [= <-]. lia.
Qed.

Lemma ParseUint_loop_range (s : string) (n m : Z) :
  0 <= n <= Strconv.maxUint64 ->
  Strconv.ParseUint_loop s n = inl m ->
  0 <= m <= Strconv.maxUint64.
Proof.
  revert n. induction s as [|c s IH]; intros n Hn; simpl.
  - by intros [= <-].
  - destruct (Strconv.digit c) as [d|] eqn:Ed; [| done].
    apply digit_range in Ed.
    destruct (n >=? Strconv.maxUint64 / 10 + 1); [done |].
    destruct (Z.gtb_spec (n * 10 + d) Strconv.maxUint64); [done |].
    apply IH. lia.
Qed.

Lemma ParseInt_value_range (s : string) (n : Z) :
  Strconv.ParseInt_value s = inl n -> - 2 ^ 63 <= n <= 2 ^ 63 - 1.
Proof.
  unfold Strconv.ParseInt_value. destruct s as [|c s]; [done |].
  set (digits := if (_ || _)%bool then s else String c s).
  destruct (Strconv.ParseUint digits) as [un|[|]] eqn:Eu; [| done | done].
  assert (Hun : 0 <= un <= Strconv.maxUint64).
  { unfold Strconv.ParseUint in Eu. destruct digits; [done |].
    eapply ParseUint_loop_range; [| exact Eu]. unfold Strconv.maxUint64. lia. }
  destruct (Ascii.eqb c "-"); simpl.
  - destruct (Z.gtb_spec un (2 ^ 63)); [done |]. intros [= <-]. lia.
  - destruct (Z.geb_spec un (2 ^ 63)); [done |]. intros [= <-]. lia.
Qed.

(** X15. What [to_integer] gives for a string: nil, never zero, when
    nothing is left of the text once the commas and the surrounding white
    space are dropped; otherwise the integer the remaining text denotes, which
    is within the range of an [int64]. *)
Theorem to_integer_gives_nil_or_an_int64 (str arg : string) (v : value) :
  transformToInteger (VString str) arg = Ok v ->
  (Strings.TrimSpace (Strings.removeCommas str) = "" /\ v = VNil) \/
  (Strings.TrimSpace (Strings.removeCommas str) <> "" /\
   exists i,
     v = VInt64 i /\ - 2 ^ 63 <= i <= 2 ^ 63 - 1 /\
     Strconv.ParseInt_value (Strings.TrimSpace (Strings.removeCommas str)) = inl i).
Proof.
  unfold transformToInteger, Strconv.ParseInt.
  destruct (String.eqb_spec (Strings.TrimSpace (Strings.removeCommas str)) "") as [Heq|Hne].
  - intros [= <-]. by left.
  - destruct (Strconv.ParseInt_value _) as [i|e] eqn:Ei; [| done].
    intros [= <-]. right. split; [done |]. exists i.
    split; [done |]. split; [by eapply ParseInt_value_range | done].
Qed.

(** *** The classified rows *)

Lemma createOriginalRecordMap_loop_keys (record headers : list string) (i : nat)
  (rowMap : gmap string string) (h : string) :
  is_Some (createOriginalRecordMap_loop i record headers rowMap !! h) <->
  h ∈ headers \/ is_Some (rowMap !! h).
Proof.
  revert i rowMap. induction headers as [|x rest IH]; intros i rowMap; simpl.
  - split; [by right | intros [Hin | ?]; [by apply elem_of_nil in Hin | done]].
  - rewrite IH, elem_of_cons. destruct (decide (x = h)) as [->|Hne].
    + rewrite lookup_insert_eq. split; [intros _; by left; left | intros _; right; by eexists].
    + rewrite lookup_insert_ne by done. split.
      * intros [? | ?]; [left; by right | by right].
      * intros [[? | ?] | ?]; [done | by left | by right].
Qed.

Lemma createOriginalRecordMap_keys (record headers : list string) (h : string) :
  is_Some (createOriginalRecordMap record headers !! h) <-> h ∈ headers.
Proof.
  unfold createOriginalRecordMap. rewrite createOriginalRecordMap_loop_keys, lookup_empty.
  split; [intros [? | [? ?]]; done | by left].
Qed.

Lemma recordLoop_invariant (Inv : ProcessingResult -> Prop)
  (step : ProcessingResult -> nat -> list string -> ProcessingResult)
  (allRecords : list (list string)) (i : nat) (result : ProcessingResult) :
  (forall r k record, Inv r -> Inv (step r k record)) ->
  Inv result -> Inv (recordLoop step i allRecords result).
Proof.
  intros Hstep. revert i result.
  induction allRecords as [|record rest IH]; intros i result Hinv; simpl; [done |].
  apply IH. by apply Hstep.
Qed.

(** X16. What [Process] hands on: every successful item has the
    configuration's item type, the status active, and a valid scope and
    business key, and carries no embedding when none is configured or no
    embedder is given; every triage row keeps an original record whose keys
    are exactly the file's headers. *)
Theorem Process_results_are_well_formed (config : IngestionConfig)
  (rangeOrder : nat -> nat -> list string) (file : Reader)
  (queries : repository.Querier) (embedder : option EmbedderFunc)
  (result : ProcessingResult) :
  Process config rangeOrder file queries embedder = Ok result ->
  exists headers,
    Read file = Ok headers /\
    Forall
      (fun item =>
         repository.ItemType item = ItemType config /\
         repository.Status item = "active" /\
         pgtype.Valid (repository.Scope item) = true /\
         pgtype.Valid (repository.BusinessKey item) = true /\
         (EmbedContent_ config = None \/ embedder = None ->
          repository.Embedding item = []))
      (SuccessfulItems result) /\
    Forall
      (fun row => forall h, is_Some (OriginalRecord row !! h) <-> h ∈ headers)
      (TriageRows result).
Proof.
  unfold Process. intros HP.
  destruct (Read file) as [headers|]; [| done].
  destruct (missingHeader _ _); [done |].
  destruct (ReadAll file) as [allRecords|]; [| done].
  destruct (String.eqb _ ""); [done |].
  injection HP as <-. exists headers. split; [done |].
  apply (recordLoop_invariant
           (fun r =>
              Forall
                (fun item =>
                   repository.ItemType item = ItemType config /\
                   repository.Status item = "active" /\
                   pgtype.Valid (repository.Scope item) = true /\
                   pgtype.Valid (repository.BusinessKey item) = true /\
                   (EmbedContent_ config = None \/ embedder = None ->
                    repository.Embedding item = []))
                (SuccessfulItems r) /\
              Forall
                (fun row => forall h, is_Some (OriginalRecord row !! h) <-> h ∈ headers)
                (TriageRows r))); [| by split; constructor].
  intros r k record [Hitems Hrows].
  assert (Htriage : forall rec reason,
            Forall
              (fun row => forall h, is_Some (OriginalRecord row !! h) <-> h ∈ headers)
              (TriageRows r ++
               [{| OriginalRecord := createOriginalRecordMap rec headers;
                   FailureReason := reason |}])).
  { intros rec reason. apply Forall_app. split; [done |].
    constructor; [| constructor]. intros h. simpl. apply createOriginalRecordMap_keys. }
  unfold recordStep.
  destruct (negb _); [split; [done | apply Htriage] |].
  destruct (isRowBlank _); [done |].
  destruct (processRow _ _ _ _ _) as [data|]; [| split; [done | apply Htriage]].
  unfold finishRow.
  destruct (embedRow config embedder data) as [embedding|] eqn:Eemb;
    [| split; [done | apply Htriage]].
  destruct (json_Marshal data); [| split; [done | apply Htriage]].
  destruct (data !! _) as [[|scopeString| | | | |]|];
    try (split; [done | apply Htriage]).
  destruct (businessKeyLoop _ _ _); [split; [done | apply Htriage] |].
  split; [| done]. simpl. apply Forall_app. split; [done |].
  constructor; [| constructor]. simpl. repeat split; try done.
  intros Hnone. revert Eemb. unfold embedRow.
  destruct Hnone as [-> | ->]; [by intros [= <-] |].
  destruct (EmbedContent_ config); by intros [= <-].
Qed.

End row_pipeline.

End row_facts.

(** * Properties of the configuration loader *)

Module loader_facts.
Import processing.

Lemma Ext_suffix (path : string) : exists stem, path = stem +:+ Ext path.
Proof.
  induction path as [|c rest [stem IH]]; [by exists "" |].
  assert (Hnil : forall s : string, s = s +:+ "").
  { intros s. induction s as [|a r IHr]; [done |].
    change (String a r = String a (r +:+ "")). by rewrite <- IHr. }
  cbn [Ext].
  destruct (Strings.contains "/" rest).
  - exists (String c stem). change (String c rest = String c (stem +:+ Ext rest)).
    by f_equal.
  - destruct (String.eqb_spec (Ext rest) "") as [Hempty|Hne]; cbn [negb].
    + destruct (Ascii.eqb c "."); [by exists "" |].
      exists (String c rest). apply Hnil.
    + exists (String c stem). change (String c rest = String c (stem +:+ Ext rest)).
      by f_equal.
Qed.

Lemma Ext_of_stem_and_extension (stem ext : string) :
  Ext ext = ext -> ext <> "" -> Ext (stem +:+ ext) = ext.
Proof.
  intros Hext Hne. induction stem as [|c stem IH]; [done |].
  simpl. rewrite IH.
  destruct (Strings.contains "/" (stem +:+ ext)); [done |].
  apply String.eqb_neq in Hne. by rewrite Hne.
Qed.

(** X17. Which entries of the walk the loader reads: those that are not
    directories and whose name ends in [.yaml] or in [.yml]. A name such as
    [a.yaml.bak] is passed over; a name that is only [.yaml] is read. *)
Theorem config_files_are_the_yaml_names (d : DirEntry) :
  isConfigFile d = true <->
  IsDir d = false /\
  ((exists stem, entryName d = stem +:+ ".yaml") \/
   (exists stem, entryName d = stem +:+ ".yml")).
Proof.
  unfold isConfigFile. rewrite negb_true_iff, orb_false_iff, andb_false_iff.
  rewrite !negb_false_iff, !String.eqb_eq. split.
  - intros [Hdir [Hext | Hext]]; (split; [done |]);
      destruct (Ext_suffix (entryName d)) as [stem Hs]; rewrite Hext in Hs;
      [left | right]; by exists stem.
  - intros [Hdir [[stem Hs] | [stem Hs]]]; (split; [done |]); rewrite Hs;
      [left | right]; by apply Ext_of_stem_and_extension.
Qed.

Lemma loadEntry_Ok (yaml_Unmarshal : string -> result IngestionConfig)
  (configs configs' : gmap string IngestionConfig) (d : DirEntry) :
  loadEntry yaml_Unmarshal configs d = Ok configs' ->
  walkErr d = None /\
  ((isConfigFile d = false /\ configs' = configs) \/
   (isConfigFile d = true /\
    exists data config,
      ReadFile d = Ok data /\ yaml_Unmarshal data = Ok config /\
      Validate config = None /\ configs !! ReportType config = None /\
      configs' = <[ReportType config := config]> configs)).
Proof.
  unfold loadEntry.
  destruct (walkErr d); [done |]. intros Hload. split; [done |].
  destruct (isConfigFile d); simpl in Hload; [| left; by injection Hload as <-].
  right. split; [done |].
  destruct (ReadFile d) as [data|]; [| done].
  destruct (yaml_Unmarshal data) as [config|] eqn:Ey; [| done].
  destruct (Validate config) eqn:Ev; [done |].
  destruct (configs !! ReportType config) eqn:El; [done |].
  injection Hload as <-. by exists data, config.
Qed.

Lemma walkEntries_keeps (yaml_Unmarshal : string -> result IngestionConfig)
  (walk : list DirEntry) (configs configs' : gmap string IngestionConfig)
  (reportType : string) (config : IngestionConfig) :
  walkEntries yaml_Unmarshal walk configs = Ok configs' ->
  configs !! reportType = Some config -> configs' !! reportType = Some config.
Proof.
  revert configs. induction walk as [|d rest IH]; intros configs; simpl.
  - by intros [= <-].
  - destruct (loadEntry yaml_Unmarshal configs d) as [configs1|] eqn:El; [| done].
    intros Hwalk Hl. apply (IH _ Hwalk).
    apply loadEntry_Ok in El as [_ [[_ ->] | [_ (data & c & _ & _ & _ & Hnone & ->)]]];
      [done |].
    rewrite lookup_insert_ne; [done |]. intros Heq. by rewrite Heq, Hl in Hnone.
Qed.

Lemma walkEntries_sound (yaml_Unmarshal : string -> result IngestionConfig)
  (walk : list DirEntry) (configs configs' : gmap string IngestionConfig)
  (reportType : string) (config : IngestionConfig) :
  walkEntries yaml_Unmarshal walk configs = Ok configs' ->
  configs' !! reportType = Some config ->
  configs !! reportType = Some config \/
  (Validate config = None /\ ReportType config = reportType /\
   exists d data,
     d ∈ walk /\ isConfigFile d = true /\ ReadFile d = Ok data /\
     yaml_Unmarshal data = Ok config).
Proof.
  revert configs. induction walk as [|d rest IH]; intros configs; simpl.
  - intros [= <-]. by left.
  - destruct (loadEntry yaml_Unmarshal configs d) as [configs1|] eqn:El; [| done].
    intros Hwalk Hl. destruct (IH _ Hwalk Hl) as [H1 | (Hv & Hrt & d' & data & Hin & Hrest)].
    + apply loadEntry_Ok in El
        as [_ [[_ ->] | [Hcfg (data & c & Hread & Hy & Hv & Hnone & ->)]]]; [by left |].
      destruct (decide (ReportType c = reportType)) as [Heq|Hne].
      * rewrite Heq, lookup_insert_eq in H1. injection H1 as ->.
        right. split; [done | split; [done |]]. exists d, data. split; [by left | done].
      * rewrite lookup_insert_ne in H1 by done. by left.
    + right. split; [done | split; [done |]]. exists d', data. split; [by right | done].
Qed.

(** X18. Every configuration a loader gives out passed [Validate], has the
    report type it was asked for, and is what a YAML file of the directory
    was parsed to. *)
Theorem GetConfig_returns_validated_configs
  (yaml_Unmarshal : string -> result IngestionConfig) (configPath : string)
  (walk : list DirEntry) (configs : gmap string IngestionConfig)
  (reportType : string) (config : IngestionConfig) :
  NewConfigLoader yaml_Unmarshal configPath walk = Ok configs ->
  GetConfig configs reportType = Some config ->
  Validate config = None /\ ReportType config = reportType /\
  exists d data,
    d ∈ walk /\ isConfigFile d = true /\ ReadFile d = Ok data /\
    yaml_Unmarshal data = Ok config.
Proof.
  unfold NewConfigLoader, GetConfig.
  destruct (walkEntries yaml_Unmarshal walk ∅) as [configs0|] eqn:Ew; [| done].
  intros [= <-] Hl.
  destruct (walkEntries_sound _ _ _ _ _ _ Ew Hl) as [Hempty | Hok]; [| done].
  by rewrite lookup_empty in Hempty.
Qed.

(** X19. A loader that is built has read every YAML file of the walk: each
    one was read, parsed and validated, and its configuration is the one
    [GetConfig] returns for its report type; so no two of the files declare
    the same report type. Directories and other files are passed over. *)
Theorem NewConfigLoader_loads_every_yaml_file
  (yaml_Unmarshal : string -> result IngestionConfig) (configPath : string)
  (walk : list DirEntry) (configs : gmap string IngestionConfig) :
  NewConfigLoader yaml_Unmarshal configPath walk = Ok configs ->
  (forall d, d ∈ walk -> isConfigFile d = true ->
     exists data config,
       ReadFile d = Ok data /\ yaml_Unmarshal data = Ok config /\
       GetConfig configs (ReportType config) = Some config) /\
  (forall i j d1 d2 data1 data2 c1 c2,
     (i < j)%nat -> walk !! i = Some d1 -> walk !! j = Some d2 ->
     isConfigFile d1 = true -> isConfigFile d2 = true ->
     ReadFile d1 = Ok data1 -> ReadFile d2 = Ok data2 ->
     yaml_Unmarshal data1 = Ok c1 -> yaml_Unmarshal data2 = Ok c2 ->
     ReportType c1 <> ReportType c2).
Proof.
  unfold NewConfigLoader, GetConfig.
  destruct (walkEntries yaml_Unmarshal walk ∅) as [configs0|] eqn:Ew; [| done].
  intros [= <-]. revert Ew. generalize (∅ : gmap string IngestionConfig) as start.
  induction walk as [|d rest IH]; intros start Ew.
  - split; [intros d Hin; by apply elem_of_nil in Hin | intros i j; by intros].
  - simpl in Ew.
    destruct (loadEntry yaml_Unmarshal start d) as [configs1|] eqn:El; [| done].
    destruct (IH _ Ew) as [IH1 IH2]. apply loadEntry_Ok in El as [_ Hd]. split.
    + intros d' Hin Hcfg. apply elem_of_cons in Hin as [-> | Hin]; [| by apply IH1].
      destruct Hd as [[Hno _] | [_ (data & c & Hread & Hy & _ & _ & ->)]];
        [by rewrite Hno in Hcfg |].
      exists data, c. split; [done | split; [done |]].
      apply (walkEntries_keeps _ _ _ _ _ _ Ew). by rewrite lookup_insert_eq.
    + intros i j d1 d2 data1 data2 c1 c2 Hij Hi Hj Hc1 Hc2 Hr1 Hr2 Hy1 Hy2.
      destruct j as [|j]; [lia |]. simpl in Hj.
      destruct i as [|i]; simpl in Hi; [| eapply (IH2 i j); eauto; lia].
      injection Hi as ->.
      destruct Hd as [[Hno _] | [_ (data & c & Hread & Hy & _ & _ & ->)]];
        [by rewrite Hno in Hc1 |].
      rewrite Hr1 in Hread. injection Hread as <-. rewrite Hy1 in Hy. injection Hy as <-.
      intros Heq.
      assert (Hin : d2 ∈ rest) by (by eapply list_elem_of_lookup_2).
      clear IH IH1 IH2. revert Ew Hin.
      generalize (<[ReportType c1 := c1]> start) (lookup_insert_eq start (ReportType c1) c1).
      clear -Hc2 Hr2 Hy2 Heq. induction rest as [|x rest IHr]; intros m Hm Ew Hin.
      * by apply elem_of_nil in Hin.
      * simpl in Ew.
        destruct (loadEntry yaml_Unmarshal m x) as [m1|] eqn:El; [| done].
        apply loadEntry_Ok in El as [_ Hx].
        apply elem_of_cons in Hin as [<- | Hin].
        -- destruct Hx as [[Hno _] | [_ (data & c & Hread & Hy & _ & Hnone & _)]];
             [by rewrite Hno in Hc2 |].
           rewrite Hr2 in Hread. injection Hread as <-. rewrite Hy2 in Hy.
           injection Hy as <-. rewrite <- Heq in Hnone. by rewrite Hm in Hnone.
        -- apply (IHr m1); [| done | done].
           destruct Hx as [[_ ->] | [_ (data & c & _ & _ & _ & Hnone & ->)]]; [done |].
           rewrite lookup_insert_ne; [done |]. intros Hc. by rewrite Hc, Hm in Hnone.
Qed.

End loader_facts.

(** * Properties of the job runner *)

Module job_facts.
Import repository processing.

Lemma logTriageItems_loop_cons (run : JobRun) (jobID : UUID) (k : nat) (r : TriageRow)
  (rest : list TriageRow) (db : Tables) :
  logTriageItems_loop run jobID k (r :: rest) db =
    logTriageItems_loop run jobID (S k) rest db \/
  exists json,
    marshalRecord run (OriginalRecord r) = Ok json /\ insertErr run k = None /\
    ingestion_errors db !! newErrorID run k = None /\
    is_Some (ingestion_jobs db !! jobID) /\
    logTriageItems_loop run jobID k (r :: rest) db =
      logTriageItems_loop run jobID (S k) rest
        {| users := users db;
           ingestion_jobs := ingestion_jobs db;
           ingestion_errors :=
             <[newErrorID run k :=
                 {| job_id := jobID; timestamp := insertAt run k;
                    original_row_data := json; reason_for_failure := FailureReason r;
                    error_status := "new"; corrected_data := None;
                    resolved_at := None; resolved_by := None |}]> (ingestion_errors db) |}.
Proof.
  cbn [logTriageItems_loop].
  destruct (marshalRecord run (OriginalRecord r)) as [json|]; [| by left].
  destruct (insertErr run k); [by left |].
  unfold CreateIngestionError.
  cbn [CreateIngestionError_ID CreateIngestionError_JobID OriginalRowData ReasonForFailure].
  destruct (ingestion_errors db !! newErrorID run k) eqn:Hfresh; [by left |].
  destruct (ingestion_jobs db !! jobID) eqn:Hjob; [| by left].
  right. exists json. by repeat (split; [done |]).
Qed.

Lemma logTriageItems_loop_cons_logged (run : JobRun) (jobID : UUID) (k : nat) (r : TriageRow)
  (rest : list TriageRow) (db : Tables) (json : string) :
  marshalRecord run (OriginalRecord r) = Ok json -> insertErr run k = None ->
  ingestion_errors db !! newErrorID run k = None ->
  is_Some (ingestion_jobs db !! jobID) ->
  logTriageItems_loop run jobID k (r :: rest) db =
    logTriageItems_loop run jobID (S k) rest
      {| users := users db;
         ingestion_jobs := ingestion_jobs db;
         ingestion_errors :=
           <[newErrorID run k :=
               {| job_id := jobID; timestamp := insertAt run k;
                  original_row_data := json; reason_for_failure := FailureReason r;
                  error_status := "new"; corrected_data := None;
                  resolved_at := None; resolved_by := None |}]> (ingestion_errors db) |}.
Proof.
  intros Hm Hi Hfresh [job Hjob]. cbn [logTriageItems_loop]. rewrite Hm, Hi.
  unfold CreateIngestionError.
  cbn [CreateIngestionError_ID CreateIngestionError_JobID OriginalRowData ReasonForFailure].
  by rewrite Hfresh, Hjob.
Qed.

Lemma logTriageItems_loop_frame (run : JobRun) (jobID : UUID) (rows : list TriageRow) :
  forall (k : nat) (db : Tables),
    users (logTriageItems_loop run jobID k rows db) = users db /\
    ingestion_jobs (logTriageItems_loop run jobID k rows db) = ingestion_jobs db /\
    (forall id row, ingestion_errors db !! id = Some row ->
       ingestion_errors (logTriageItems_loop run jobID k rows db) !! id = Some row) /\
    (forall id row,
       ingestion_errors (logTriageItems_loop run jobID k rows db) !! id = Some row ->
       ingestion_errors db !! id = None ->
       job_id row = jobID /\ error_status row = "new" /\ corrected_data row = None /\
       is_Some (ingestion_jobs db !! jobID) /\
       exists i r,
         rows !! i = Some r /\ id = newErrorID run (k + i) /\
         reason_for_failure row = FailureReason r /\
         marshalRecord run (OriginalRecord r) = Ok (original_row_data row)).
Proof.
  induction rows as [|r rest IH]; intros k db.
  - cbn [logTriageItems_loop]. split; [done | split; [done | split; [done |]]].
    intros id row H1 H2. by rewrite H1 in H2.
  - destruct (logTriageItems_loop_cons run jobID k r rest db)
      as [-> | (json & Hm & Hi & Hfresh & Hjob & ->)].
    + destruct (IH (S k) db) as (Hu & Hj & Hkeep & Hnew).
      split; [done | split; [done | split; [done |]]].
      intros id row H1 H2.
      destruct (Hnew id row H1 H2) as (Hjid & Hst & Hcd & Hjs & i & r' & Hr & Hid & Hrf & Hmr).
      repeat (split; [done |]). exists (S i), r'. rewrite Nat.add_succ_r.
      by repeat (split; [done |]).
    + match goal with
      | |- context [logTriageItems_loop run jobID (S k) rest ?d] =>
          destruct (IH (S k) d) as (Hu & Hj & Hkeep & Hnew)
      end.
      cbn [users ingestion_jobs ingestion_errors] in Hu, Hj, Hkeep, Hnew.
      split; [done | split; [done | split]].
      * intros id row Hl. apply Hkeep. rewrite lookup_insert_ne; [done |].
        intros Heq. by rewrite Heq, Hl in Hfresh.
      * intros id row H1 H2. destruct (decide (id = newErrorID run k)) as [-> | Hne].
        -- erewrite Hkeep in H1 by apply lookup_insert_eq. injection H1 as <-.
           cbn. repeat (split; [done |]). exists 0%nat, r. by rewrite Nat.add_0_r.
        -- assert (Hn1 : <[newErrorID run k :=
                             {| job_id := jobID; timestamp := insertAt run k;
                                original_row_data := json;
                                reason_for_failure := FailureReason r;
                                error_status := "new"; corrected_data := None;
                                resolved_at := None; resolved_by := None |}]>
                           (ingestion_errors db) !! id = None)
             by (by rewrite lookup_insert_ne).
           destruct (Hnew id row H1 Hn1)
             as (Hjid & Hst & Hcd & Hjs & i & r' & Hr & Hid & Hrf & Hmr).
           repeat (split; [done |]). exists (S i), r'. rewrite Nat.add_succ_r.
           by repeat (split; [done |]).
Qed.

Lemma logTriageItems_loop_logs (run : JobRun) (jobID : UUID) (rows : list TriageRow) :
  forall (k : nat) (db : Tables),
    is_Some (ingestion_jobs db !! jobID) ->
    (forall i, (i < length rows)%nat -> ingestion_errors db !! newErrorID run (k + i) = None) ->
    (forall i j, (i < length rows)%nat -> (j < length rows)%nat ->
       newErrorID run (k + i) = newErrorID run (k + j) -> i = j) ->
    forall i r json,
      rows !! i = Some r -> marshalRecord run (OriginalRecord r) = Ok json ->
      insertErr run (k + i) = None ->
      ingestion_errors (logTriageItems_loop run jobID k rows db) !! newErrorID run (k + i) =
        Some {| job_id := jobID; timestamp := insertAt run (k + i);
                original_row_data := json; reason_for_failure := FailureReason r;
                error_status := "new"; corrected_data := None;
                resolved_at := None; resolved_by := None |}.
Proof.
  induction rows as [|a rest IH]; intros k db Hjob Hfresh Hinj i r json Hr Hm Hi; [done |].
  assert (Hfresh0 : ingestion_errors db !! newErrorID run k = None).
  { specialize (Hfresh 0%nat). rewrite Nat.add_0_r in Hfresh. apply Hfresh. simpl. lia. }
  destruct i as [|i].
  - injection Hr as ->. rewrite Nat.add_0_r in *.
    rewrite (logTriageItems_loop_cons_logged run jobID k r rest db json Hm Hi Hfresh0 Hjob).
    apply logTriageItems_loop_frame. cbn. by rewrite lookup_insert_eq.
  - simpl in Hr. rewrite Nat.add_succ_r in *.
    change (S (k + i)) with (S k + i)%nat in *.
    assert (Hinj' : forall i j, (i < length rest)%nat -> (j < length rest)%nat ->
              newErrorID run (S k + i) = newErrorID run (S k + j) -> i = j).
    { intros i' j' Hi' Hj' Heq.
      assert (S i' = S j'); [| lia].
      apply Hinj; simpl; [lia | lia |]. by rewrite !Nat.add_succ_r. }
    assert (Hne : forall i, (i < length rest)%nat ->
              newErrorID run (S k + i) <> newErrorID run k).
    { intros i' Hi' Heq. assert (S i' = 0%nat); [| lia].
      apply Hinj; simpl; [lia | lia |]. by rewrite Nat.add_succ_r, Nat.add_0_r. }
    assert (Hfresh' : forall i, (i < length rest)%nat ->
              ingestion_errors db !! newErrorID run (S k + i) = None).
    { intros i' Hi'. specialize (Hfresh (S i')). rewrite Nat.add_succ_r in Hfresh.
      apply Hfresh. simpl. lia. }
    destruct (logTriageItems_loop_cons run jobID k a rest db)
      as [-> | (json' & _ & _ & _ & _ & ->)].
    + by apply IH.
    + apply IH; try done. intros i' Hi'. cbn. rewrite lookup_insert_ne; [by apply Hfresh' |].
      intros Heq. by apply (Hne i' Hi').
Qed.

Lemma logTriageItems_loop_ext (run : JobRun) (jobID : UUID) (rows : list TriageRow) :
  forall (k : nat) (db1 db2 : Tables),
    ingestion_errors db1 = ingestion_errors db2 ->
    (is_Some (ingestion_jobs db1 !! jobID) <-> is_Some (ingestion_jobs db2 !! jobID)) ->
    ingestion_errors (logTriageItems_loop run jobID k rows db1) =
    ingestion_errors (logTriageItems_loop run jobID k rows db2).
Proof.
  induction rows as [|r rest IH]; intros k db1 db2 He Hj; [done |].
  destruct (logTriageItems_loop_cons run jobID k r rest db1)
    as [E1 | (json & Hm & Hi & Hfresh & Hjob & E1)].
  - destruct (logTriageItems_loop_cons run jobID k r rest db2)
      as [E2 | (json & Hm & Hi & Hfresh & Hjob & E2)].
    + rewrite E1, E2. by apply IH.
    + rewrite E2.
      rewrite (logTriageItems_loop_cons_logged run jobID k r rest db1 json);
        [| done | done | by rewrite He | by apply Hj].
      apply IH; cbn; [by rewrite He | done].
  - rewrite E1.
    rewrite (logTriageItems_loop_cons_logged run jobID k r rest db2 json);
      [| done | done | by rewrite <- He | by apply Hj].
    apply IH; cbn; [by rewrite He | done].
Qed.

(** X20. [logTriageItems] writes one row per triage row it can: when the
    job exists and the ids drawn are new and distinct, every triage row whose
    original record can be marshalled and whose insert does not fail is found
    afterwards under its id, as a row of the job with status [new], the
    row's failure reason and the marshalled record. *)
Theorem logTriageItems_logs_every_row (run : JobRun) (jobID : UUID)
  (triageRows : list TriageRow) (db : Tables) :
  is_Some (ingestion_jobs db !! jobID) ->
  (forall i, (i < length triageRows)%nat ->
     ingestion_errors db !! newErrorID run i = None) ->
  (forall i j, (i < length triageRows)%nat -> (j < length triageRows)%nat ->
     newErrorID run i = newErrorID run j -> i = j) ->
  forall i r json,
    triageRows !! i = Some r -> marshalRecord run (OriginalRecord r) = Ok json ->
    insertErr run i = None ->
    ingestion_errors (logTriageItems run jobID triageRows db) !! newErrorID run i =
      Some {| job_id := jobID; timestamp := insertAt run i;
              original_row_data := json; reason_for_failure := FailureReason r;
              error_status := "new"; corrected_data := None;
              resolved_at := None; resolved_by := None |}.
Proof.
  intros Hjob Hfresh Hinj i r json Hr Hm Hi.
  by apply (logTriageItems_loop_logs run jobID triageRows 0 db Hjob Hfresh Hinj i r json).
Qed.

Lemma UpdateJobStatus_frame (now : Z) (failure : option error) (jobID : UUID)
  (status details : string) (a b : Z) (db : Tables) :
  users (snd (ingestion.UpdateJobStatus now failure jobID status details a b db)) = users db /\
  ingestion_errors (snd (ingestion.UpdateJobStatus now failure jobID status details a b db)) =
    ingestion_errors db /\
  (forall id, id <> jobID ->
     ingestion_jobs (snd (ingestion.UpdateJobStatus now failure jobID status details a b db))
       !! id = ingestion_jobs db !! id) /\
  (ingestion_jobs db !! jobID = None ->
   ingestion_jobs (snd (ingestion.UpdateJobStatus now failure jobID status details a b db))
     !! jobID = None) /\
  (forall job, ingestion_jobs db !! jobID = Some job ->
     exists job',
       ingestion_jobs (snd (ingestion.UpdateJobStatus now failure jobID status details a b db))
         !! jobID = Some job' /\
       resolved_rows_count job' = resolved_rows_count job /\
       total_rows job' = total_rows job).
Proof.
  unfold ingestion.UpdateJobStatus. destruct failure as [err|]; cbn [snd].
  - repeat (split; [done |]). intros job Hjob. by exists job.
  - unfold UpdateIngestionJobStatus. cbn [UpdateIngestionJobStatus_ID].
    destruct (ingestion_jobs db !! jobID) as [job|] eqn:Hjob; cbn.
    + split; [done | split; [done | split; [| split; [done |]]]].
      * intros id Hne. by rewrite lookup_insert_ne.
      * intros job0 [= <-]. rewrite lookup_insert_eq. by eexists.
    + by repeat (split; [done |]).
Qed.

Lemma UpdateJobStatus_done (now : Z) (jobID : UUID) (status details : string) (a b : Z)
  (db : Tables) (job : IngestionJob) :
  ingestion_jobs db !! jobID = Some job ->
  ingestion_jobs (snd (ingestion.UpdateJobStatus now None jobID status details a b db))
    !! jobID =
  Some {| job_status := status;
          completed_at := Some now;
          error_details := if negb (String.eqb details "") then Some details else None;
          total_rows := total_rows job;
          processed_rows := if a >? 0 then Some (ingestion.int32 a) else None;
          initial_error_count := if b >? 0 then Some (ingestion.int32 b) else None;
          resolved_rows_count := resolved_rows_count job |}.
Proof.
  intros Hjob. unfold ingestion.UpdateJobStatus, UpdateIngestionJobStatus.
  cbn [snd UpdateIngestionJobStatus_ID UpdateIngestionJobStatus_Status ErrorDetails
       ProcessedRows InitialErrorCount].
  rewrite Hjob. cbn [ingestion_jobs]. by rewrite lookup_insert_eq.
Qed.

Lemma logged_rows (run : JobRun) (jobID : UUID) (rows : list TriageRow) (db : Tables) :
  (if (0 <? length rows)%nat then logTriageItems run jobID rows db else db) =
  logTriageItems run jobID rows db.
Proof. by destruct rows. Qed.

Section jobs.
Context `{EF : ExtFuns}.

Lemma RunJob_aborted (configs : gmap string IngestionConfig) (run : JobRun) (jobID : UUID)
  (reportType : string) (embedder : option EmbedderFunc) (db : Database) (err : error) :
  processingErr run = Some err ->
  RunJob configs run jobID reportType embedder db = db.
Proof. intros Hp. unfold RunJob, ingestion.UpdateJobStatus. by rewrite Hp. Qed.

Lemma RunJob_shape (configs : gmap string IngestionConfig) (run : JobRun) (jobID : UUID)
  (reportType : string) (embedder : option EmbedderFunc) (db : Database) :
  processingErr run = None ->
  exists status msg a b rows items',
    RunJob configs run jobID reportType embedder db =
      {| items := items';
         tables :=
           finalStatus run jobID status msg a b
             (logTriageItems run jobID rows
                (snd (ingestion.UpdateJobStatus (processingAt run) None jobID
                        "PROCESSING" "" 0 0 (tables db)))) |} /\
    ((status = "FAILED" /\ a = 0 /\ items' = items db) \/
     (status = "COMPLETE" /\ b = 0 /\ rows = []) \/
     status = "COMPLETE_WITH_ISSUES").
Proof.
  intros Hp. unfold RunJob. rewrite Hp.
  change (ingestion.UpdateJobStatus (processingAt run) None jobID "PROCESSING" "" 0 0
            (tables db))
    with (@None error,
          snd (ingestion.UpdateJobStatus (processingAt run) None jobID "PROCESSING" "" 0 0
                 (tables db))).
  cbv iota beta.
  set (started := snd (ingestion.UpdateJobStatus (processingAt run) None jobID
                         "PROCESSING" "" 0 0 (tables db))).
  destruct (openReader run) as [reader|err].
  2: { exists "FAILED", ("Failed to read file from storage: " +:+ Error err), 0, 0, [],
         (items db). split; [done | by left]. }
  destruct (GetConfig configs reportType) as [config|].
  2: { exists "FAILED", ("No processor configuration found for report type: " +:+ reportType),
         0, 0, [], (items db). split; [done | by left]. }
  destruct (Process config (visitOrder run) reader (itemsQuerier (items db)) embedder)
    as [result|err].
  2: { exists "FAILED", (Error err), 0, 0, [], (items db). split; [done | by left]. }
  cbv zeta. rewrite logged_rows.
  assert (Hcomplete : forall n items',
    exists status msg a b rows items'',
      {| items := items';
         tables := completeJob run jobID result n
                     (logTriageItems run jobID (TriageRows result) started) |} =
      {| items := items'';
         tables := finalStatus run jobID status msg a b
                     (logTriageItems run jobID rows started) |} /\
      ((status = "FAILED" /\ a = 0 /\ items'' = items db) \/
       (status = "COMPLETE" /\ b = 0 /\ rows = []) \/
       status = "COMPLETE_WITH_ISSUES")).
  { intros n items'. unfold completeJob.
    destruct (TriageRows result) as [|t rest] eqn:Et.
    - eexists "COMPLETE", _, n, 0, [], items'. split; [reflexivity |]. right. by left.
    - eexists "COMPLETE_WITH_ISSUES", _, n, _, _, items'. split; [reflexivity |].
      right. by right. }
  destruct (0 <? length (SuccessfulItems result))%nat; [| apply Hcomplete].
  destruct (saveSuccessfulItems (stagingSession run) (SuccessfulItems result) (items db))
    as [[n|err] items']; [apply Hcomplete |].
  eexists "FAILED", _, 0, _, _, (items db). split; [reflexivity | by left].
Qed.

Lemma RunJob_frame (configs : gmap string IngestionConfig) (run : JobRun) (jobID : UUID)
  (reportType : string) (embedder : option EmbedderFunc) (db : Database) :
  users (tables (RunJob configs run jobID reportType embedder db)) = users (tables db) /\
  (forall id, id <> jobID ->
     ingestion_jobs (tables (RunJob configs run jobID reportType embedder db)) !! id =
     ingestion_jobs (tables db) !! id) /\
  (ingestion_jobs (tables db) !! jobID = None ->
   ingestion_jobs (tables (RunJob configs run jobID reportType embedder db)) !! jobID = None) /\
  (forall job, ingestion_jobs (tables db) !! jobID = Some job ->
     exists job',
       ingestion_jobs (tables (RunJob configs run jobID reportType embedder db)) !! jobID =
         Some job' /\
       resolved_rows_count job' = resolved_rows_count job /\
       total_rows job' = total_rows job) /\
  (forall id row, ingestion_errors (tables db) !! id = Some row ->
     ingestion_errors (tables (RunJob configs run jobID reportType embedder db)) !! id =
       Some row) /\
  (forall id row,
     ingestion_errors (tables (RunJob configs run jobID reportType embedder db)) !! id =
       Some row ->
     ingestion_errors (tables db) !! id = None ->
     job_id row = jobID /\ error_status row = "new" /\ corrected_data row = None /\
     is_Some (ingestion_jobs (tables db) !! jobID)).
Proof.
  destruct (processingErr run) as [err|] eqn:Hp.
  { rewrite (RunJob_aborted _ _ _ _ _ _ err Hp).
    split; [done | split; [done | split; [done | split; [| split; [done |]]]]].
    - intros job Hjob. by exists job.
    - intros id row H1 H2. by rewrite H1 in H2. }
  destruct (RunJob_shape configs run jobID reportType embedder db Hp)
    as (status & msg & a & b & rows & items' & -> & _).
  cbn [tables]. unfold finalStatus, logTriageItems.
  set (started := snd (ingestion.UpdateJobStatus (processingAt run) None jobID
                         "PROCESSING" "" 0 0 (tables db))).
  set (logged := logTriageItems_loop run jobID 0 rows started).
  destruct (UpdateJobStatus_frame (processingAt run) None jobID "PROCESSING" "" 0 0
              (tables db)) as (Hu1 & He1 & Ho1 & Hn1 & Hj1).
  destruct (logTriageItems_loop_frame run jobID rows 0 started) as (Hu2 & Hj2 & Hk2 & Hnew2).
  destruct (UpdateJobStatus_frame (finalAt run) (finalErr run) jobID status msg a b logged)
    as (Hu3 & He3 & Ho3 & Hn3 & Hj3).
  fold started in Hu1, He1, Ho1, Hn1, Hj1. fold logged in Hu2, Hj2, Hk2, Hnew2.
  split; [by rewrite Hu3, Hu2, Hu1 |].
  split; [intros id Hne; by rewrite Ho3, Hj2, Ho1 |].
  split; [intros Hnone; apply Hn3; rewrite Hj2; by apply Hn1 |].
  split.
  { intros job Hjob. destruct (Hj1 job Hjob) as (job1 & Hl1 & Hr1 & Ht1).
    rewrite <- Hj2 in Hl1. destruct (Hj3 job1 Hl1) as (job3 & Hl3 & Hr3 & Ht3).
    exists job3. split; [done |]. by rewrite Hr3, Ht3. }
  split.
  { intros id row Hl. rewrite He3. apply Hk2. by rewrite He1. }
  intros id row Hl Hnone. rewrite He3 in Hl. rewrite <- He1 in Hnone.
  destruct (Hnew2 id row Hl Hnone) as (Hjid & Hst & Hcd & Hjs & _).
  repeat (split; [done |]).
  destruct (ingestion_jobs (tables db) !! jobID) eqn:Hjob; [done |].
  rewrite (Hn1 eq_refl) in Hjs. by destruct Hjs.
Qed.

(** X21. A run whose two status updates go through, on a job that exists,
    leaves the job in one of the three final statuses, stamped with the
    instant of the last update and with [resolved_rows_count] and
    [total_rows] as they were. A job left [FAILED] has the items as before
    the run and no processed-row count; a job left [COMPLETE] has no new error row and no error count. *)
Theorem RunJob_ends_in_a_final_status (configs : gmap string IngestionConfig)
  (run : JobRun) (jobID : UUID) (reportType : string) (embedder : option EmbedderFunc)
  (db : Database) (job : IngestionJob) :
  processingErr run = None -> finalErr run = None ->
  ingestion_jobs (tables db) !! jobID = Some job ->
  exists job',
    ingestion_jobs (tables (RunJob configs run jobID reportType embedder db)) !! jobID =
      Some job' /\
    job_status job' ∈ ["FAILED"; "COMPLETE"; "COMPLETE_WITH_ISSUES"] /\
    completed_at job' = Some (finalAt run) /\
    resolved_rows_count job' = resolved_rows_count job /\
    total_rows job' = total_rows job /\
    (job_status job' = "FAILED" ->
     items (RunJob configs run jobID reportType embedder db) = items db /\
     processed_rows job' = None) /\
    (job_status job' = "COMPLETE" ->
     ingestion_errors (tables (RunJob configs run jobID reportType embedder db)) =
       ingestion_errors (tables db) /\
     initial_error_count job' = None).
Proof.
  intros Hp Hf Hjob.
  destruct (RunJob_shape configs run jobID reportType embedder db Hp)
    as (status & msg & a & b & rows & items' & -> & Hcase).
  cbn [tables items]. unfold finalStatus. rewrite Hf.
  pose proof (UpdateJobStatus_done (processingAt run) jobID "PROCESSING" "" 0 0 (tables db)
                job Hjob) as Hstarted.
  set (started := snd (ingestion.UpdateJobStatus (processingAt run) None jobID
                         "PROCESSING" "" 0 0 (tables db))) in *.
  destruct (logTriageItems_loop_frame run jobID rows 0 started) as (_ & Hj2 & _ & _).
  fold (logTriageItems run jobID rows started) in Hj2. rewrite <- Hj2 in Hstarted.
  assert (Herrors : rows = [] ->
            ingestion_errors
              (snd (ingestion.UpdateJobStatus (finalAt run) None jobID status msg a b
                      (logTriageItems run jobID rows started))) =
            ingestion_errors (tables db)).
  { intros ->.
    destruct (UpdateJobStatus_frame (finalAt run) None jobID status msg a b
                (logTriageItems run jobID [] started)) as (_ & -> & _).
    change (logTriageItems run jobID [] started) with started. unfold started.
    by destruct (UpdateJobStatus_frame (processingAt run) None jobID "PROCESSING" "" 0 0
                   (tables db)) as (_ & -> & _). }
  eexists. split; [by apply UpdateJobStatus_done |].
  cbn [job_status completed_at resolved_rows_count total_rows processed_rows
       initial_error_count].
  split.
  { rewrite !elem_of_cons. destruct Hcase as [(-> & _) | [(-> & _) | ->]]; auto. }
  repeat (split; [done |]).
  destruct Hcase as [(-> & -> & ->) | [(-> & -> & Hrows) | ->]].
  - split; [done | by intros [=]].
  - split; [by intros [=] |]. intros _. split; [by apply Herrors | done].
  - split; by intros [=].
Qed.

(** X22. A run touches the tables only for its job: the users and the
    other jobs are as before, a job that is missing stays missing, the
    job's [resolved_rows_count] and [total_rows] keep their values, no error
    row that was there is changed or removed, and every error row that is new
    belongs to the job, has status [new] and no correction, and is there
    only if the job exists. *)
Theorem RunJob_touches_only_its_job (configs : gmap string IngestionConfig)
  (run : JobRun) (jobID : UUID) (reportType : string) (embedder : option EmbedderFunc)
  (db : Database) :
  users (tables (RunJob configs run jobID reportType embedder db)) = users (tables db) /\
  (forall id, id <> jobID ->
     ingestion_jobs (tables (RunJob configs run jobID reportType embedder db)) !! id =
     ingestion_jobs (tables db) !! id) /\
  (ingestion_jobs (tables db) !! jobID = None ->
   ingestion_jobs (tables (RunJob configs run jobID reportType embedder db)) !! jobID = None) /\
  (forall job, ingestion_jobs (tables db) !! jobID = Some job ->
     exists job',
       ingestion_jobs (tables (RunJob configs run jobID reportType embedder db)) !! jobID =
         Some job' /\
       resolved_rows_count job' = resolved_rows_count job /\
       total_rows job' = total_rows job) /\
  (forall id row, ingestion_errors (tables db) !! id = Some row ->
     ingestion_errors (tables (RunJob configs run jobID reportType embedder db)) !! id =
       Some row) /\
  (forall id row,
     ingestion_errors (tables (RunJob configs run jobID reportType embedder db)) !! id =
       Some row ->
     ingestion_errors (tables db) !! id = None ->
     job_id row = jobID /\ error_status row = "new" /\ corrected_data row = None /\
     is_Some (ingestion_jobs (tables db) !! jobID)).
Proof. apply RunJob_frame. Qed.

(** X23. The two invariants of the tables that the correction of an error
    row relies on are kept by the services that fill the tables: after
    [StartJob], and after [RunJob], every error row still refers to a job
    and every job's [resolved_rows_count] is still a number. *)
Theorem jobs_keep_the_table_invariants (db : Tables) :
  api.foreignKeysHold db -> api.countersSet db ->
  (forall upload userID,
     api.foreignKeysHold (snd (ingestion.StartJob upload userID db)) /\
     api.countersSet (snd (ingestion.StartJob upload userID db))) /\
  (forall configs run jobID reportType embedder items0,
     api.foreignKeysHold
       (tables (RunJob configs run jobID reportType embedder
                  {| items := items0; tables := db |})) /\
     api.countersSet
       (tables (RunJob configs run jobID reportType embedder
                  {| items := items0; tables := db |}))).
Proof.
  intros Hfk Hcount. split.
  - intros upload userID. unfold ingestion.StartJob.
    destruct (ingestion.copyErr upload); [done |].
    destruct (ingestion.closeErr upload); [done |].
    destruct (ingestion.createErr upload); [done |].
    unfold CreateIngestionJob.
    cbn [CreateIngestionJob_ID CreateIngestionJob_Status CreateIngestionJob_UserID].
    destruct (ingestion_jobs db !! ingestion.newJobID upload) eqn:Hnew; [done |].
    destruct (bool_decide (userID ∈ users db)); [| done]. cbn [snd]. split.
    + intros id row Hl. cbn in Hl |- *. destruct (Hfk id row Hl) as [j Hj].
      exists j. rewrite lookup_insert_ne; [done |]. intros Heq. by rewrite Heq, Hj in Hnew.
    + intros id j Hl. cbn in Hl.
      destruct (decide (id = ingestion.newJobID upload)) as [-> | Hne].
      * rewrite lookup_insert_eq in Hl. by injection Hl as <-.
      * rewrite lookup_insert_ne in Hl by done. by apply (Hcount id).
  - intros configs run jobID reportType embedder items0.
    destruct (RunJob_frame configs run jobID reportType embedder
                {| items := items0; tables := db |})
      as (_ & Hother & Hmissing & Hsame & Hkeep & Hnew).
    cbn [tables] in Hother, Hmissing, Hsame, Hkeep, Hnew.
    assert (Hdom : forall id, is_Some (ingestion_jobs db !! id) ->
              is_Some (ingestion_jobs
                         (tables (RunJob configs run jobID reportType embedder
                                    {| items := items0; tables := db |})) !! id)).
    { intros id [j Hj]. destruct (decide (id = jobID)) as [-> | Hne].
      - destruct (Hsame j Hj) as (j' & Hj' & _). by exists j'.
      - rewrite Hother by done. by exists j. }
    split.
    + intros id row Hl. destruct (ingestion_errors db !! id) as [row0|] eqn:Hold.
      * rewrite (Hkeep id row0 Hold) in Hl. injection Hl as <-.
        apply Hdom. by apply (Hfk id).
      * destruct (Hnew id row Hl Hold) as (-> & _ & _ & Hjob). by apply Hdom.
    + intros id j Hl. destruct (decide (id = jobID)) as [-> | Hne].
      * destruct (ingestion_jobs db !! jobID) as [j0|] eqn:Hj0.
        -- destruct (Hsame j0 eq_refl) as (j' & Hj' & Hr & _). rewrite Hj' in Hl.
           injection Hl as <-. rewrite Hr. by apply (Hcount jobID).
        -- by rewrite (Hmissing eq_refl) in Hl.
      * rewrite Hother in Hl by done. by apply (Hcount id).
Qed.

(** X24. What a run leaves once the rows are classified, when both status
    updates go through on a job that exists: the job is [FAILED] exactly
    when there were successful items and saving them failed, and [COMPLETE]
    exactly when no row went to triage and the save did not fail; the error
    count is null for no triage row and their number otherwise, also on a
    failed save; the error rows are those [logTriageItems] writes for the
    triage rows, also on a failed save; the items are those of the save. *)
Theorem RunJob_outcome_after_processing (configs : gmap string IngestionConfig)
  (run : JobRun) (jobID : UUID) (reportType : string) (embedder : option EmbedderFunc)
  (db : Database) (job : IngestionJob) (reader : Reader) (config : IngestionConfig)
  (result : ProcessingResult) :
  processingErr run = None -> finalErr run = None ->
  ingestion_jobs (tables db) !! jobID = Some job ->
  openReader run = Ok reader ->
  GetConfig configs reportType = Some config ->
  Process config (visitOrder run) reader (itemsQuerier (items db)) embedder = Ok result ->
  let after := RunJob configs run jobID reportType embedder db in
  let saved := saveSuccessfulItems (stagingSession run) (SuccessfulItems result) (items db) in
  let saveFailed := SuccessfulItems result <> [] /\ exists err, fst saved = Err err in
  exists job',
    ingestion_jobs (tables after) !! jobID = Some job' /\
    (job_status job' = "FAILED" <-> saveFailed) /\
    (job_status job' = "COMPLETE" <-> TriageRows result = [] /\ ~ saveFailed) /\
    initial_error_count job' =
      (if decide (TriageRows result = []) then None
       else Some (ingestion.int32 (Z.of_nat (length (TriageRows result))))) /\
    items after = (if decide (SuccessfulItems result = []) then items db else snd saved) /\
    ingestion_errors (tables after) =
      ingestion_errors (logTriageItems run jobID (TriageRows result) (tables db)).
Proof.
  intros Hp Hf Hjob Hr Hc HP after saved saveFailed.
  pose proof (UpdateJobStatus_done (processingAt run) jobID "PROCESSING" "" 0 0 (tables db)
                job Hjob) as Hstarted.
  destruct (UpdateJobStatus_frame (processingAt run) None jobID "PROCESSING" "" 0 0
              (tables db)) as (_ & He1 & _).
  assert (Hsaved : forall table, fst (saveSuccessfulItems (stagingSession run)
                     (SuccessfulItems result) table) = fst (saveSuccessfulItems
                     (stagingSession run) (SuccessfulItems result) table)) by done.
  subst after. unfold RunJob. rewrite Hp.
  change (ingestion.UpdateJobStatus (processingAt run) None jobID "PROCESSING" "" 0 0
            (tables db))
    with (@None error,
          snd (ingestion.UpdateJobStatus (processingAt run) None jobID "PROCESSING" "" 0 0
                 (tables db))).
  cbv iota beta.
  set (started := snd (ingestion.UpdateJobStatus (processingAt run) None jobID
                         "PROCESSING" "" 0 0 (tables db))) in *.
  rewrite Hr, Hc, HP. cbv zeta. rewrite logged_rows.
  set (logged := logTriageItems run jobID (TriageRows result) started).
  assert (Hlogged : ingestion_jobs logged !! jobID = ingestion_jobs started !! jobID).
  { unfold logged, logTriageItems.
    by destruct (logTriageItems_loop_frame run jobID (TriageRows result) 0 started)
      as (_ & -> & _). }
  rewrite Hstarted in Hlogged.
  assert (Herrors : forall status msg a b,
            ingestion_errors (finalStatus run jobID status msg a b logged) =
            ingestion_errors (logTriageItems run jobID (TriageRows result) (tables db))).
  { intros status msg a b. unfold finalStatus.
    destruct (UpdateJobStatus_frame (finalAt run) (finalErr run) jobID status msg a b logged)
      as (_ & -> & _).
    unfold logged, logTriageItems. apply logTriageItems_loop_ext; [done |].
    rewrite Hstarted, Hjob. by split. }
  assert (Hfinal : forall status msg a b,
            ingestion_jobs (finalStatus run jobID status msg a b logged) !! jobID =
            Some {| job_status := status;
                    completed_at := Some (finalAt run);
                    error_details :=
                      if negb (String.eqb msg "") then Some msg else None;
                    total_rows := total_rows job;
                    processed_rows := if a >? 0 then Some (ingestion.int32 a) else None;
                    initial_error_count :=
                      if b >? 0 then Some (ingestion.int32 b) else None;
                    resolved_rows_count := resolved_rows_count job |}).
  { intros status msg a b. unfold finalStatus. rewrite Hf.
    by rewrite (UpdateJobStatus_done (finalAt run) jobID status msg a b logged _ Hlogged). }
  assert (Hcount : forall rows : list TriageRow,
            (if Z.of_nat (length rows) >? 0
             then Some (ingestion.int32 (Z.of_nat (length rows))) else None) =
            (if decide (rows = []) then None
             else Some (ingestion.int32 (Z.of_nat (length rows))))).
  { intros [|t rows]; [done |]. rewrite decide_False by done.
    destruct (Z.gtb_spec (Z.of_nat (length (t :: rows))) 0) as [_ | Hle]; [done |].
    simpl in Hle. lia. }
  subst saveFailed. fold saved.
  destruct (SuccessfulItems result) as [|item rest] eqn:Es.
  - change (0 <? length [])%nat with false. cbv iota.
    unfold completeJob. eexists. cbn [tables items]. split; [apply Hfinal |].
    cbn [job_status initial_error_count]. rewrite Hcount, Herrors.
    destruct (TriageRows result) as [|t rows] eqn:Et; cbn.
    + split; [split; [by intros [=] | by intros [? _]] |].
      split; [split; [intros _; split; [done | by intros [? _]] | done] | done].
    + split; [split; [by intros [=] | by intros [? _]] |].
      split; [split; [by intros [=] | by intros [[=] _]] | done].
  - change (0 <? length (item :: rest))%nat with true. cbv iota.
    destruct saved as [[n|err] items'] eqn:Esaved.
    + unfold completeJob. eexists. cbn [tables items]. split; [apply Hfinal |].
      cbn [job_status initial_error_count]. rewrite Hcount, Herrors.
      destruct (TriageRows result) as [|t rows] eqn:Et; cbn.
      * split; [split; [by intros [=] | by intros [_ [e [=]]]] |].
        split; [split; [intros _; split; [done | by intros [_ [e [=]]]] | done] | done].
      * split; [split; [by intros [=] | by intros [_ [e [=]]]] |].
        split; [split; [by intros [=] | by intros [[=] _]] | done].
    + eexists. cbn [tables items]. split; [apply Hfinal |].
      cbn [job_status initial_error_count]. rewrite Hcount, Herrors.
      split; [split; [intros _; split; [done | by exists err] | done] |].
      split; [| split; [done | split; [| done]]].
      { split; [by intros [=] |]. intros [_ Hno]. exfalso. apply Hno.
        split; [done | by exists err]. }
      rewrite decide_False by done. cbn [snd]. symmetry.
      apply (proj2 (repository_facts.saveSuccessfulItems_commits_or_rolls_back
                      _ _ _ _ _ Esaved) err eq_refl).
Qed.

End jobs.

(** X25. [StartJob] returns a job exactly when the upload and the insert go
    through, the id drawn is new and the user exists. The job it returns is
    stored under the id with status [UPLOADED], no completion time and a
    resolved-row count of 0, and nothing else changes; when it fails the
    tables are as before. *)
Theorem StartJob_succeeds_iff (upload : ingestion.Upload) (userID : Z) (db : Tables) :
  ((exists job db', ingestion.StartJob upload userID db = (Ok job, db')) <->
   ingestion.copyErr upload = None /\ ingestion.closeErr upload = None /\
   ingestion.createErr upload = None /\
   ingestion_jobs db !! ingestion.newJobID upload = None /\ userID ∈ users db) /\
  (forall job db', ingestion.StartJob upload userID db = (Ok job, db') ->
     job_status job = "UPLOADED" /\ completed_at job = None /\
     resolved_rows_count job = Some 0 /\
     ingestion_jobs db' = <[ingestion.newJobID upload := job]> (ingestion_jobs db) /\
     ingestion_errors db' = ingestion_errors db /\ users db' = users db) /\
  (forall err db', ingestion.StartJob upload userID db = (Err err, db') -> db' = db).
Proof.
  unfold ingestion.StartJob.
  destruct (ingestion.copyErr upload) as [e|].
  { split; [split; [by intros (? & ? & [=]) | by intros ([=] & _)] |].
    split; [by intros | by intros ? ? [= _ <-]]. }
  destruct (ingestion.closeErr upload) as [e|].
  { split; [split; [by intros (? & ? & [=]) | by intros (_ & [=] & _)] |].
    split; [by intros | by intros ? ? [= _ <-]]. }
  destruct (ingestion.createErr upload) as [e|].
  { split; [split; [by intros (? & ? & [=]) | by intros (_ & _ & [=] & _)] |].
    split; [by intros | by intros ? ? [= _ <-]]. }
  unfold CreateIngestionJob.
  cbn [CreateIngestionJob_ID CreateIngestionJob_Status CreateIngestionJob_UserID].
  destruct (ingestion_jobs db !! ingestion.newJobID upload) as [j|].
  { split; [split; [by intros (? & ? & [=]) | by intros (_ & _ & _ & [=] & _)] |].
    split; [by intros | by intros ? ? [= _ <-]]. }
  destruct (bool_decide_reflect (userID ∈ users db)) as [Hin | Hout].
  - split; [split; [done | intros _; by eexists _, _] |].
    split; [by intros job db' [= <- <-] | by intros].
  - split; [split; [by intros (? & ? & [=]) | by intros (_ & _ & _ & _ & ?)] |].
    split; [by intros | by intros ? ? [= _ <-]].
Qed.

End job_facts.

(** * Properties of the triage handlers *)

Module triage_facts.
Import repository api.

Lemma elem_of_List_filter {A : Type} (f : A -> bool) (l : list A) (x : A) :
  x ∈ List.filter f l <-> x ∈ l /\ f x = true.
Proof.
  induction l as [|a l IH]; simpl.
  - split; [intros Hin | intros [Hin _]]; by apply elem_of_nil in Hin.
  - destruct (f a) eqn:Hfa; rewrite ?elem_of_cons, IH; split.
    + intros [-> | [Hin Hf]]; [by split; [left |] | by split; [right |]].
    + intros [[-> | Hin] Hf]; [by left | by right].
    + intros [Hin Hf]. by split; [right |].
    + intros [[-> | Hin] Hf]; [by rewrite Hfa in Hf | done].
Qed.

Lemma NoDup_fst_List_filter {A B : Type} (f : A * B -> bool) (l : list (A * B)) :
  NoDup (l.*1) -> NoDup ((List.filter f l).*1).
Proof.
  induction l as [|a l IH]; [done |]. simpl. intros Hnd.
  apply NoDup_cons in Hnd as [Hnotin Hnd]. destruct (f a); [| by apply IH].
  simpl. apply NoDup_cons. split; [| by apply IH].
  intros Hin. apply Hnotin. apply list_elem_of_fmap in Hin as (y & Hy & Hin).
  apply list_elem_of_fmap. exists y. split; [done |].
  by apply elem_of_List_filter in Hin as [Hin _].
Qed.

Lemma GetIngestionErrorsByJobID_elem (jobID : UUID) (db : Tables) (id : UUID)
  (row : IngestionError) :
  (id, row) ∈ GetIngestionErrorsByJobID jobID db <->
  ingestion_errors db !! id = Some row /\ job_id row = jobID /\
  (error_status row = "new" \/ error_status row = "pending_revalidation").
Proof.
  unfold GetIngestionErrorsByJobID. rewrite merge_sort_Permutation.
  rewrite elem_of_List_filter, elem_of_map_to_list. unfold unresolvedOf. cbn [snd].
  rewrite andb_true_iff, orb_true_iff, N.eqb_eq, !String.eqb_eq. tauto.
Qed.

(** X26. The listing of a job's error rows holds exactly the rows of that
    job whose status is [new] or [pending_revalidation], each under its id
    and once, in the order of their timestamps. *)
Theorem GetIngestionErrorsByJobID_lists_open_rows_by_time (jobID : UUID) (db : Tables) :
  (forall id row,
     (id, row) ∈ GetIngestionErrorsByJobID jobID db <->
     ingestion_errors db !! id = Some row /\ job_id row = jobID /\
     (error_status row = "new" \/ error_status row = "pending_revalidation")) /\
  NoDup ((GetIngestionErrorsByJobID jobID db).*1) /\
  StronglySorted byTimestamp (GetIngestionErrorsByJobID jobID db).
Proof.
  split; [apply GetIngestionErrorsByJobID_elem |]. split.
  - unfold GetIngestionErrorsByJobID. rewrite merge_sort_Permutation.
    apply NoDup_fst_List_filter, NoDup_fst_map_to_list.
  - unfold GetIngestionErrorsByJobID. apply StronglySorted_merge_sort.
    + intros a b c. unfold byTimestamp. lia.
    + intros a b. unfold byTimestamp. lia.
Qed.

Lemma updateIngestionError_accepted (uuid_Parse : string -> option UUID)
  (session : Session) (c : Request) (db db' : Tables) (code : Z) (u : IngestionError) :
  updateIngestionError uuid_Parse session c db = (JSON code u, db') ->
  exists errorID body correctedData row,
    uuid_Parse (errorId c) = Some errorID /\ requestBody c = Ok body /\
    body !! "corrected_data" = Some correctedData /\
    beginTxErr session = None /\ updateErr session = None /\
    incrementErr session = None /\ commitErr session = None /\
    ingestion_errors db !! errorID = Some row /\ placeholderUserID ∈ users db /\
    code = StatusOK /\
    u = {| job_id := job_id row;
           timestamp := timestamp row;
           original_row_data := original_row_data row;
           reason_for_failure := reason_for_failure row;
           error_status := "pending_revalidation";
           corrected_data := Some correctedData;
           resolved_at := Some (now session);
           resolved_by := Some placeholderUserID |} /\
    IncrementIngestionJobResolvedRows errorID
      {| users := users db;
         ingestion_jobs := ingestion_jobs db;
         ingestion_errors := <[errorID := u]> (ingestion_errors db) |} = Ok db'.
Proof.
  unfold updateIngestionError.
  destruct (uuid_Parse (errorId c)) as [errorID|]; [| done].
  destruct (requestBody c) as [body|]; [| done].
  destruct (body !! "corrected_data") as [correctedData|] eqn:Ecd; [| done].
  destruct (beginTxErr session); [done |].
  destruct (updateErr session); [done |].
  unfold UpdateIngestionErrorWithCorrection. cbn [ID CorrectedData ResolvedBy].
  destruct (ingestion_errors db !! errorID) as [row|] eqn:Erow; [| done].
  case_decide as Huser; [| done].
  destruct (incrementErr session); [done |].
  match goal with
  | |- context [IncrementIngestionJobResolvedRows errorID ?d] =>
      destruct (IncrementIngestionJobResolvedRows errorID d) as [tx2|] eqn:Einc; [| done]
  end.
  destruct (commitErr session); [done |]. intros [= <- <- <-].
  exists errorID, body, correctedData, row. by repeat (split; [done |]).
Qed.

Lemma updateIngestionError_accepts (uuid_Parse : string -> option UUID)
  (session : Session) (c : Request) (db db' : Tables) (errorID : UUID)
  (body : gmap string string) (correctedData : string) (row : IngestionError) :
  uuid_Parse (errorId c) = Some errorID -> requestBody c = Ok body ->
  body !! "corrected_data" = Some correctedData ->
  beginTxErr session = None -> updateErr session = None ->
  incrementErr session = None -> commitErr session = None ->
  ingestion_errors db !! errorID = Some row -> placeholderUserID ∈ users db ->
  IncrementIngestionJobResolvedRows errorID
    {| users := users db;
       ingestion_jobs := ingestion_jobs db;
       ingestion_errors :=
         <[errorID :=
             {| job_id := job_id row;
                timestamp := timestamp row;
                original_row_data := original_row_data row;
                reason_for_failure := reason_for_failure row;
                error_status := "pending_revalidation";
                corrected_data := Some correctedData;
                resolved_at := Some (now session);
                resolved_by := Some placeholderUserID |}]> (ingestion_errors db) |} =
    Ok db' ->
  exists u, updateIngestionError uuid_Parse session c db = (JSON StatusOK u, db').
Proof.
  intros Hid Hbody Hcd Hb Hu Hi Hc Hrow Huser Hinc. unfold updateIngestionError.
  rewrite Hid, Hbody, Hcd, Hb, Hu.
  unfold UpdateIngestionErrorWithCorrection. cbn [ID CorrectedData ResolvedBy].
  rewrite Hrow, decide_True by done. rewrite Hi, Hinc, Hc. by eexists.
Qed.

Lemma Increment_of_stored_row (errorID : UUID) (u : IngestionError) (db : Tables) :
  ingestion_errors db !! errorID = Some u ->
  ((exists db', IncrementIngestionJobResolvedRows errorID db = Ok db') <->
   (forall job n, ingestion_jobs db !! job_id u = Some job ->
      resolved_rows_count job = Some n -> n + 1 <= maxInt32)) /\
  (forall db', IncrementIngestionJobResolvedRows errorID db = Ok db' ->
     users db' = users db /\ ingestion_errors db' = ingestion_errors db /\
     (forall id, id <> job_id u -> ingestion_jobs db' !! id = ingestion_jobs db !! id) /\
     (forall job n, ingestion_jobs db !! job_id u = Some job ->
        resolved_rows_count job = Some n ->
        exists job',
          ingestion_jobs db' !! job_id u = Some job' /\
          resolved_rows_count job' = Some (n + 1))).
Proof.
  intros Hrow. unfold IncrementIngestionJobResolvedRows. rewrite Hrow.
  destruct (ingestion_jobs db !! job_id u) as [job|] eqn:Hjob.
  2: { split; [split; [by intros | intros _; by eexists] |].
       intros db' [= <-]. by repeat (split; [done |]). }
  destruct (resolved_rows_count job) as [n|] eqn:Hn.
  2: { split; [split; [intros _ job0 n0 [= <-] Hn0; congruence | intros _; by eexists] |].
       intros db' [= <-]. repeat (split; [done |]).
       intros job0 n0 [= <-] Hn0. congruence. }
  destruct (Z.gtb_spec (n + 1) maxInt32) as [Hgt | Hle].
  - split; [split; [by intros [? [=]] |] | by intros].
    intros Hall. specialize (Hall job n eq_refl Hn). lia.
  - split; [split; [intros _ job0 n0 [= <-] Hn0; congruence | intros _; by eexists] |].
    intros db' [= <-]. cbn. split; [done | split; [done | split]].
    + intros id Hne. by rewrite lookup_insert_ne.
    + intros job0 n0 [= <-] Hn0. rewrite lookup_insert_eq. eexists. split; [done |].
      cbn. congruence.
Qed.

(** X27. When a correction is accepted. The handler answers 200 exactly
    when the id parses, the body binds and has the key [corrected_data], no
    step of the transaction fails, the error row exists, the user 1 exists,
    and the job's counter can take one more. The row's status plays no part:
    a row that is already corrected, resolved or ignored is corrected again.
    An error answer has code 400 exactly when the request is malformed
    and code 500 otherwise, which includes an id no row has. *)
Theorem correction_is_accepted_iff (uuid_Parse : string -> option UUID)
  (session : Session) (c : Request) (db : Tables) :
  ((exists code u db',
      updateIngestionError uuid_Parse session c db = (JSON code u, db')) <->
   exists errorID body correctedData row,
     uuid_Parse (errorId c) = Some errorID /\ requestBody c = Ok body /\
     body !! "corrected_data" = Some correctedData /\
     beginTxErr session = None /\ updateErr session = None /\
     incrementErr session = None /\ commitErr session = None /\
     ingestion_errors db !! errorID = Some row /\ placeholderUserID ∈ users db /\
     (forall job n, ingestion_jobs db !! job_id row = Some job ->
        resolved_rows_count job = Some n -> n + 1 <= maxInt32)) /\
  (forall code message db',
     updateIngestionError uuid_Parse session c db = (HTTPError code message, db') ->
     let malformed :=
       uuid_Parse (errorId c) = None \/ (exists err, requestBody c = Err err) \/
       (exists body, requestBody c = Ok body /\ body !! "corrected_data" = None) in
     (code = StatusBadRequest /\ malformed) \/
     (code = StatusInternalServerError /\ ~ malformed)).
Proof.
  split.
  - split.
    + intros (code & u & db' & Hrun).
      destruct (updateIngestionError_accepted _ _ _ _ _ _ _ Hrun)
        as (errorID & body & cd & row & Hid & Hbody & Hcd & Hb & Hu & Hi & Hc & Hrow &
            Huser & _ & Hupd & Hinc).
      exists errorID, body, cd, row. repeat (split; [done |]).
      assert (Hstored : ingestion_errors
                {| users := users db; ingestion_jobs := ingestion_jobs db;
                   ingestion_errors := <[errorID := u]> (ingestion_errors db) |}
                !! errorID = Some u) by (cbn; by rewrite lookup_insert_eq).
      destruct (Increment_of_stored_row errorID u _ Hstored) as [[Hiff _] _].
      assert (Hjid : job_id u = job_id row) by (by rewrite Hupd).
      rewrite <- Hjid. cbn [ingestion_jobs] in Hiff. apply Hiff. by exists db'.
    + intros (errorID & body & cd & row & Hid & Hbody & Hcd & Hb & Hu & Hi & Hc & Hrow &
              Huser & Hcount).
      set (u := {| job_id := job_id row;
                   timestamp := timestamp row;
                   original_row_data := original_row_data row;
                   reason_for_failure := reason_for_failure row;
                   error_status := "pending_revalidation";
                   corrected_data := Some cd;
                   resolved_at := Some (now session);
                   resolved_by := Some placeholderUserID |}).
      assert (Hstored : ingestion_errors
                {| users := users db; ingestion_jobs := ingestion_jobs db;
                   ingestion_errors := <[errorID := u]> (ingestion_errors db) |}
                !! errorID = Some u) by (cbn; by rewrite lookup_insert_eq).
      destruct (proj2 (proj1 (Increment_of_stored_row errorID u _ Hstored)) Hcount)
        as [db' Hinc].
      destruct (updateIngestionError_accepts uuid_Parse session c db db' errorID body cd row)
        as [u' Hrun]; try done.
      by exists StatusOK, u', db'.
  - intros code message db' Hrun malformed. unfold updateIngestionError in Hrun.
    destruct (uuid_Parse (errorId c)) as [errorID|] eqn:Eid.
    2: { injection Hrun as <- _ _. left. split; [done | by left]. }
    destruct (requestBody c) as [body|err] eqn:Ebody.
    2: { injection Hrun as <- _ _. left. split; [done |]. right. left. by exists err. }
    destruct (body !! "corrected_data") as [cd|] eqn:Ecd.
    2: { injection Hrun as <- _ _. left. split; [done |]. right. right. by exists body. }
    right.
    assert (Hwell : ~ malformed).
    { intros [Hm | [[err Hm] | (body' & Hm & Hnone)]]; [done | done |].
      injection Hm as <-. by rewrite Ecd in Hnone. }
    split; [| done]. revert Hrun.
    destruct (beginTxErr session); [by intros [= <- _ _] |].
    destruct (updateErr session); [by intros [= <- _ _] |].
    destruct (UpdateIngestionErrorWithCorrection _ _ db) as [[u tx1]|];
      [| by intros [= <- _ _]].
    destruct (incrementErr session); [by intros [= <- _ _] |].
    destruct (IncrementIngestionJobResolvedRows errorID tx1); [| by intros [= <- _ _]].
    destruct (commitErr session); [by intros [= <- _ _] | done].
Qed.

(** X28. Correcting the same error row twice counts it twice: after two
    accepted corrections of one row the job's [resolved_rows_count] is two
    more than before, and the row holds the second correction. *)
Theorem correcting_a_row_twice_counts_it_twice (uuid_Parse : string -> option UUID)
  (s1 s2 : Session) (c1 c2 : Request) (db db1 db2 : Tables) (code1 code2 : Z)
  (u1 u2 : IngestionError) :
  foreignKeysHold db -> countersSet db ->
  updateIngestionError uuid_Parse s1 c1 db = (JSON code1 u1, db1) ->
  updateIngestionError uuid_Parse s2 c2 db1 = (JSON code2 u2, db2) ->
  uuid_Parse (errorId c1) = uuid_Parse (errorId c2) ->
  exists errorID row job n job2,
    uuid_Parse (errorId c1) = Some errorID /\
    ingestion_errors db !! errorID = Some row /\
    ingestion_jobs db !! job_id row = Some job /\
    resolved_rows_count job = Some n /\
    ingestion_jobs db2 !! job_id row = Some job2 /\
    resolved_rows_count job2 = Some (n + 2) /\
    ingestion_errors db2 !! errorID = Some u2 /\
    job_id u2 = job_id row /\ original_row_data u2 = original_row_data row /\
    resolved_at u2 = Some (now s2).
Proof.
  intros Hfk Hcount Hrun1 Hrun2 Hsame.
  destruct (updateIngestionError_accepted _ _ _ _ _ _ _ Hrun1)
    as (errorID & body1 & cd1 & row & Hid1 & _ & _ & _ & _ & _ & _ & Hrow & _ & _ &
        Hu1 & Hinc1).
  destruct (updateIngestionError_accepted _ _ _ _ _ _ _ Hrun2)
    as (errorID2 & body2 & cd2 & row1 & Hid2 & _ & _ & _ & _ & _ & _ & Hrow1 & _ & _ &
        Hu2 & Hinc2).
  rewrite Hid1, Hid2 in Hsame. injection Hsame as <-.
  destruct (Hfk errorID row Hrow) as [job Hjob]. destruct (Hcount _ job Hjob) as [n Hn].
  assert (Hjid1 : job_id u1 = job_id row) by (by rewrite Hu1).
  apply (Increment_of_stored_row errorID u1) in Hinc1 as (_ & He1 & _ & Hj1);
    [| cbn; by rewrite lookup_insert_eq].
  cbn [ingestion_errors ingestion_jobs] in He1, Hj1. rewrite Hjid1 in Hj1.
  destruct (Hj1 job n Hjob Hn) as (job1 & Hjob1 & Hn1).
  rewrite He1, lookup_insert_eq in Hrow1. injection Hrow1 as <-.
  assert (Hjid2 : job_id u2 = job_id row) by (by rewrite Hu2, Hjid1).
  apply (Increment_of_stored_row errorID u2) in Hinc2 as (_ & He2 & _ & Hj2);
    [| cbn; by rewrite lookup_insert_eq].
  cbn [ingestion_errors ingestion_jobs] in He2, Hj2. rewrite Hjid2 in Hj2.
  destruct (Hj2 job1 (n + 1) Hjob1 Hn1) as (job2 & Hjob2 & Hn2).
  exists errorID, row, job, n, job2. repeat (split; [done |]).
  split; [rewrite Hn2; f_equal; lia |].
  split; [by rewrite He2, lookup_insert_eq |].
  split; [done |]. by rewrite Hu2, Hu1.
Qed.

(** X29. A corrected row stays on the triage list: after an accepted
    correction, [getIngestionErrors] for the row's job answers 200 with a
    list that holds the row as the handler returned it, with status
    [pending_revalidation]; every other id is listed with the same row as
    before, or not listed as before. *)
Theorem corrected_row_stays_listed (uuid_Parse : string -> option UUID)
  (session : Session) (c : Request) (db db' : Tables) (code : Z) (u : IngestionError)
  (errorID : UUID) (jobIdParam : string) :
  updateIngestionError uuid_Parse session c db = (JSON code u, db') ->
  uuid_Parse (errorId c) = Some errorID ->
  uuid_Parse jobIdParam = Some (job_id u) ->
  exists rows,
    getIngestionErrors uuid_Parse None jobIdParam db' = Rows StatusOK rows /\
    (errorID, u) ∈ rows /\ error_status u = "pending_revalidation" /\
    (forall id row, id <> errorID ->
       ((id, row) ∈ rows <-> (id, row) ∈ GetIngestionErrorsByJobID (job_id u) db)).
Proof.
  intros Hrun Hid Hjob.
  destruct (updateIngestionError_accepted _ _ _ _ _ _ _ Hrun)
    as (errorID' & body & cd & row & Hid' & _ & _ & _ & _ & _ & _ & Hrow & _ & _ &
        Hu & Hinc).
  rewrite Hid in Hid'. injection Hid' as <-.
  apply (Increment_of_stored_row errorID u) in Hinc as (_ & He & _);
    [| cbn; by rewrite lookup_insert_eq].
  cbn [ingestion_errors] in He.
  unfold getIngestionErrors. rewrite Hjob. eexists. split; [done |].
  assert (Hst : error_status u = "pending_revalidation") by (by rewrite Hu).
  split; [| split; [done |]].
  - apply GetIngestionErrorsByJobID_elem. rewrite He, lookup_insert_eq.
    split; [done | split; [done | by right]].
  - intros id row0 Hne. rewrite !GetIngestionErrorsByJobID_elem, He.
    by rewrite lookup_insert_ne.
Qed.

Lemma int32_in_range (n : Z) : - 2 ^ 31 <= n < 2 ^ 31 -> ingestion.int32 n = n.
Proof. intros Hn. unfold ingestion.int32. rewrite Z.mod_small; lia. Qed.

(** X30. The page parameters of the job list. A limit text that is not a
    number, or is a number not above 0, gives 20, and an offset text that is
    not a number, or is negative, gives 0; a number that fits 32 bits is
    passed as it is. So the limit handed to the query is positive and the
    offset is not negative, unless the text is a number above the 32-bit
    range, which the conversion wraps. *)
Theorem listParams_bounds (limitStr offsetStr : string) :
  (0 < fst (listParams limitStr offsetStr) \/
   exists n, Strconv.ParseInt_value limitStr = inl n /\ maxInt32 < n) /\
  (0 <= snd (listParams limitStr offsetStr) \/
   exists n, Strconv.ParseInt_value offsetStr = inl n /\ maxInt32 < n) /\
  (forall n, Strconv.ParseInt_value limitStr = inl n -> 0 < n <= maxInt32 ->
     fst (listParams limitStr offsetStr) = n) /\
  (forall n, Strconv.ParseInt_value offsetStr = inl n -> 0 <= n <= maxInt32 ->
     snd (listParams limitStr offsetStr) = n) /\
  ((forall n, Strconv.ParseInt_value limitStr = inl n -> n <= 0) ->
   fst (listParams limitStr offsetStr) = 20) /\
  ((forall n, Strconv.ParseInt_value offsetStr = inl n -> n < 0) ->
   snd (listParams limitStr offsetStr) = 0).
Proof.
  unfold listParams, maxInt32. cbn [fst snd].
  assert (H20 : ingestion.int32 20 = 20) by (apply int32_in_range; lia).
  assert (H0 : ingestion.int32 0 = 0) by (apply int32_in_range; lia).
  split; [| split; [| split; [| split; [| split]]]].
  - destruct (Strconv.ParseInt_value limitStr) as [n|]; [| left; lia].
    destruct (Z.leb_spec n 0); [left; lia |].
    destruct (decide (n <= 2 ^ 31 - 1)); [| right; exists n; split; [done | lia]].
    left. rewrite int32_in_range; lia.
  - destruct (Strconv.ParseInt_value offsetStr) as [n|]; [| left; lia].
    destruct (Z.ltb_spec n 0); [left; lia |].
    destruct (decide (n <= 2 ^ 31 - 1)); [| right; exists n; split; [done | lia]].
    left. rewrite int32_in_range; lia.
  - intros n -> Hn. destruct (Z.leb_spec n 0); [lia |]. apply int32_in_range. lia.
  - intros n -> Hn. destruct (Z.ltb_spec n 0); [lia |]. apply int32_in_range. lia.
  - intros Hall. destruct (Strconv.ParseInt_value limitStr) as [n|]; [| done].
    specialize (Hall n eq_refl). destruct (Z.leb_spec n 0); [done | lia].
  - intros Hall. destruct (Strconv.ParseInt_value offsetStr) as [n|]; [| done].
    specialize (Hall n eq_refl). destruct (Z.ltb_spec n 0); [done | lia].
Qed.

End triage_facts.

(** * The further properties on concrete rows *)

Module more_runs.

#[local] Existing Instance Fixture.types.
#[local] Existing Instance Fixture.funs.

Lemma UpsertItems_keeps_other_rows_witness :
  repository.UpsertItems 2 [Fixture.stagedRow Fixture.props2 "audit"]
    (Fixture.itemsAfter 1 [Fixture.stagedRow Fixture.props1 "claims"] Fixture.noItems) =
    Ok (1, Fixture.itemsAfter 2 [Fixture.stagedRow Fixture.props2 "audit"]
             (Fixture.itemsAfter 1 [Fixture.stagedRow Fixture.props1 "claims"]
                Fixture.noItems)) /\
  exists new,
    repository.keyed
      (Fixture.itemsAfter 2 [Fixture.stagedRow Fixture.props2 "audit"]
         (Fixture.itemsAfter 1 [Fixture.stagedRow Fixture.props1 "claims"]
            Fixture.noItems)) !! ("EMPLOYEE", "7") = Some new /\
    repository.created_at new = 1.
Proof.
  assert (H : repository.UpsertItems 2 [Fixture.stagedRow Fixture.props2 "audit"]
                (Fixture.itemsAfter 1 [Fixture.stagedRow Fixture.props1 "claims"]
                   Fixture.noItems) =
              Ok (1, Fixture.itemsAfter 2 [Fixture.stagedRow Fixture.props2 "audit"]
                       (Fixture.itemsAfter 1 [Fixture.stagedRow Fixture.props1 "claims"]
                          Fixture.noItems)))
    by (vm_compute; reflexivity).
  split; [exact H |].
  destruct (staging_facts.UpsertItems_keeps_other_rows _ _ _ _ _ H) as (_ & _ & Hkeep & _).
  edestruct (Hkeep ("EMPLOYEE", "7")) as (new & Hl & Hc); [vm_compute; reflexivity |].
  exists new. split; [exact Hl | rewrite Hc; reflexivity].
Defined.

Lemma UpsertItems_same_batch_twice_witness :
  exists row2,
    repository.keyed
      (Fixture.itemsAfter 2 [Fixture.stagedRow Fixture.props1 "claims"]
         (Fixture.itemsAfter 1 [Fixture.stagedRow Fixture.props1 "claims"]
            Fixture.noItems)) !! ("EMPLOYEE", "7") = Some row2 /\
    repository.created_at row2 = 1 /\
    repository.custom_properties row2 = repository.JObject Fixture.props1.
Proof.
  edestruct (staging_facts.UpsertItems_same_batch_twice 1 2
               [Fixture.stagedRow Fixture.props1 "claims"] Fixture.noItems
               (Fixture.itemsAfter 1 [Fixture.stagedRow Fixture.props1 "claims"]
                  Fixture.noItems)
               (Fixture.itemsAfter 2 [Fixture.stagedRow Fixture.props1 "claims"]
                  (Fixture.itemsAfter 1 [Fixture.stagedRow Fixture.props1 "claims"]
                     Fixture.noItems))
               1 1)
    as (row2 & Hl & _ & _ & Hp & _ & Hc).
  - vm_compute. reflexivity.
  - vm_compute. reflexivity.
  - intros r Hr. apply list_elem_of_singleton in Hr as ->. eexists. reflexivity.
  - intros key old Hl.
    change ((∅ : gmap (string * string) repository.ItemCols) !! key = Some old) in Hl.
    rewrite lookup_empty in Hl. discriminate Hl.
  - instantiate (2 := ("EMPLOYEE", "7")). vm_compute. reflexivity.
  - exists row2. split; [exact Hl |]. split; [rewrite Hc | rewrite Hp]; vm_compute; reflexivity.
Defined.

Lemma upserted_item_passes_exists_in_items_witness :
  repository.ItemExistsByBusinessKey_query
    {| repository.ItemType_ := "EMPLOYEE";
       repository.BusinessKey_ := {| pgtype.String_ := "7"; pgtype.Valid := true |} |}
    (Fixture.itemsAfter 1 [Fixture.stagedRow Fixture.props1 "claims"] Fixture.noItems) = 1.
Proof.
  assert (H : repository.UpsertItems 1 [Fixture.stagedRow Fixture.props1 "claims"]
                Fixture.noItems =
              Ok (1, Fixture.itemsAfter 1 [Fixture.stagedRow Fixture.props1 "claims"]
                       Fixture.noItems))
    by (vm_compute; reflexivity).
  destruct (staging_facts.upserted_item_passes_exists_in_items _ _ _ _ _ H) as [Hin _].
  destruct (Hin (Fixture.stagedRow Fixture.props1 "claims") "7"
              {| processing.Required := false; processing.AllowZero := None;
                 processing.Enum := []; processing.Regex := "";
                 processing.ExistsInItems := "EMPLOYEE" |}) as [Hq _].
  - apply list_elem_of_singleton. reflexivity.
  - reflexivity.
  - reflexivity.
  - exact Hq.
Defined.

Lemma copyRows_stages_every_item_witness :
  exists staging,
    processing.copyRows Fixture.quietStaging [Fixture.item "7"; Fixture.item "8"] =
      Ok staging /\
    length staging = 2%nat.
Proof.
  eexists. split; [vm_compute; reflexivity |].
  edestruct (staging_facts.copyRows_stages_every_item Fixture.quietStaging
               [Fixture.item "7"; Fixture.item "8"]) as (Hlen & _);
    [vm_compute; reflexivity |].
  exact Hlen.
Defined.

Lemma saveSuccessfulItems_all_or_nothing_witness :
  exists table' staging,
    processing.saveSuccessfulItems Fixture.quietStaging [Fixture.item "7"] Fixture.noItems =
      (Ok 1, table') /\
    processing.copyRows Fixture.quietStaging [Fixture.item "7"] = Ok staging /\
    repository.UpsertItems 3 staging Fixture.noItems = Ok (1, table').
Proof.
  assert (H : processing.saveSuccessfulItems Fixture.quietStaging [Fixture.item "7"]
                Fixture.noItems =
              (Ok 1, snd (processing.saveSuccessfulItems Fixture.quietStaging
                            [Fixture.item "7"] Fixture.noItems)))
    by (vm_compute; reflexivity).
  destruct (staging_facts.saveSuccessfulItems_all_or_nothing _ _ _ _ _ H) as [_ Hok].
  destruct (Hok 1 eq_refl) as (_ & staging & Hcopy & Hup).
  eexists _, staging. split; [exact H | split; [exact Hcopy | exact Hup]].
Defined.

Lemma processRow_binds_the_mapped_fields_witness :
  exists data,
    processing.processRow (Fixture.idDept []) (fun _ => Fixture.order) Fixture.queries
      [" 7 "; "claims"] (processing.buildHeaderMap ["id"; "dept"]) = Ok data /\
    is_Some (data !! "dept").
Proof.
  eexists. split; [vm_compute; reflexivity |].
  eapply (row_facts.processRow_binds_the_mapped_fields (Fixture.idDept [])
            (fun _ => Fixture.order) Fixture.queries [" 7 "; "claims"]
            (processing.buildHeaderMap ["id"; "dept"])); [vm_compute; reflexivity |].
  exists (Fixture.mapping "dept" false [] (Fixture.rule true None)).
  split; [| reflexivity].
  apply elem_of_cons. right. apply elem_of_cons. left. reflexivity.
Defined.

Lemma createOriginalRecordMap_keeps_header_fields_witness :
  NoDup ["id"; "dept"] /\
  processing.createOriginalRecordMap ["7"] ["id"; "dept"] !! "dept" = Some "".
Proof.
  assert (Hnd : NoDup ["id"; "dept"]) by (apply (bool_decide_unpack _); vm_compute; exact I).
  split; [exact Hnd |].
  destruct (row_facts.createOriginalRecordMap_keeps_header_fields ["7"] ["id"; "dept"] Hnd)
    as [Hkeys _].
  exact (Hkeys 1%nat "dept" eq_refl).
Defined.

Lemma wide_row_with_merge_column_is_always_repaired_witness :
  length
    (processing.repairRecord ["1"; "a"; "b"; "c"; "d"; "x"] 3
       (processing.findMergeColumnIndex (processing.buildHeaderMap ["id"; "note"; "dept"])
          (processing.ColumnMappings Fixture.noteConfig))) = 3%nat.
Proof.
  pose proof (row_facts.wide_row_with_merge_column_is_always_repaired Fixture.noteConfig
                Fixture.rangeOrder Fixture.queries None ["id"; "note"; "dept"] "dept"
                {| processing.SuccessfulItems := []; processing.TriageRows := [];
                   processing.BlankRowsDiscarded := 0 |}
                0%nat ["1"; "a"; "b"; "c"; "d"; "x"]) as Hthm.
  cbv zeta in Hthm.
  destruct Hthm as (_ & Hlen & _).
  - vm_compute. intros Hx. discriminate Hx.
  - vm_compute. repeat constructor.
  - exact Hlen.
Defined.

Lemma applyValidation_outcome_is_order_independent_witness :
  Fixture.order ≡ₚ ["required"; "enum"; "regex"; "exists_in_items"] /\
  processing.applyValidation Fixture.order Fixture.queries (VString "7")
    (Fixture.rule true None) = None.
Proof.
  assert (Hperm : Fixture.order ≡ₚ ["required"; "enum"; "regex"; "exists_in_items"])
    by (apply (bool_decide_unpack _); vm_compute; exact I).
  split; [exact Hperm |].
  apply (row_facts.applyValidation_outcome_is_order_independent Fixture.order
           Fixture.queries (VString "7") (Fixture.rule true None) Hperm).
  right. repeat split; vm_compute; reflexivity.
Defined.

Lemma converting_transform_must_be_last_witness :
  exists e, processing.applyTransforms " 7 " (["trim_space"] ++ "to_integer" :: "trim_space" :: [])
            = Err e.
Proof.
  apply (row_facts.converting_transform_must_be_last " 7 " ["trim_space"] [] "to_integer"
           "trim_space").
  apply elem_of_cons. left. vm_compute. reflexivity.
Defined.

Lemma to_integer_gives_nil_or_an_int64_witness :
  processing.transformToInteger (VString " 1,234 ") "" = Ok (VInt64 1234) /\
  - 2 ^ 63 <= 1234 <= 2 ^ 63 - 1.
Proof.
  assert (H : processing.transformToInteger (VString " 1,234 ") "" = Ok (VInt64 1234))
    by (vm_compute; reflexivity).
  split; [exact H |].
  destruct (row_facts.to_integer_gives_nil_or_an_int64 _ _ _ H)
    as [[_ Hnil] | [_ (i & Hv & Hrange & _)]].
  - discriminate Hnil.
  - injection Hv as <-. exact Hrange.
Defined.

Lemma Process_results_are_well_formed_witness :
  Forall (fun item => repository.Status item = "active")
    (processing.SuccessfulItems Fixture.processed).
Proof.
  edestruct (row_facts.Process_results_are_well_formed (Fixture.idDept [])
               Fixture.rangeOrder Fixture.fourRows
               (repository.itemsQuerier Fixture.noItems) None Fixture.processed)
    as (headers & _ & Hitems & _); [vm_compute; reflexivity |].
  eapply Forall_impl; [exact Hitems |]. intros item Hitem. exact (proj1 (proj2 Hitem)).
Defined.

Lemma GetConfig_returns_validated_configs_witness :
  processing.GetConfig Fixture.loadedConfigs "ROSTER" = Some (Fixture.idDept []) /\
  processing.Validate (Fixture.idDept []) = None.
Proof.
  assert (H : processing.GetConfig Fixture.loadedConfigs "ROSTER" = Some (Fixture.idDept []))
    by (vm_compute; reflexivity).
  split; [exact H |].
  edestruct (loader_facts.GetConfig_returns_validated_configs Fixture.parseYaml "configs"
               Fixture.configDir Fixture.loadedConfigs "ROSTER" (Fixture.idDept []))
    as (Hvalid & _); [vm_compute; reflexivity | exact H | exact Hvalid].
Defined.

Lemma NewConfigLoader_loads_every_yaml_file_witness :
  exists data config,
    processing.ReadFile Fixture.rosterFile = Ok data /\
    Fixture.parseYaml data = Ok config /\
    processing.GetConfig Fixture.loadedConfigs (processing.ReportType config) = Some config.
Proof.
  edestruct (loader_facts.NewConfigLoader_loads_every_yaml_file Fixture.parseYaml "configs"
               Fixture.configDir Fixture.loadedConfigs) as [Hall _];
    [vm_compute; reflexivity |].
  apply (Hall Fixture.rosterFile).
  - apply elem_of_cons. right. apply elem_of_cons. left. reflexivity.
  - vm_compute. reflexivity.
Defined.

Lemma logTriageItems_logs_every_row_witness :
  repository.ingestion_errors
    (processing.logTriageItems (Fixture.quietRun Fixture.fourRows) 10%N
       [Fixture.triageRow] Fixture.triageTables) !! 30%N =
  Some {| repository.job_id := 10%N;
          repository.timestamp := 7;
          repository.original_row_data := "{}";
          repository.reason_for_failure := "scope field 'dept' is missing or nil";
          repository.error_status := "new";
          repository.corrected_data := None;
          repository.resolved_at := None;
          repository.resolved_by := None |}.
Proof.
  apply (job_facts.logTriageItems_logs_every_row (Fixture.quietRun Fixture.fourRows) 10%N
           [Fixture.triageRow] Fixture.triageTables) with (i := 0%nat) (r := Fixture.triageRow).
  - exists Fixture.triageJob. vm_compute. reflexivity.
  - intros i Hi. destruct i as [|i]; [vm_compute; reflexivity |].
    exfalso. apply Nat.succ_lt_mono in Hi. exact (Nat.nlt_0_r _ Hi).
  - intros i j Hi Hj _. destruct i as [|i], j as [|j]; [reflexivity | | |];
      exfalso.
    + apply Nat.succ_lt_mono in Hj. exact (Nat.nlt_0_r _ Hj).
    + apply Nat.succ_lt_mono in Hi. exact (Nat.nlt_0_r _ Hi).
    + apply Nat.succ_lt_mono in Hi. exact (Nat.nlt_0_r _ Hi).
  - reflexivity.
  - reflexivity.
  - reflexivity.
Defined.

Lemma RunJob_ends_in_a_final_status_witness :
  exists job',
    repository.ingestion_jobs
      (processing.tables
         (processing.RunJob Fixture.loadedConfigs (Fixture.quietRun Fixture.fourRows) 10%N
            "ROSTER" None Fixture.database)) !! 10%N = Some job' /\
    repository.completed_at job' = Some 8 /\
    repository.resolved_rows_count job' = Some 0.
Proof.
  edestruct (job_facts.RunJob_ends_in_a_final_status Fixture.loadedConfigs
               (Fixture.quietRun Fixture.fourRows) 10%N "ROSTER" None Fixture.database
               Fixture.triageJob) as (job' & Hl & _ & Hc & Hr & _).
  - reflexivity.
  - reflexivity.
  - vm_compute. reflexivity.
  - exists job'. split; [exact Hl | split; [exact Hc | exact Hr]].
Defined.

Lemma triageTables_foreign_keys : api.foreignKeysHold Fixture.triageTables.
Proof.
  intros id row Hl.
  change (({[ 20%N := Fixture.triageError ]} : gmap repository.UUID _) !! id = Some row) in Hl.
  apply lookup_singleton_Some in Hl as [_ <-].
  exists Fixture.triageJob. vm_compute. reflexivity.
Defined.

Lemma triageTables_counters : api.countersSet Fixture.triageTables.
Proof.
  intros id job Hl.
  change (({[ 10%N := Fixture.triageJob ]} : gmap repository.UUID _) !! id = Some job) in Hl.
  apply lookup_singleton_Some in Hl as [_ <-].
  exists 0. reflexivity.
Defined.

Lemma jobs_keep_the_table_invariants_witness :
  api.foreignKeysHold (snd (ingestion.StartJob Fixture.quietUpload 1 Fixture.triageTables)) /\
  api.countersSet
    (processing.tables
       (processing.RunJob Fixture.loadedConfigs (Fixture.quietRun Fixture.fourRows) 10%N
          "ROSTER" None Fixture.database)).
Proof.
  destruct (job_facts.jobs_keep_the_table_invariants Fixture.triageTables
              triageTables_foreign_keys triageTables_counters) as [Hstart Hrun].
  split.
  - exact (proj1 (Hstart Fixture.quietUpload 1)).
  - exact (proj2 (Hrun Fixture.loadedConfigs (Fixture.quietRun Fixture.fourRows) 10%N
                    "ROSTER" None Fixture.noItems)).
Defined.

Lemma RunJob_outcome_after_processing_witness :
  exists job',
    repository.ingestion_jobs
      (processing.tables
         (processing.RunJob Fixture.loadedConfigs (Fixture.quietRun Fixture.fourRows) 10%N
            "ROSTER" None Fixture.database)) !! 10%N = Some job' /\
    repository.initial_error_count job' = Some 2.
Proof.
  edestruct (job_facts.RunJob_outcome_after_processing Fixture.loadedConfigs
               (Fixture.quietRun Fixture.fourRows) 10%N "ROSTER" None Fixture.database
               Fixture.triageJob Fixture.fourRows (Fixture.idDept []) Fixture.processed)
    as (job' & Hl & _ & _ & Hcount & _).
  - reflexivity.
  - reflexivity.
  - vm_compute. reflexivity.
  - reflexivity.
  - vm_compute. reflexivity.
  - vm_compute. reflexivity.
  - exists job'. split; [exact Hl |]. rewrite Hcount. vm_compute. reflexivity.
Defined.

Lemma correcting_a_row_twice_counts_it_twice_witness :
  exists job2,
    repository.ingestion_jobs
      (Fixture.afterCorrection (Fixture.afterCorrection Fixture.triageTables)) !! 10%N =
      Some job2 /\
    repository.resolved_rows_count job2 = Some 2.
Proof.
  edestruct (triage_facts.correcting_a_row_twice_counts_it_twice Fixture.parseUUID
               Fixture.quietSession Fixture.quietSession Fixture.correction
               Fixture.correction Fixture.triageTables
               (Fixture.afterCorrection Fixture.triageTables)
               (Fixture.afterCorrection (Fixture.afterCorrection Fixture.triageTables))
               200 200 (Fixture.correctedRow Fixture.triageTables)
               (Fixture.correctedRow (Fixture.afterCorrection Fixture.triageTables))
               triageTables_foreign_keys triageTables_counters)
    as (errorID & row & job & n & job2 & Hid & Hrow & Hjob & Hn & Hjob2 & Hn2 & _).
  - vm_compute. reflexivity.
  - vm_compute. reflexivity.
  - reflexivity.
  - injection Hid as <-.
    change (({[ 20%N := Fixture.triageError ]} : gmap repository.UUID _) !! 20%N = Some row)
      in Hrow.
    apply lookup_singleton_Some in Hrow as [_ <-].
    change (({[ 10%N := Fixture.triageJob ]} : gmap repository.UUID _) !! 10%N = Some job)
      in Hjob.
    apply lookup_singleton_Some in Hjob as [_ <-].
    injection Hn as <-.
    exists job2. split; [exact Hjob2 | exact Hn2].
Defined.

Lemma corrected_row_stays_listed_witness :
  exists rows,
    api.getIngestionErrors Fixture.parseUUID None "job-10"
      (Fixture.afterCorrection Fixture.triageTables) = api.Rows 200 rows /\
    (20%N, Fixture.correctedRow Fixture.triageTables) ∈ rows.
Proof.
  edestruct (triage_facts.corrected_row_stays_listed Fixture.parseUUID Fixture.quietSession
               Fixture.correction Fixture.triageTables
               (Fixture.afterCorrection Fixture.triageTables) 200
               (Fixture.correctedRow Fixture.triageTables) 20%N "job-10")
    as (rows & Hlist & Hin & _).
  - vm_compute. reflexivity.
  - reflexivity.
  - vm_compute. reflexivity.
  - exists rows. split; [exact Hlist | exact Hin].
Defined.

End more_runs.
